(** * Type Detective: a shallow embedding of [mod.ts]

    The development follows the source file top to bottom: the JavaScript
    built-ins the module calls ([String.prototype.repeat], [trim], [split],
    the two regular expressions, [Set] and [Array.prototype.sort]), the
    configuration record, [inferType], [mergeTypes],
    [mergeObjectArrayTypes], [detectType], [setupTypeDetective] and
    [getTypeDetectiveConfig].

    Conventions.
    - A JavaScript string is a [string]; each character stands for one
      UTF-16 code unit below 256, so that the default [sort] order (by code
      unit) is the lexicographic order of [String.compare].
    - A JavaScript number is a [JsNumber]: NaN, the two infinities, or a
      finite value, kept as a rational (every finite double is one; zero
      carries no sign).  [add1] is the addition of one, rounded to the
      nearest double.
    - An array is dense; an object is the list of its own enumerable
      string-keyed data properties in enumeration order ([Object.keys]
      order); no value has a getter or a proxy behind it.  The records the
      module creates with an object literal inherit from
      [Object.prototype]: an assignment to their key [__proto__] reaches
      the inherited accessor, which drops a string (see [assignText]) and
      makes an object the prototype, where the reads of that key find it.
    - [repeat] throws a RangeError for a negative or an infinite count,
      and, as a concatenation does, for a result longer than the longest
      string of the engine ([maxStringLength], the bound of V8).
    - The source is followed twice.  The first part takes the value as a
      tree ([Value]), the configuration as an argument and the indent level
      as a nesting count, a [nat], whose indentation [repeatStr] builds; it
      sets no limit to the length of a text: these are the calls as long as
      the limits of the engine are not met, and [inferType_within] is the
      same calls within the limits.  The second part, the module [Exec],
      runs the same source on a store, the configuration object and the
      heap of arrays and objects the argument points into: the indent level
      is any number; [repeat], a text that is too long and a full call
      stack throw; a call returns or throws and leaves a store.
      [calls_agree] and [within_limits] relate the two: at the levels of a
      nesting count, a call on the store ends as the call on the tree does
      within the limits, and where the stack has room and the texts fit in
      a string it returns the text of the first part.
    - The recursion of [inferType] and [mergeObjectArrayTypes] follows the
      nesting of the value.  On trees it is modelled with a step budget,
      and [fuelFor] computes a budget that is always enough; on the store
      the budget is the room left on the call stack, and a call without
      room throws a RangeError. *)

From Stdlib Require Import List String Ascii Bool Arith ZArith QArith Lia.
From Stdlib Require Import Permutation Sorted.
Import ListNotations.
Close Scope Q_scope.
Open Scope string_scope.
Open Scope nat_scope.

(* ================================================================== *)
(** * JavaScript built-ins used by the module *)
(* ================================================================== *)

Module Js.

(** ** Numbers *)

Inductive JsNumber : Type :=
| NaN
| PosInf
| NegInf
| Fin (q : Q).

(** [n > 0] *)
Definition gtZero (n : JsNumber) : bool :=
  match n with
  | NaN => false
  | PosInf => true
  | NegInf => false
  | Fin q => (0 <? Qnum q)%Z
  end.

(** ToIntegerOrInfinity on a finite value: truncation towards zero. *)
Definition truncate (q : Q) : Z := Z.quot (Qnum q) (Zpos (Qden q)).

(** The power of two with exponent [e], as a rational. *)
Definition pow2 (e : Z) : Q :=
  if (0 <=? e)%Z then inject_Z (2 ^ e) else Qinv (inject_Z (2 ^ (- e))).

(** The exponent of a positive rational [q]: the [e] with
    [pow2 e <= q < pow2 (e + 1)]. *)
Definition exponentOf (q : Q) : Z :=
  let a := (Z.log2 (Qnum q) - Z.log2 (Zpos (Qden q)))%Z in
  if Qle_bool (pow2 a) q then a else (a - 1)%Z.

(** The integer nearest to a non-negative rational, a tie going to the even
    one. *)
Definition roundHalfEven (q : Q) : Z :=
  let n := Qnum q in
  let d := Zpos (Qden q) in
  let t := (n / d)%Z in
  match (2 * (n mod d) ?= d)%Z with
  | Lt => t
  | Gt => (t + 1)%Z
  | Eq => if Z.even t then t else (t + 1)%Z
  end.

(** The double nearest to a rational: 53 significant bits, exponents from
    -1022 to 1023, round to nearest, ties to even. *)
Definition toDouble (q : Q) : JsNumber :=
  if Qeq_bool q 0 then Fin 0
  else
    let a := if Qle_bool 0 q then q else Qopp q in
    let e := Z.max (exponentOf a) (-1022) in
    let ulp := pow2 (e - 52) in
    let r := Qred (inject_Z (roundHalfEven (a / ulp)) * ulp) in
    if Qle_bool (pow2 1024) r then (if Qle_bool 0 q then PosInf else NegInf)
    else Fin (if Qle_bool 0 q then r else Qopp r).

(** [n + 1] *)
Definition add1 (n : JsNumber) : JsNumber :=
  match n with
  | Fin q => toDouble (q + 1)
  | _ => n
  end.

(** ** Strings *)

Definition nl : string := String "010"%char EmptyString.
Definition tabChar : string := String "009"%char EmptyString.

(** [s.repeat(n)] for an integer count. *)
Fixpoint repeatStr (s : string) (n : nat) : string :=
  match n with
  | O => ""
  | S k => s ++ repeatStr s k
  end.

(** The longest string the engine builds: [String::kMaxLength] of V8 on a
    64-bit target, the engine of Deno and Node. *)
Definition maxStringLength : Z := 536870888.

(** A string the engine can build. *)
Definition fits (t : string) : bool :=
  (Z.of_nat (String.length t) <=? maxStringLength)%Z.

(** [s.repeat(count)]: the count goes through ToIntegerOrInfinity; a
    negative or infinite count throws a RangeError ([None]), and so does a
    result longer than [maxStringLength]. *)
Definition repeat (s : string) (count : JsNumber) : option string :=
  match count with
  | NaN => Some ""
  | PosInf => None
  | NegInf => None
  | Fin q =>
      let n := truncate q in
      if (n <? 0)%Z then None
      else if (maxStringLength <? n * Z.of_nat (String.length s))%Z then None
      else Some (repeatStr s (Z.to_nat n))
  end.

Definition startsWith (t p : string) : bool := String.prefix p t.

Definition endsWith (t p : string) : bool :=
  let n := String.length t in
  let m := String.length p in
  (m <=? n) && String.eqb (substring (n - m) m t) p.

(** [t.includes("\n")] *)
Definition includesNewline (t : string) : bool :=
  existsb (Ascii.eqb "010"%char) (list_ascii_of_string t).

(** White space and line terminators removed by [trim]. *)
Definition isWhiteSpace (c : ascii) : bool :=
  let n := nat_of_ascii c in
  ((9 <=? n) && (n <=? 13)) || (n =? 32) || (n =? 160).

Fixpoint dropWhile {A : Type} (p : A -> bool) (l : list A) : list A :=
  match l with
  | [] => []
  | x :: r => if p x then dropWhile p r else l
  end.

Definition trim (t : string) : string :=
  string_of_list_ascii
    (rev (dropWhile isWhiteSpace
            (rev (dropWhile isWhiteSpace (list_ascii_of_string t))))).

(** [t.split(c)] for a one-character separator. *)
Fixpoint splitOn (c : ascii) (t : string) : list string :=
  match t with
  | EmptyString => [""]
  | String a r =>
      if Ascii.eqb a c then "" :: splitOn c r
      else match splitOn c r with
           | [] => [String a ""]
           | h :: tl => String a h :: tl
           end
  end.

Definition splitBar (t : string) : list string := splitOn "|"%char t.

(** [l.join(sep)] *)
Definition join (sep : string) (l : list string) : string :=
  String.concat sep l.

(** [t.slice(1, -1)] *)
Definition slice1m1 (t : string) : string :=
  substring 1 (String.length t - 2) t.

(** The dot of a regular expression without the [s] flag stops at a line
    terminator. *)
Definition isLineTerminator (c : ascii) : bool :=
  let n := nat_of_ascii c in (n =? 10) || (n =? 13).

(** The postfix pattern of the source: start of input, a greedy group of
    dot characters, the two characters of an empty bracket pair, end of
    input.  Returns capture group 1. *)
Definition matchPostfix (t : string) : option string :=
  if endsWith t "[]" then
    let pre := substring 0 (String.length t - 2) t in
    if existsb isLineTerminator (list_ascii_of_string pre) then None
    else Some pre
  else None.

(** The generic pattern of the source, with the [s] flag: the word Array,
    an opening angle bracket, a non-empty group of any characters, a
    closing angle bracket, end of input.  Returns capture group 1. *)
Definition matchGeneric (t : string) : option string :=
  if startsWith t "Array<" && endsWith t ">" && (8 <=? String.length t)
  then Some (substring 6 (String.length t - 7) t)
  else None.

(** ** Sets and sorting *)

Definition mem (x : string) (l : list string) : bool :=
  existsb (String.eqb x) l.

(** [set.add(x)] on the insertion-ordered content of a [Set]. *)
Definition setAdd (acc : list string) (x : string) : list string :=
  if mem x acc then acc else (acc ++ [x])%list.

(** [Array.from(new Set(l))]: first occurrences, in order. *)
Definition uniq (l : list string) : list string := fold_left setAdd l [].

Fixpoint insertSorted (x : string) (l : list string) : list string :=
  match l with
  | [] => [x]
  | y :: r => if String.leb x y then x :: l else y :: insertSorted x r
  end.

(** [l.sort()] with the default comparison (code-unit order). *)
Definition sort (l : list string) : list string :=
  fold_right insertSorted [] l.

(** ** The option monad: a call that yields no result *)

Definition bind {A B : Type} (m : option A) (f : A -> option B) : option B :=
  match m with
  | Some a => f a
  | None => None
  end.

Fixpoint mapM {A B : Type} (f : A -> option B) (l : list A)
  : option (list B) :=
  match l with
  | [] => Some []
  | x :: r =>
      bind (f x) (fun y => bind (mapM f r) (fun ys => Some (y :: ys)))
  end.

Fixpoint foldM {A B : Type} (f : B -> A -> option B) (l : list A) (b : B)
  : option B :=
  match l with
  | [] => Some b
  | x :: r => bind (f b x) (fun b' => foldM f r b')
  end.

End Js.

Import Js.

Notation "x <- m ;; k" := (bind m (fun x => k))
  (at level 61, m at next level, right associativity).

(* ================================================================== *)
(** * Values *)
(* ================================================================== *)

Set Warnings "-register-all".

(** The runtime values [inferType] receives.  [VHost tag] is a value whose
    [typeof] is the engine-defined string [tag]; it has no own properties. *)
Inductive Value : Type :=
| VNull
| VUndefined
| VBoolean (b : bool)
| VNumber (n : JsNumber)
| VString (s : string)
| VSymbol (description : string)
| VBigInt (z : Z)
| VFunction
| VArray (elems : list Value)
| VObject (props : list (string * Value))
| VHost (tag : string).

(** [typeof value] *)
Definition typeof (value : Value) : string :=
  match value with
  | VNull => "object"
  | VUndefined => "undefined"
  | VBoolean _ => "boolean"
  | VNumber _ => "number"
  | VString _ => "string"
  | VSymbol _ => "symbol"
  | VBigInt _ => "bigint"
  | VFunction => "function"
  | VArray _ => "object"
  | VObject _ => "object"
  | VHost tag => tag
  end.

(** [Array.isArray(value)] *)
Definition isArray (value : Value) : bool :=
  match value with
  | VArray _ => true
  | _ => false
  end.

(** ToBoolean, as used by [el && ...]. *)
Definition truthy (value : Value) : bool :=
  match value with
  | VNull => false
  | VUndefined => false
  | VBoolean b => b
  | VNumber NaN => false
  | VNumber (Fin q) => negb (Qnum q =? 0)%Z
  | VNumber _ => true
  | VString s => negb (String.eqb s "")
  | VBigInt z => negb (z =? 0)%Z
  | _ => true
  end.

(** [el && typeof el === "object"] *)
Definition isObjectLike (el : Value) : bool :=
  truthy el && String.eqb (typeof el) "object".

(** [el && typeof el === "object" && !Array.isArray(el)] *)
Definition isPlainObject (el : Value) : bool :=
  isObjectLike el && negb (isArray el).

(** Own enumerable string-keyed properties, in enumeration order. *)
Definition ownProps (value : Value) : list (string * Value) :=
  match value with
  | VObject props => props
  | _ => []
  end.

(** [Object.keys(obj)] *)
Definition objectKeys (obj : Value) : list string := map fst (ownProps obj).

(** [Object.prototype.hasOwnProperty.call(obj, key)] *)
Definition hasOwn (obj : Value) (key : string) : bool :=
  existsb (fun p => String.eqb (fst p) key) (ownProps obj).

(** [obj[key]] *)
Definition getProp (obj : Value) (key : string) : Value :=
  match find (fun p => String.eqb (fst p) key) (ownProps obj) with
  | Some p => snd p
  | None => VUndefined
  end.

(** Nesting depth of a value. *)
Fixpoint height (v : Value) : nat :=
  match v with
  | VArray elems => S (fold_right (fun x acc => Nat.max (height x) acc) 0 elems)
  | VObject props =>
      S (fold_right (fun p acc => Nat.max (height (snd p)) acc) 0 props)
  | _ => 0
  end.

Definition heightAll (arr : list Value) : nat :=
  fold_right (fun x acc => Nat.max (height x) acc) 0 arr.

(* ================================================================== *)
(** * Configuration *)
(* ================================================================== *)

Inductive TypeDetectiveMode : Type := Merge | Union.

Inductive TypeDetectiveIndentType : Type := Space | Tab.

Inductive TypeDetectiveArrayStyle : Type := Generic | Postfix.

Record TypeDetectiveConfig : Type := mkConfig {
  mode : TypeDetectiveMode;
  indent : JsNumber;
  indentType : TypeDetectiveIndentType;
  _computedIndent : string;
  arrayStyle : TypeDetectiveArrayStyle
}.

(** The initial value of the module-level [typeDetectiveConfig]. *)
Definition typeDetectiveConfig : TypeDetectiveConfig :=
  {| mode := Merge;
     indent := Fin (2 # 1);
     indentType := Space;
     _computedIndent := "  ";
     arrayStyle := Postfix |}.

Definition isPostfix (cfg : TypeDetectiveConfig) : bool :=
  match arrayStyle cfg with
  | Postfix => true
  | Generic => false
  end.

(* ================================================================== *)
(** * inferType, mergeTypes, mergeObjectArrayTypes *)
(* ================================================================== *)

(** [mergeTypes(types)] *)
Definition mergeTypes (types : list string) : string :=
  let unique := Js.sort (uniq types) in
  match unique with
  | [u] => u
  | _ => join " | " unique
  end.

(** The accumulator [{ types, presentCount }] kept for one key. *)
Record FieldAcc : Type := mkFieldAcc {
  types : list string;
  presentCount : nat
}.

(** [properties[key]] on a record kept as an association list. *)
Definition recordGet {A : Type} (properties : list (string * A)) (key : string)
  : option A :=
  match find (fun p => String.eqb (fst p) key) properties with
  | Some p => Some (snd p)
  | None => None
  end.

(** [properties[key] = x]: an existing key keeps its position. *)
Fixpoint recordSet {A : Type} (properties : list (string * A)) (key : string)
  (x : A) : list (string * A) :=
  match properties with
  | [] => [(key, x)]
  | (k, y) :: r =>
      if String.eqb k key then (k, x) :: r else (k, y) :: recordSet r key x
  end.

(** [properties[key] = text] on the record that [inferType] creates with an
    empty object literal.  The record inherits the accessor [__proto__] of
    [Object.prototype], whose setter ignores a string: that key never
    becomes an own property of the record.  Every other key is stored. *)
Definition assignText (properties : list (string * string))
  (key text : string) : list (string * string) :=
  if String.eqb key "__proto__" then properties
  else recordSet properties key text.

(** [match ? match[1] : t] with the postfix pattern. *)
Definition stripPostfix (t : string) : string :=
  match matchPostfix t with
  | Some m => m
  | None => t
  end.

(** The loop that fills [flatTypes]: trim, drop one pair of enclosing
    parentheses, split on the bar, trim each part. *)
Definition flattenUnionMembers (ts : list string) : list string :=
  flat_map
    (fun t =>
       let t := trim t in
       let t := if startsWith t "(" && endsWith t ")" then slice1m1 t else t in
       map trim (splitBar t))
    ts.

(** The first loop of [mergeObjectArrayTypes]: the [Set] of all keys. *)
Definition collectAllKeys (arr : list Value) : list string :=
  uniq (flat_map (fun obj => if isPlainObject obj then objectKeys obj else [])
          arr).

(** One rendered field, as both [inferType] and [mergeObjectArrayTypes]
    append it to [output]. *)
Definition fieldLine (nextIndent key : string) (isOptional : bool)
  (type : string) : string :=
  nextIndent ++ key ++ (if isOptional then "?" else "") ++ ": " ++ type
    ++ ";" ++ nl.

Section Bodies.

(** The module-level configuration, only read here. *)
Variable cfg : TypeDetectiveConfig.

(** The recursive calls. *)
Variable inferType_rec :
  Value -> nat -> TypeDetectiveMode -> option string.
Variable mergeObjectArrayTypes_rec :
  list Value -> nat -> TypeDetectiveMode -> option string.

(** The array branch of [inferType] when every element is an array. *)
Definition inferArrayOfArrays (value : list Value) (indentLevel : nat)
  (mode : TypeDetectiveMode) : option string :=
  let indent := repeatStr (_computedIndent cfg) indentLevel in
  let nextIndent := repeatStr (_computedIndent cfg) (indentLevel + 1) in
  subArrayTypes <-
    mapM (fun subArr => inferType_rec subArr (indentLevel + 1) mode) value ;;
  match mode with
  | Merge =>
      let elementTypes :=
        fold_left
          (fun elementTypes typeStr =>
             if isPostfix cfg then
               match matchPostfix typeStr with
               | Some m => (elementTypes ++ [m])%list
               | None => (elementTypes ++ [typeStr])%list
               end
             else
               match matchGeneric typeStr with
               | Some m => (elementTypes ++ map trim (splitBar m))%list
               | None => (elementTypes ++ [typeStr])%list
               end)
          subArrayTypes [] in
      if isPostfix cfg then
        let flatTypes := flattenUnionMembers elementTypes in
        let dedupedElementTypes := Js.sort (uniq flatTypes) in
        let mergedElementType := join "|" dedupedElementTypes in
        Some (if List.length dedupedElementTypes =? 1
              then mergedElementType ++ "[][]"
              else "(" ++ mergedElementType ++ ")[][]")
      else
        let dedupedElementTypes := Js.sort (uniq elementTypes) in
        let mergedElementType := join "|" dedupedElementTypes in
        Some ("Array<Array<" ++ mergedElementType ++ ">>")
  | Union =>
      let uniqueTypes := uniq subArrayTypes in
      let multiline := existsb includesNewline uniqueTypes in
      if multiline then
        if isPostfix cfg then
          let baseTypes := map stripPostfix uniqueTypes in
          Some (match baseTypes with
                | [b] => b ++ "[][]"
                | _ => "(" ++ join (" |" ++ nl ++ nextIndent) baseTypes
                           ++ ")[][]"
                end)
        else
          Some ("Array<" ++ nl ++ nextIndent
                  ++ join (" |" ++ nl ++ nextIndent) uniqueTypes
                  ++ nl ++ indent ++ ">")
      else
        if isPostfix cfg then
          let baseTypes := map stripPostfix uniqueTypes in
          let flatTypes := flattenUnionMembers baseTypes in
          let dedupedBaseTypes := Js.sort (uniq flatTypes) in
          Some (match dedupedBaseTypes with
                | [b] => b ++ "[][]"
                | _ => "(" ++ join " | " dedupedBaseTypes ++ ")[][]"
                end)
        else
          Some ("Array<" ++ join " | " uniqueTypes ++ ">")
  end.

(** The array branch of [inferType] when every element is a non-array,
    non-null object. *)
Definition inferArrayOfObjects (value : list Value) (indentLevel : nat)
  (mode : TypeDetectiveMode) : option string :=
  let indent := repeatStr (_computedIndent cfg) indentLevel in
  let nextIndent := repeatStr (_computedIndent cfg) (indentLevel + 1) in
  match mode with
  | Merge =>
      if isPostfix cfg then
        merged <- mergeObjectArrayTypes_rec value indentLevel mode ;;
        Some (if startsWith merged "{" then merged ++ "[]"
              else "(" ++ merged ++ ")[]")
      else
        merged <- mergeObjectArrayTypes_rec value indentLevel mode ;;
        Some ("Array<" ++ merged ++ ">")
  | Union =>
      objectTypes <-
        mapM (fun obj => inferType_rec obj (indentLevel + 1) mode) value ;;
      let uniqueTypes := uniq objectTypes in
      let multiline := existsb includesNewline uniqueTypes in
      if multiline then
        if isPostfix cfg then
          Some (match uniqueTypes with
                | [u] => u ++ "[]"
                | _ => "(" ++ join (" |" ++ nl ++ nextIndent) uniqueTypes
                           ++ ")[]"
                end)
        else
          Some ("Array<" ++ nl ++ nextIndent
                  ++ join (" |" ++ nl ++ nextIndent) uniqueTypes
                  ++ nl ++ indent ++ ">")
      else
        if isPostfix cfg then
          let baseTypes := map stripPostfix uniqueTypes in
          let flatTypes := flattenUnionMembers baseTypes in
          let dedupedBaseTypes := Js.sort (uniq flatTypes) in
          Some (match dedupedBaseTypes with
                | [b] => b ++ "[][]"
                | _ => "(" ++ join " | " dedupedBaseTypes ++ ")[][]"
                end)
        else
          Some ("Array<" ++ join " | " uniqueTypes ++ ">")
  end.

(** The last array branch of [inferType]: the element types, collected in
    a [Set]. *)
Definition inferMixedArray (value : list Value) (indentLevel : nat)
  (mode : TypeDetectiveMode) : option string :=
  added <-
    mapM
      (fun el =>
         if isArray el then inferType_rec el (indentLevel + 1) mode
         else if isObjectLike el then
           match mode with
           | Union => inferType_rec el (indentLevel + 1) mode
           | Merge => mergeObjectArrayTypes_rec [el] (indentLevel + 1) mode
           end
         else inferType_rec el (indentLevel + 1) mode)
      value ;;
  let elementTypesArr := uniq added in
  if isPostfix cfg then
    Some (match elementTypesArr with
          | [e] => e ++ "[]"
          | _ => "(" ++ join " | " elementTypesArr ++ ")[]"
          end)
  else
    Some ("Array<" ++ join " | " elementTypesArr ++ ">").

(** The object branch of [inferType]. *)
Definition inferObject (value : Value) (indentLevel : nat)
  (mode : TypeDetectiveMode) : option string :=
  let indent := repeatStr (_computedIndent cfg) indentLevel in
  let nextIndent := repeatStr (_computedIndent cfg) (indentLevel + 1) in
  properties <-
    foldM
      (fun properties p =>
         t <- inferType_rec (snd p) (indentLevel + 1) mode ;;
         Some (assignText properties (fst p) t))
      (ownProps value) [] ;;
  let keys := map fst properties in
  if List.length keys =? 0 then Some "Record<string | number | symbol, never>"
  else
    let output :=
      fold_left
        (fun output p => output ++ fieldLine nextIndent (fst p) false (snd p))
        properties ("{" ++ nl) in
    Some (output ++ indent ++ "}").

(** One step of [inferType]. *)
Definition inferType_body (value : Value) (indentLevel : nat)
  (mode : TypeDetectiveMode) : option string :=
  match value with
  | VNull => Some "null"
  | _ =>
      let type := typeof value in
      if String.eqb type "undefined" || String.eqb type "boolean"
         || String.eqb type "number" || String.eqb type "string"
         || String.eqb type "symbol" || String.eqb type "bigint"
      then Some type
      else if String.eqb type "function" then Some "() => unknown"
      else
        match value with
        | VArray elems =>
            if List.length elems =? 0 then
              Some (if isPostfix cfg then "unknown[]" else "Array<unknown>")
            else if forallb isArray elems then
              inferArrayOfArrays elems indentLevel mode
            else if forallb isPlainObject elems then
              inferArrayOfObjects elems indentLevel mode
            else inferMixedArray elems indentLevel mode
        | _ =>
            if String.eqb type "object" then inferObject value indentLevel mode
            else Some "unknown"
        end
  end.

(** The type text a key's value contributes in [mergeObjectArrayTypes]. *)
Definition contributedType_body (value : Value) (indentLevel : nat)
  (mode : TypeDetectiveMode) : option string :=
  match value with
  | VArray elems =>
      if (0 <? List.length elems) && forallb isPlainObject elems then
        t <- mergeObjectArrayTypes_rec elems (indentLevel + 1) mode ;;
        Some ("Array<" ++ t ++ ">")
      else inferType_rec value (indentLevel + 1) mode
  | _ =>
      if isObjectLike value then
        mergeObjectArrayTypes_rec [value] (indentLevel + 1) mode
      else inferType_rec value (indentLevel + 1) mode
  end.

(** The inner loop over [arr] that fills [properties[key]]. *)
Definition collectKey (arr : list Value) (indentLevel : nat)
  (mode : TypeDetectiveMode) (key : string) : option FieldAcc :=
  foldM
    (fun acc obj =>
       if isPlainObject obj && hasOwn obj key then
         t <- contributedType_body (getProp obj key) indentLevel mode ;;
         Some {| types := (types acc ++ [t])%list;
                 presentCount := S (presentCount acc) |}
       else Some acc)
    arr {| types := []; presentCount := 0 |}.

(** One step of [mergeObjectArrayTypes]. *)
Definition mergeObjectArrayTypes_body (arr : list Value) (indentLevel : nat)
  (mode : TypeDetectiveMode) : option string :=
  let indent := repeatStr (_computedIndent cfg) indentLevel in
  let nextIndent := repeatStr (_computedIndent cfg) (indentLevel + 1) in
  if List.length arr =? 0 then Some "{ [key: string]: unknown }"
  else
    let allKeys := collectAllKeys arr in
    properties <-
      mapM (fun key =>
              acc <- collectKey arr indentLevel mode key ;;
              Some (key, acc))
           allKeys ;;
    let keys := Js.sort allKeys in
    if List.length keys =? 0 then Some "Record<string | number | symbol, never>"
    else
      output <-
        foldM
          (fun output key =>
             acc <- recordGet properties key ;;
             let isOptional := presentCount acc <? List.length arr in
             Some (output
                     ++ fieldLine nextIndent key isOptional
                          (mergeTypes (types acc))))
          keys ("{" ++ nl) ;;
      Some (output ++ indent ++ "}").

End Bodies.

(** [inferType] and [mergeObjectArrayTypes] with a step budget: every call
    uses one unit; [None] is an exhausted budget or a property read on
    [undefined]. *)
Fixpoint inferType_fuel (fuel : nat) (cfg : TypeDetectiveConfig)
  (value : Value) (indentLevel : nat) (mode : TypeDetectiveMode)
  {struct fuel} : option string :=
  match fuel with
  | O => None
  | S n =>
      inferType_body cfg (inferType_fuel n cfg)
        (mergeObjectArrayTypes_fuel n cfg) value indentLevel mode
  end
with mergeObjectArrayTypes_fuel (fuel : nat) (cfg : TypeDetectiveConfig)
  (arr : list Value) (indentLevel : nat) (mode : TypeDetectiveMode)
  {struct fuel} : option string :=
  match fuel with
  | O => None
  | S n =>
      mergeObjectArrayTypes_body cfg (inferType_fuel n cfg)
        (mergeObjectArrayTypes_fuel n cfg) arr indentLevel mode
  end.

(** The same calls within the limits of an engine: a call stack with room
    for [stack] nested activations, and no text longer than the longest
    string.  [None] is the RangeError of a call beyond either limit. *)
Fixpoint inferType_within (stack : nat) (cfg : TypeDetectiveConfig)
  (value : Value) (indentLevel : nat) (mode : TypeDetectiveMode)
  {struct stack} : option string :=
  match stack with
  | O => None
  | S n =>
      t <- inferType_body cfg (inferType_within n cfg)
             (mergeObjectArrayTypes_within n cfg) value indentLevel mode ;;
      if fits t then Some t else None
  end
with mergeObjectArrayTypes_within (stack : nat) (cfg : TypeDetectiveConfig)
  (arr : list Value) (indentLevel : nat) (mode : TypeDetectiveMode)
  {struct stack} : option string :=
  match stack with
  | O => None
  | S n =>
      t <- mergeObjectArrayTypes_body cfg (inferType_within n cfg)
             (mergeObjectArrayTypes_within n cfg) arr indentLevel mode ;;
      if fits t then Some t else None
  end.

(** A budget that covers the nesting of the value. *)
Definition fuelFor (value : Value) : nat := S (height value).

Definition fuelForAll (arr : list Value) : nat := S (heightAll arr).

(** [inferType(value, indentLevel, mode)] under configuration [cfg]. *)
Definition inferType (cfg : TypeDetectiveConfig) (value : Value)
  (indentLevel : nat) (mode : TypeDetectiveMode) : option string :=
  inferType_fuel (fuelFor value) cfg value indentLevel mode.

(** [mergeObjectArrayTypes(arr, indentLevel, mode)] under [cfg]. *)
Definition mergeObjectArrayTypes (cfg : TypeDetectiveConfig)
  (arr : list Value) (indentLevel : nat) (mode : TypeDetectiveMode)
  : option string :=
  mergeObjectArrayTypes_fuel (fuelForAll arr) cfg arr indentLevel mode.

(** The contributed type of a key's value, with the top-level functions. *)
Definition contributedType (cfg : TypeDetectiveConfig) (value : Value)
  (indentLevel : nat) (mode : TypeDetectiveMode) : option string :=
  contributedType_body (inferType cfg) (mergeObjectArrayTypes cfg)
    value indentLevel mode.

(** [detectType(input, indentLevel, mode)] *)
Definition detectType (cfg : TypeDetectiveConfig) (input : Value)
  (indentLevel : nat) (mode : TypeDetectiveMode) : option string :=
  inferType cfg input indentLevel mode.

(* ================================================================== *)
(** * setupTypeDetective, getTypeDetectiveConfig *)
(* ================================================================== *)

Inductive JsError : Type := RangeError | TypeError.

(** How a call ends. *)
Inductive Completion : Type :=
| Normal
| Throw (e : JsError).

Definition indentUnit (t : TypeDetectiveIndentType) : string :=
  match t with
  | Tab => tabChar
  | Space => " "
  end.

Definition setIndent (cfg : TypeDetectiveConfig) (n : JsNumber) :=
  {| mode := mode cfg; indent := n; indentType := indentType cfg;
     _computedIndent := _computedIndent cfg; arrayStyle := arrayStyle cfg |}.

Definition setIndentType (cfg : TypeDetectiveConfig)
  (t : TypeDetectiveIndentType) :=
  {| mode := mode cfg; indent := indent cfg; indentType := t;
     _computedIndent := _computedIndent cfg; arrayStyle := arrayStyle cfg |}.

Definition setArrayStyle (cfg : TypeDetectiveConfig)
  (a : TypeDetectiveArrayStyle) :=
  {| mode := mode cfg; indent := indent cfg; indentType := indentType cfg;
     _computedIndent := _computedIndent cfg; arrayStyle := a |}.

Definition setMode (cfg : TypeDetectiveConfig) (m : TypeDetectiveMode) :=
  {| mode := m; indent := indent cfg; indentType := indentType cfg;
     _computedIndent := _computedIndent cfg; arrayStyle := arrayStyle cfg |}.

Definition setComputedIndent (cfg : TypeDetectiveConfig) (s : string) :=
  {| mode := mode cfg; indent := indent cfg; indentType := indentType cfg;
     _computedIndent := s; arrayStyle := arrayStyle cfg |}.

(** [typeof options.indent === "number" && options.indent > 0] *)
Definition validIndent (x : Value) : option JsNumber :=
  match x with
  | VNumber n => if gtZero n then Some n else None
  | _ => None
  end.

(** [options.indentType === "space" || options.indentType === "tab"] *)
Definition validIndentType (x : Value) : option TypeDetectiveIndentType :=
  match x with
  | VString s =>
      if String.eqb s "space" then Some Space
      else if String.eqb s "tab" then Some Tab
      else None
  | _ => None
  end.

(** [options.arrayStyle === "generic" || options.arrayStyle === "postfix"] *)
Definition validArrayStyle (x : Value) : option TypeDetectiveArrayStyle :=
  match x with
  | VString s =>
      if String.eqb s "generic" then Some Generic
      else if String.eqb s "postfix" then Some Postfix
      else None
  | _ => None
  end.

(** [options.mode === "merge" || options.mode === "union"] *)
Definition validMode (x : Value) : option TypeDetectiveMode :=
  match x with
  | VString s =>
      if String.eqb s "merge" then Some Merge
      else if String.eqb s "union" then Some Union
      else None
  | _ => None
  end.

(** The four guarded assignments of [setupTypeDetective]. *)
Definition applyOptions (options : list (string * Value))
  (cfg : TypeDetectiveConfig) : TypeDetectiveConfig :=
  let o := VObject options in
  let cfg := match validIndent (getProp o "indent") with
             | Some n => setIndent cfg n
             | None => cfg
             end in
  let cfg := match validIndentType (getProp o "indentType") with
             | Some t => setIndentType cfg t
             | None => cfg
             end in
  let cfg := match validArrayStyle (getProp o "arrayStyle") with
             | Some a => setArrayStyle cfg a
             | None => cfg
             end in
  match validMode (getProp o "mode") with
  | Some m => setMode cfg m
  | None => cfg
  end.

(** [setupTypeDetective(options)] on the module-level configuration [cfg]:
    how the call ends, and the configuration it leaves. *)
Definition setupTypeDetective (options : list (string * Value))
  (cfg : TypeDetectiveConfig) : Completion * TypeDetectiveConfig :=
  let cfg := applyOptions options cfg in
  match Js.repeat (indentUnit (indentType cfg)) (indent cfg) with
  | Some s => (Normal, setComputedIndent cfg s)
  | None => (Throw RangeError, cfg)
  end.

(** [getTypeDetectiveConfig()] *)
Definition getTypeDetectiveConfig (cfg : TypeDetectiveConfig)
  : TypeDetectiveConfig := cfg.

(* ================================================================== *)
(** * The module run on a store *)
(* ================================================================== *)

(** The functions of the previous sections take the value as a tree and the
    indent level as a nesting count.  This section follows the same source
    on the state the engine runs it on: the module-level configuration
    object and the heap of arrays and objects that the argument points
    into.  The indent level is any number, [repeat] can throw, a text
    longer than the longest string cannot be built, and every call takes
    one unit of the call stack.  The arrays, sets and records a
    call creates for itself never leave it: they are the lists of the
    computation, and the heap holds the objects of the caller only. *)

Definition orDefault {A : Type} (x : option A) (d : A) : A :=
  match x with
  | Some a => a
  | None => d
  end.

Module Exec.

Definition Address : Type := nat.

(** What a variable, an array element or a property holds: a primitive, or
    a reference to an array or an object of the heap. *)
Inductive Stored : Type :=
| SNull
| SUndefined
| SBoolean (b : bool)
| SNumber (n : JsNumber)
| SString (s : string)
| SSymbol (description : string)
| SBigInt (z : Z)
| SFunction
| SHost (tag : string)
| SRef (a : Address).

Inductive HeapObject : Type :=
| HArray (elems : list Stored)
| HObject (props : list (string * Stored)).

(** The mutable state: the object [typeDetectiveConfig] and the heap. *)
Record Store : Type := mkStore {
  config : TypeDetectiveConfig;
  heap : list HeapObject
}.

(** How a call ends. *)
Inductive Outcome (A : Type) : Type :=
| Returns (a : A)
| Throws (e : JsError).

Arguments Returns {A} a.
Arguments Throws {A} e.

(** A computation on the store. *)
Definition M (A : Type) : Type := Store -> Outcome A * Store.

Definition ret {A : Type} (a : A) : M A := fun s => (Returns a, s).

Definition throw {A : Type} (e : JsError) : M A := fun s => (Throws e, s).

Definition bind {A B : Type} (m : M A) (f : A -> M B) : M B :=
  fun s =>
    match m s with
    | (Returns a, s') => f a s'
    | (Throws e, s') => (Throws e, s')
    end.

Notation "x <~ m ;; k" := (bind m (fun x => k))
  (at level 61, m at next level, right associativity).

(** A read of [typeDetectiveConfig]. *)
Definition readConfig : M TypeDetectiveConfig :=
  fun s => (Returns (config s), s).

(** An assignment to the fields of [typeDetectiveConfig]. *)
Definition writeConfig (cfg : TypeDetectiveConfig) : M unit :=
  fun s => (Returns tt, {| config := cfg; heap := heap s |}).

(** A read of the heap; an address outside it holds an object without
    properties. *)
Definition deref (a : Address) : M HeapObject :=
  fun s => (Returns (nth a (heap s) (HObject [])), s).

(** A built-in that throws a RangeError where the model has [None]. *)
Definition orRangeError {A : Type} (o : option A) : M A :=
  match o with
  | Some a => ret a
  | None => throw RangeError
  end.

Fixpoint mapM {A B : Type} (f : A -> M B) (l : list A) : M (list B) :=
  match l with
  | [] => ret []
  | x :: r => y <~ f x ;; ys <~ mapM f r ;; ret (y :: ys)
  end.

Fixpoint foldM {A B : Type} (f : B -> A -> M B) (l : list A) (b : B) : M B :=
  match l with
  | [] => ret b
  | x :: r => b' <~ f b x ;; foldM f r b'
  end.

(** [l.every(p)] *)
Fixpoint every {A : Type} (p : A -> M bool) (l : list A) : M bool :=
  match l with
  | [] => ret true
  | x :: r => b <~ p x ;; if b then every p r else ret false
  end.

(** [typeof value] *)
Definition typeof (value : Stored) : string :=
  match value with
  | SNull => "object"
  | SUndefined => "undefined"
  | SBoolean _ => "boolean"
  | SNumber _ => "number"
  | SString _ => "string"
  | SSymbol _ => "symbol"
  | SBigInt _ => "bigint"
  | SFunction => "function"
  | SHost tag => tag
  | SRef _ => "object"
  end.

(** ToBoolean *)
Definition truthy (value : Stored) : bool :=
  match value with
  | SNull => false
  | SUndefined => false
  | SBoolean b => b
  | SNumber NaN => false
  | SNumber (Fin q) => negb (Qnum q =? 0)%Z
  | SNumber _ => true
  | SString s => negb (String.eqb s "")
  | SBigInt z => negb (z =? 0)%Z
  | _ => true
  end.

(** [Array.isArray(value)] *)
Definition isArray (value : Stored) : M bool :=
  match value with
  | SRef a =>
      o <~ deref a ;;
      ret (match o with HArray _ => true | HObject _ => false end)
  | _ => ret false
  end.

(** [el && typeof el === "object"] *)
Definition isObjectLike (el : Stored) : bool :=
  truthy el && String.eqb (typeof el) "object".

(** [el && typeof el === "object" && !Array.isArray(el)] *)
Definition isPlainObject (el : Stored) : M bool :=
  if isObjectLike el then b <~ isArray el ;; ret (negb b) else ret false.

(** The elements of an array, as iterating over it reads them. *)
Definition elements (value : Stored) : M (list Stored) :=
  match value with
  | SRef a =>
      o <~ deref a ;;
      ret (match o with HArray elems => elems | HObject _ => [] end)
  | _ => ret []
  end.

(** The own enumerable string-keyed properties of an object, in enumeration
    order, as [for ... in] with the [hasOwnProperty] check, [Object.keys]
    and [obj[key]] read them. *)
Definition ownProps (value : Stored) : M (list (string * Stored)) :=
  match value with
  | SRef a =>
      o <~ deref a ;;
      ret (match o with HObject props => props | HArray _ => [] end)
  | _ => ret []
  end.

(** [Object.prototype.hasOwnProperty.call(obj, key)], on the properties
    read. *)
Definition hasOwnIn (props : list (string * Stored)) (key : string) : bool :=
  existsb (fun p => String.eqb (fst p) key) props.

(** [obj[key]], on the properties read. *)
Definition getPropIn (props : list (string * Stored)) (key : string) : Stored :=
  match find (fun p => String.eqb (fst p) key) props with
  | Some p => snd p
  | None => SUndefined
  end.

(** The first loop of [mergeObjectArrayTypes]: the [Set] of all keys. *)
Definition collectAllKeys (arr : list Stored) : M (list string) :=
  keys <~ mapM (fun obj =>
                  plain <~ isPlainObject obj ;;
                  if plain then props <~ ownProps obj ;; ret (map fst props)
                  else ret [])
               arr ;;
  ret (uniq (List.concat keys)).

Section Bodies.

(** The recursive calls. *)
Variable inferType_rec :
  Stored -> JsNumber -> TypeDetectiveMode -> M string.
Variable mergeObjectArrayTypes_rec :
  list Stored -> JsNumber -> TypeDetectiveMode -> M string.

(** The array branch of [inferType] when every element is an array. *)
Definition inferArrayOfArrays (value : list Stored) (indent nextIndent : string)
  (indentLevel : JsNumber) (mode : TypeDetectiveMode) : M string :=
  subArrayTypes <~
    mapM (fun subArr => inferType_rec subArr (add1 indentLevel) mode) value ;;
  cfg <~ readConfig ;;
  match mode with
  | Merge =>
      let elementTypes :=
        fold_left
          (fun elementTypes typeStr =>
             if isPostfix cfg then
               match matchPostfix typeStr with
               | Some m => (elementTypes ++ [m])%list
               | None => (elementTypes ++ [typeStr])%list
               end
             else
               match matchGeneric typeStr with
               | Some m => (elementTypes ++ map trim (splitBar m))%list
               | None => (elementTypes ++ [typeStr])%list
               end)
          subArrayTypes [] in
      if isPostfix cfg then
        let flatTypes := flattenUnionMembers elementTypes in
        let dedupedElementTypes := Js.sort (uniq flatTypes) in
        let mergedElementType := join "|" dedupedElementTypes in
        ret (if List.length dedupedElementTypes =? 1
             then mergedElementType ++ "[][]"
             else "(" ++ mergedElementType ++ ")[][]")
      else
        let dedupedElementTypes := Js.sort (uniq elementTypes) in
        let mergedElementType := join "|" dedupedElementTypes in
        ret ("Array<Array<" ++ mergedElementType ++ ">>")
  | Union =>
      let uniqueTypes := uniq subArrayTypes in
      let multiline := existsb includesNewline uniqueTypes in
      if multiline then
        if isPostfix cfg then
          let baseTypes := map stripPostfix uniqueTypes in
          ret (match baseTypes with
               | [b] => b ++ "[][]"
               | _ => "(" ++ join (" |" ++ nl ++ nextIndent) baseTypes
                          ++ ")[][]"
               end)
        else
          ret ("Array<" ++ nl ++ nextIndent
                 ++ join (" |" ++ nl ++ nextIndent) uniqueTypes
                 ++ nl ++ indent ++ ">")
      else
        if isPostfix cfg then
          let baseTypes := map stripPostfix uniqueTypes in
          let flatTypes := flattenUnionMembers baseTypes in
          let dedupedBaseTypes := Js.sort (uniq flatTypes) in
          ret (match dedupedBaseTypes with
               | [b] => b ++ "[][]"
               | _ => "(" ++ join " | " dedupedBaseTypes ++ ")[][]"
               end)
        else
          ret ("Array<" ++ join " | " uniqueTypes ++ ">")
  end.

(** The array branch of [inferType] when every element is a non-array,
    non-null object. *)
Definition inferArrayOfObjects (value : list Stored)
  (indent nextIndent : string) (indentLevel : JsNumber)
  (mode : TypeDetectiveMode) : M string :=
  match mode with
  | Merge =>
      cfg <~ readConfig ;;
      if isPostfix cfg then
        merged <~ mergeObjectArrayTypes_rec value indentLevel mode ;;
        ret (if startsWith merged "{" then merged ++ "[]"
             else "(" ++ merged ++ ")[]")
      else
        merged <~ mergeObjectArrayTypes_rec value indentLevel mode ;;
        ret ("Array<" ++ merged ++ ">")
  | Union =>
      objectTypes <~
        mapM (fun obj => inferType_rec obj (add1 indentLevel) mode) value ;;
      cfg <~ readConfig ;;
      let uniqueTypes := uniq objectTypes in
      let multiline := existsb includesNewline uniqueTypes in
      if multiline then
        if isPostfix cfg then
          ret (match uniqueTypes with
               | [u] => u ++ "[]"
               | _ => "(" ++ join (" |" ++ nl ++ nextIndent) uniqueTypes
                          ++ ")[]"
               end)
        else
          ret ("Array<" ++ nl ++ nextIndent
                 ++ join (" |" ++ nl ++ nextIndent) uniqueTypes
                 ++ nl ++ indent ++ ">")
      else
        if isPostfix cfg then
          let baseTypes := map stripPostfix uniqueTypes in
          let flatTypes := flattenUnionMembers baseTypes in
          let dedupedBaseTypes := Js.sort (uniq flatTypes) in
          ret (match dedupedBaseTypes with
               | [b] => b ++ "[][]"
               | _ => "(" ++ join " | " dedupedBaseTypes ++ ")[][]"
               end)
        else
          ret ("Array<" ++ join " | " uniqueTypes ++ ">")
  end.

(** The last array branch of [inferType]: the element types, collected in
    a [Set]. *)
Definition inferMixedArray (value : list Stored) (indentLevel : JsNumber)
  (mode : TypeDetectiveMode) : M string :=
  added <~
    mapM
      (fun el =>
         isArr <~ isArray el ;;
         if isArr then inferType_rec el (add1 indentLevel) mode
         else if isObjectLike el then
           match mode with
           | Union => inferType_rec el (add1 indentLevel) mode
           | Merge => mergeObjectArrayTypes_rec [el] (add1 indentLevel) mode
           end
         else inferType_rec el (add1 indentLevel) mode)
      value ;;
  cfg <~ readConfig ;;
  let elementTypesArr := uniq added in
  if isPostfix cfg then
    ret (match elementTypesArr with
         | [e] => e ++ "[]"
         | _ => "(" ++ join " | " elementTypesArr ++ ")[]"
         end)
  else
    ret ("Array<" ++ join " | " elementTypesArr ++ ">").

(** The object branch of [inferType]. *)
Definition inferObject (value : Stored) (indent nextIndent : string)
  (indentLevel : JsNumber) (mode : TypeDetectiveMode) : M string :=
  props <~ ownProps value ;;
  properties <~
    foldM
      (fun properties p =>
         t <~ inferType_rec (snd p) (add1 indentLevel) mode ;;
         ret (assignText properties (fst p) t))
      props [] ;;
  let keys := map fst properties in
  if List.length keys =? 0 then ret "Record<string | number | symbol, never>"
  else
    let output :=
      fold_left
        (fun output p => output ++ fieldLine nextIndent (fst p) false (snd p))
        properties ("{" ++ nl) in
    ret (output ++ indent ++ "}").

(** One activation of [inferType]. *)
Definition inferType_body (value : Stored) (indentLevel : JsNumber)
  (mode : TypeDetectiveMode) : M string :=
  cfg <~ readConfig ;;
  indent <~ orRangeError (Js.repeat (_computedIndent cfg) indentLevel) ;;
  nextIndent <~
    orRangeError (Js.repeat (_computedIndent cfg) (add1 indentLevel)) ;;
  match value with
  | SNull => ret "null"
  | _ =>
      let type := typeof value in
      if String.eqb type "undefined" || String.eqb type "boolean"
         || String.eqb type "number" || String.eqb type "string"
         || String.eqb type "symbol" || String.eqb type "bigint"
      then ret type
      else if String.eqb type "function" then ret "() => unknown"
      else
        isArr <~ isArray value ;;
        if isArr then
          elems <~ elements value ;;
          if List.length elems =? 0 then
            cfg <~ readConfig ;;
            ret (if isPostfix cfg then "unknown[]" else "Array<unknown>")
          else
            allArrays <~ every isArray elems ;;
            if allArrays then
              inferArrayOfArrays elems indent nextIndent indentLevel mode
            else
              allObjects <~ every isPlainObject elems ;;
              if allObjects then
                inferArrayOfObjects elems indent nextIndent indentLevel mode
              else inferMixedArray elems indentLevel mode
        else if String.eqb type "object" then
          inferObject value indent nextIndent indentLevel mode
        else ret "unknown"
  end.

(** The type text a key's value contributes in [mergeObjectArrayTypes]. *)
Definition contributedType_body (value : Stored) (indentLevel : JsNumber)
  (mode : TypeDetectiveMode) : M string :=
  isArr <~ isArray value ;;
  if isArr then
    elems <~ elements value ;;
    objects <~ (if 0 <? List.length elems then every isPlainObject elems
                else ret false) ;;
    if objects then
      t <~ mergeObjectArrayTypes_rec elems (add1 indentLevel) mode ;;
      ret ("Array<" ++ t ++ ">")
    else inferType_rec value (add1 indentLevel) mode
  else if isObjectLike value then
    mergeObjectArrayTypes_rec [value] (add1 indentLevel) mode
  else inferType_rec value (add1 indentLevel) mode.

(** The inner loop over [arr] that fills [properties[key]]. *)
Definition collectKey (arr : list Stored) (indentLevel : JsNumber)
  (mode : TypeDetectiveMode) (key : string) : M FieldAcc :=
  foldM
    (fun acc obj =>
       plain <~ isPlainObject obj ;;
       if plain then
         props <~ ownProps obj ;;
         if hasOwnIn props key then
           t <~ contributedType_body (getPropIn props key) indentLevel mode ;;
           ret {| types := (types acc ++ [t])%list;
                  presentCount := S (presentCount acc) |}
         else ret acc
       else ret acc)
    arr {| types := []; presentCount := 0 |}.

(** One activation of [mergeObjectArrayTypes]; [arr] holds the elements of
    the array argument. *)
Definition mergeObjectArrayTypes_body (arr : list Stored)
  (indentLevel : JsNumber) (mode : TypeDetectiveMode) : M string :=
  cfg <~ readConfig ;;
  indent <~ orRangeError (Js.repeat (_computedIndent cfg) indentLevel) ;;
  nextIndent <~
    orRangeError (Js.repeat (_computedIndent cfg) (add1 indentLevel)) ;;
  if List.length arr =? 0 then ret "{ [key: string]: unknown }"
  else
    allKeys <~ collectAllKeys arr ;;
    properties <~
      mapM (fun key =>
              acc <~ collectKey arr indentLevel mode key ;;
              ret (key, acc))
           allKeys ;;
    let keys := Js.sort allKeys in
    if List.length keys =? 0 then ret "Record<string | number | symbol, never>"
    else
      output <~
        foldM
          (fun output key =>
             match recordGet properties key with
             | Some acc =>
                 let isOptional := presentCount acc <? List.length arr in
                 ret (output
                        ++ fieldLine nextIndent key isOptional
                             (mergeTypes (types acc)))
             | None => throw TypeError
             end)
          keys ("{" ++ nl) ;;
      ret (output ++ indent ++ "}").

End Bodies.

(** The text a call has built.  A concatenation, a template literal or a
    [join] whose result would be longer than the longest string of the
    engine throws a RangeError.  Every string a call builds is a part of
    the text it returns, or of a text that a call nested in it returns (the
    pieces that [match], [trim], [slice] and [split] cut out are no longer
    than what they are cut from), so the length is checked once per call,
    on the text it is about to return. *)
Definition built (t : string) : M string :=
  if fits t then ret t else throw RangeError.

(** [inferType] and [mergeObjectArrayTypes] on a call stack with room for
    [stack] nested activations; a call beyond it throws the RangeError of
    an exhausted stack. *)
Fixpoint inferType_fuel (stack : nat) (value : Stored)
  (indentLevel : JsNumber) (mode : TypeDetectiveMode) {struct stack}
  : M string :=
  match stack with
  | O => throw RangeError
  | S n =>
      t <~ inferType_body (inferType_fuel n) (mergeObjectArrayTypes_fuel n)
             value indentLevel mode ;;
      built t
  end
with mergeObjectArrayTypes_fuel (stack : nat) (arr : list Stored)
  (indentLevel : JsNumber) (mode : TypeDetectiveMode) {struct stack}
  : M string :=
  match stack with
  | O => throw RangeError
  | S n =>
      t <~ mergeObjectArrayTypes_body (inferType_fuel n)
             (mergeObjectArrayTypes_fuel n) arr indentLevel mode ;;
      built t
  end.

(** The default [mode = typeDetectiveConfig.mode] of a signature. *)
Definition defaultMode (md : option TypeDetectiveMode) : M TypeDetectiveMode :=
  match md with
  | Some m => ret m
  | None => cfg <~ readConfig ;; ret (mode cfg)
  end.

(** [inferType(value, indentLevel = 0, mode = typeDetectiveConfig.mode)] *)
Definition inferType (stack : nat) (value : Stored)
  (indentLevel : option JsNumber) (md : option TypeDetectiveMode)
  : M string :=
  m <~ defaultMode md ;;
  inferType_fuel stack value (orDefault indentLevel (Fin 0)) m.

(** [detectType(input, indentLevel = 0, mode = typeDetectiveConfig.mode)] *)
Definition detectType (stack : nat) (input : Stored)
  (indentLevel : option JsNumber) (md : option TypeDetectiveMode)
  : M string :=
  m <~ defaultMode md ;;
  match stack with
  | O => throw RangeError
  | S n => inferType n input (Some (orDefault indentLevel (Fin 0))) (Some m)
  end.

(** [setupTypeDetective(options)]: the guarded assignments, then the
    assignment of [_computedIndent] unless [repeat] throws. *)
Definition setupTypeDetective (options : list (string * Value)) : M unit :=
  cfg <~ readConfig ;;
  let cfg := applyOptions options cfg in
  _ <~ writeConfig cfg ;;
  s <~ orRangeError (Js.repeat (indentUnit (indentType cfg)) (indent cfg)) ;;
  writeConfig (setComputedIndent cfg s).

(** [getTypeDetectiveConfig()] *)
Definition getTypeDetectiveConfig : M TypeDetectiveConfig := readConfig.

(** A call of an exported function; an omitted argument takes the default
    of the signature. *)
Inductive Call : Type :=
| CallInferType (value : Stored) (indentLevel : option JsNumber)
    (md : option TypeDetectiveMode)
| CallDetectType (input : Stored) (indentLevel : option JsNumber)
    (md : option TypeDetectiveMode)
| CallSetup (options : list (string * Value))
| CallGetConfig.

Inductive Reply : Type :=
| ReplyText (text : Outcome string)
| ReplyVoid (done : Outcome unit)
| ReplyConfig (cfg : Outcome TypeDetectiveConfig).

(** One call on a stack of [stack] activations: the reply and the store
    afterwards. *)
Definition step (stack : nat) (s : Store) (c : Call) : Reply * Store :=
  match c with
  | CallInferType value indentLevel md =>
      let r := inferType stack value indentLevel md s in
      (ReplyText (fst r), snd r)
  | CallDetectType input indentLevel md =>
      let r := detectType stack input indentLevel md s in
      (ReplyText (fst r), snd r)
  | CallSetup options =>
      let r := setupTypeDetective options s in (ReplyVoid (fst r), snd r)
  | CallGetConfig =>
      let r := getTypeDetectiveConfig s in (ReplyConfig (fst r), snd r)
  end.

(** A sequence of calls, threading the store. *)
Fixpoint run (stack : nat) (s : Store) (calls : list Call)
  : list Reply * Store :=
  match calls with
  | [] => ([], s)
  | c :: rest =>
      let r := step stack s c in
      let rs := run stack (snd r) rest in
      (fst r :: fst rs, snd rs)
  end.

Definition isInference (c : Call) : bool :=
  match c with
  | CallInferType _ _ _ => true
  | CallDetectType _ _ _ => true
  | _ => false
  end.

(** The tree a stored value denotes in a heap, read to depth [depth];
    [None] when the value is nested deeper, or cyclic. *)
Fixpoint treeOf (depth : nat) (h : list HeapObject) (v : Stored)
  : option Value :=
  match v with
  | SNull => Some VNull
  | SUndefined => Some VUndefined
  | SBoolean b => Some (VBoolean b)
  | SNumber n => Some (VNumber n)
  | SString s => Some (VString s)
  | SSymbol d => Some (VSymbol d)
  | SBigInt z => Some (VBigInt z)
  | SFunction => Some VFunction
  | SHost tag => Some (VHost tag)
  | SRef a =>
      match depth with
      | O => None
      | S n =>
          match nth a h (HObject []) with
          | HArray elems => option_map VArray (Js.mapM (treeOf n h) elems)
          | HObject props =>
              option_map VObject
                (Js.mapM (fun p => option_map (pair (fst p))
                                     (treeOf n h (snd p)))
                   props)
          end
      end
  end.

(** The level [j] nested calls below [indentLevel]. *)
Fixpoint levelBelow (indentLevel : JsNumber) (j : nat) : JsNumber :=
  match j with
  | O => indentLevel
  | S k => levelBelow (add1 indentLevel) k
  end.

End Exec.

(* ================================================================== *)
(** * Vocabulary of the statements *)
(* ================================================================== *)

(** The text of a call that returned. *)
Definition textOf (o : option string) : string :=
  match o with
  | Some s => s
  | None => ""
  end.

(** The properties [inferType] keeps of an object: all but an own
    [__proto__]. *)
Definition storedProps {A : Type} (props : list (string * A))
  : list (string * A) :=
  filter (fun p => negb (String.eqb (fst p) "__proto__")) props.

(** The objects of [arr] that have [key] as an own property. *)
Definition presentIn (key : string) (arr : list Value) : list Value :=
  filter (fun obj => isPlainObject obj && hasOwn obj key) arr.

(** The object block made of rendered fields [(key, optional, type)], as
    [mergeObjectArrayTypes] emits it at [indentLevel]. *)
Definition mergedText (cfg : TypeDetectiveConfig) (indentLevel : nat)
  (fields : list (string * bool * string)) : string :=
  match fields with
  | [] => "Record<string | number | symbol, never>"
  | _ =>
      "{" ++ nl
        ++ String.concat ""
             (map (fun f =>
                     fieldLine
                       (repeatStr (_computedIndent cfg) (indentLevel + 1))
                       (fst (fst f)) (snd (fst f)) (snd f))
                fields)
        ++ repeatStr (_computedIndent cfg) indentLevel ++ "}"
  end.

(** The type texts the objects of [arr] contribute for [key], in order. *)
Definition contributedTypes (cfg : TypeDetectiveConfig) (arr : list Value)
  (indentLevel : nat) (mode : TypeDetectiveMode) (key : string)
  : list string :=
  map (fun obj => textOf (contributedType cfg (getProp obj key) indentLevel mode))
    (presentIn key arr).

(** The code-unit order on strings. *)
Definition leS (a b : string) : Prop := String.leb a b = true.

(** The values with no nested structure: everything but arrays, objects and
    host values. *)
Definition isScalar (value : Value) : bool :=
  match value with
  | VArray _ => false
  | VObject _ => false
  | VHost _ => false
  | _ => true
  end.

(** The type text of a scalar. *)
Definition scalarType (value : Value) : string :=
  match value with
  | VNull => "null"
  | VFunction => "() => unknown"
  | _ => typeof value
  end.

(** One array wrapper around a list of element types, in each style, as the
    last array branch of [inferType] writes it. *)
Definition wrapPostfix (elementTypes : list string) : string :=
  match elementTypes with
  | [e] => e ++ "[]"
  | _ => "(" ++ join " | " elementTypes ++ ")[]"
  end.

Definition wrapGeneric (elementTypes : list string) : string :=
  "Array<" ++ join " | " elementTypes ++ ">".

(** Number of occurrences of a non-empty [token] in [t], scanning left to
    right without overlap. *)
Fixpoint countToken (fuel : nat) (token t : string) : nat :=
  match fuel with
  | O => 0
  | S n =>
      match t with
      | EmptyString => 0
      | String _ rest =>
          if String.prefix token t
          then S (countToken n token
                    (substring (String.length token)
                       (String.length t - String.length token) t))
          else countToken n token rest
      end
  end.

(** Number of array wrappers written in a type text, per style. *)
Definition arrayWrappers (style : TypeDetectiveArrayStyle) (t : string) : nat :=
  match style with
  | Postfix => countToken (String.length t) "[]" t
  | Generic => countToken (String.length t) "Array<" t
  end.

(** The two texts are both results, and carry the same number of array
    wrappers, each in its style. *)
Definition sameWrapperCount (postfixText genericText : option string) : Prop :=
  exists p g,
    postfixText = Some p /\ genericText = Some g
    /\ arrayWrappers Postfix p = arrayWrappers Generic g.

(** The values whose contributed type is a recursive merge: a non-empty array
    of non-array objects, or an object. *)
Definition mergedRecursively (value : Value) : bool :=
  match value with
  | VArray elems => (0 <? List.length elems) && forallb isPlainObject elems
  | _ => isObjectLike value
  end.

(** The kinds [inferType] recognizes: [null], or one of the eight results of
    [typeof]. *)
Definition recognizedKind (value : Value) : bool :=
  match value with
  | VNull => true
  | _ =>
      existsb (String.eqb (typeof value))
        ["undefined"; "boolean"; "number"; "string"; "symbol"; "bigint";
         "function"; "object"]
  end.

(** A number that is the natural number [k]. *)
Definition isNat (n : JsNumber) (k : nat) : Prop :=
  match n with
  | Fin q => Qeq q (inject_Z (Z.of_nat k))
  | _ => False
  end.

(** Lines of text, joined by a line feed. *)
Definition lines (l : list string) : string := join nl l.

(** ** Texts of scalar arrays *)

Definition oneLine (s : string) : Prop :=
  existsb isLineTerminator (list_ascii_of_string s) = false.

(** No bar in the text. *)
Definition barFree (s : string) : Prop :=
  existsb (Ascii.eqb "|"%char) (list_ascii_of_string s) = false.

(** The type names of scalars, and of the empty array's element. *)
Definition scalarNames : list string :=
  ["null"; "undefined"; "boolean"; "number"; "string"; "symbol"; "bigint";
   "() => unknown"; "unknown"].

(** The element types of an array of scalars. *)
Definition scalarElementTypes (elems : list Value) : list string :=
  match elems with
  | [] => ["unknown"]
  | _ => uniq (map scalarType elems)
  end.

(** One sub-array type in the postfix style, without its array suffix. *)
Definition unionBody (elementTypes : list string) : string :=
  match elementTypes with
  | [e] => e
  | _ => "(" ++ join " | " elementTypes ++ ")"
  end.

Definition namesList (l : list string) : Prop :=
  Forall (fun n => In n scalarNames) l /\ l <> [].

(** An array of scalars. *)
Definition isScalarArray (value : Value) : bool :=
  match value with
  | VArray elems => forallb isScalar elems
  | _ => false
  end.

(** The element types of the sub-arrays of an array of scalar arrays. *)
Definition nestedElementTypes (elems : list Value) : list string :=
  List.concat (map (fun sub => match sub with
                          | VArray xs => scalarElementTypes xs
                          | _ => []
                          end) elems).

(** An object whose property values are all scalars. *)
Definition isFlatObject (value : Value) : bool :=
  match value with
  | VObject props => forallb (fun p => isScalar (snd p)) props
  | _ => false
  end.

(* ================================================================== *)
(** * Sample inputs *)
(* ================================================================== *)

Definition num (z : Z) : Value := VNumber (Fin (inject_Z z)).

(** The default configuration has the postfix style; the same with the
    generic style. *)
Definition genericConfig : TypeDetectiveConfig :=
  setArrayStyle typeDetectiveConfig Generic.

(** [{ id: 1, name: "Alice", active: true }] *)
Definition sampleUser : Value :=
  VObject [("id", num 1); ("name", VString "Alice"); ("active", VBoolean true)].

(** [[{ id: 1, name: "Alice" }, { id: 2, email: "bob@x" }]] *)
Definition sampleUsers : list Value :=
  [VObject [("id", num 1); ("name", VString "Alice")];
   VObject [("id", num 2); ("email", VString "bob@x")]].

(** [[[1, 2], [3, 4]]] *)
Definition nestedNumbers : Value :=
  VArray [VArray [num 1; num 2]; VArray [num 3; num 4]].

(** [[[1, "a"], [true, 2]]] *)
Definition nestedMixed : Value :=
  VArray [VArray [num 1; VString "a"]; VArray [VBoolean true; num 2]].

(** [[[1], ["a"]]] *)
Definition nestedSingletons : Value :=
  VArray [VArray [num 1]; VArray [VString "a"]].

(** [[[{ a: 1 }]]] *)
Definition nestedObject : Value :=
  VArray [VArray [VObject [("a", num 1)]]].

(** [[{}]] *)
Definition emptyObjects : Value := VArray [VObject []].

(** [[{ id: 1, tag: "a" }, { id: "x" }]] *)
Definition sampleTagged : list Value :=
  [VObject [("id", num 1); ("tag", VString "a")];
   VObject [("id", VString "x")]].

(** [{ k: { b: 1, a: 2 } }] *)
Definition nestedKeys : Value :=
  VObject [("k", VObject [("b", num 1); ("a", num 2)])].
(* ================================================================== *)
(** * Classes of values used in further statements *)
(* ================================================================== *)

(** Keys in strictly ascending code-unit order. *)
Fixpoint ascending (keys : list string) : bool :=
  match keys with
  | a :: ((b :: _) as rest) => String.ltb a b && ascending rest
  | _ => true
  end.

(** A scalar, or an object whose keys are strictly ascending, none of them
    [__proto__], and whose property values are again of this class; no
    array. *)
Fixpoint keySorted (value : Value) : bool :=
  match value with
  | VArray _ => false
  | VHost _ => false
  | VObject props =>
      ascending (map fst props)
      && forallb (fun p => negb (String.eqb (fst p) "__proto__")
                           && keySorted (snd p)) props
  | _ => true
  end.

(** No array anywhere in the value. *)
Fixpoint arrayFree (value : Value) : bool :=
  match value with
  | VArray _ => false
  | VObject props => forallb (fun p => arrayFree (snd p)) props
  | _ => true
  end.

(** The strict code-unit order on strings. *)
Definition ltS (a b : string) : Prop := String.ltb a b = true.

(** The text with one more [unit] after each line feed. *)
Fixpoint shiftLines (unit t : string) : string :=
  match t with
  | EmptyString => EmptyString
  | String c rest =>
      if Ascii.eqb "010"%char c then String c (unit ++ shiftLines unit rest)
      else String c (shiftLines unit rest)
  end.

(** No array in the value, and no line feed in any key. *)
Fixpoint singleLineKeys (value : Value) : bool :=
  match value with
  | VArray _ => false
  | VHost _ => false
  | VObject props =>
      forallb (fun p => negb (includesNewline (fst p)) && singleLineKeys (snd p))
        props
  | _ => true
  end.

(* ================================================================== *)
(** * Vocabulary of the statements on the store *)
(* ================================================================== *)

(** A computation that leaves the store as it finds it, whether it returns
    or throws. *)
Definition keeps {A : Type} (m : Exec.M A) : Prop :=
  forall s, snd (m s) = s.

(** A computation that returns [a] from the store [s] and leaves [s]. *)
Definition runs {A : Type} (s : Exec.Store) (m : Exec.M A) (a : A) : Prop :=
  m s = (Exec.Returns a, s).

(** A computation on the store and a call of the functions on trees that
    end the same way: both return the same result, the store being left as
    it was, or the call on the tree has no result and the computation
    throws a RangeError. *)
Definition agree {A : Type} (s : Exec.Store) (m : Exec.M A) (o : option A)
  : Prop :=
  match o with
  | Some a => runs s m a
  | None => m s = (Exec.Throws RangeError, s)
  end.

(** For the call and the [depth] levels of calls nested in it, [repeat]
    gives the indentation of the nesting counts from [level] on. *)
Definition levelsMatch (unit : string) (indentLevel : JsNumber) (level : nat)
  (depth : nat) : Prop :=
  forall j, j <= depth ->
    Js.repeat unit (Exec.levelBelow indentLevel j)
    = Some (repeatStr unit (level + j)).

(** The values an array or an object holds. *)
Definition nested (value : Value) : list Value :=
  match value with
  | VArray elems => elems
  | VObject props => map snd props
  | _ => []
  end.

(** The value and every value nested in it. *)
Fixpoint parts (value : Value) : list Value :=
  value
    :: match value with
       | VArray elems => flat_map parts elems
       | VObject props => flat_map (fun p => parts (snd p)) props
       | _ => []
       end.

(** The texts of [value] and of its parts fit in a string, at the levels
    from [level] to [level + depth]: what [inferType] gives for the part,
    what [mergeObjectArrayTypes] gives for the part alone and, when the
    part is an array, for its elements. *)
Definition textsFit (cfg : TypeDetectiveConfig) (mode : TypeDetectiveMode)
  (depth : nat) (value : Value) (level : nat) : bool :=
  forallb
    (fun part =>
       forallb
         (fun j =>
            fits (textOf (inferType cfg part (level + j) mode))
            && fits (textOf (mergeObjectArrayTypes cfg [part] (level + j) mode))
            && match part with
               | VArray elems =>
                   fits (textOf (mergeObjectArrayTypes cfg elems (level + j)
                                   mode))
               | _ => true
               end)
         (seq 0 (S depth)))
    (parts value).

(** The stored value [v] denotes the tree [t] in the heap of [s], read to
    depth [n]. *)
Definition denotesIn (s : Exec.Store) (n : nat) (v : Exec.Stored) (t : Value)
  : Prop :=
  Exec.treeOf n (Exec.heap s) v = Some t.

(** The same for a property. *)
Definition denotesPropIn (s : Exec.Store) (n : nat) (p : string * Exec.Stored)
  (q : string * Value) : Prop :=
  fst p = fst q /\ Exec.treeOf n (Exec.heap s) (snd p) = Some (snd q).

(** [v] is no reference, and denotes the leaf [t]. *)
Definition leafCase (v : Exec.Stored) (t : Value) : Prop :=
  (forall a, v <> Exec.SRef a)
  /\ match v with
     | Exec.SNull => Some VNull
     | Exec.SUndefined => Some VUndefined
     | Exec.SBoolean b => Some (VBoolean b)
     | Exec.SNumber x => Some (VNumber x)
     | Exec.SString x => Some (VString x)
     | Exec.SSymbol d => Some (VSymbol d)
     | Exec.SBigInt z => Some (VBigInt z)
     | Exec.SFunction => Some VFunction
     | Exec.SHost tag => Some (VHost tag)
     | Exec.SRef _ => None
     end = Some t.

(** A store for the examples: the initial configuration, and the object
    [{ id: 1, tags: ["a", {}] }] at address 0. *)
Definition sampleStore : Exec.Store :=
  {| Exec.config := typeDetectiveConfig;
     Exec.heap :=
       [Exec.HObject [("id", Exec.SNumber (Fin (inject_Z 1)));
                      ("tags", Exec.SRef 1)];
        Exec.HArray [Exec.SString "a"; Exec.SRef 2];
        Exec.HObject []] |}.

(** The same object in another heap, at address 2. *)
Definition sampleStoreMoved : Exec.Store :=
  {| Exec.config := typeDetectiveConfig;
     Exec.heap :=
       [Exec.HObject [];
        Exec.HArray [Exec.SString "a"; Exec.SRef 0];
        Exec.HObject [("id", Exec.SNumber (Fin (inject_Z 1)));
                      ("tags", Exec.SRef 1)]] |}.

(** The tree of the object at address 0 of [sampleStore]. *)
Definition sampleTree : Value :=
  VObject [("id", VNumber (Fin (inject_Z 1)));
           ("tags", VArray [VString "a"; VObject []])].

(* ================================================================== *)
(** * Option-monad and list lemmas *)
(* ================================================================== *)

Section MonadLemmas.

Context {A B : Type}.

Lemma mapM_ext_in (f g : A -> option B) (l : list A) :
  (forall x, In x l -> f x = g x) -> mapM f l = mapM g l.
Proof.
  induction l as [|x r IH]; intros H; simpl; [reflexivity|].
  rewrite (H x (or_introl eq_refl)), IH; [reflexivity|].
  intros y Hy. apply H. now right.
Qed.

Lemma mapM_total (f : A -> option B) (l : list A) :
  (forall x, In x l -> exists y, f x = Some y) ->
  exists ys, mapM f l = Some ys.
Proof.
  induction l as [|x r IH]; intros H; simpl.
  - now exists [].
  - destruct (H x (or_introl eq_refl)) as [y Hy]. rewrite Hy. simpl.
    destruct IH as [ys Hys]; [intros z Hz; apply H; now right|].
    rewrite Hys. simpl. now exists (y :: ys).
Qed.

Lemma mapM_map (f : A -> option B) (g : A -> B) (l : list A) :
  (forall x, In x l -> f x = Some (g x)) -> mapM f l = Some (map g l).
Proof.
  induction l as [|x r IH]; intros H; simpl; [reflexivity|].
  rewrite (H x (or_introl eq_refl)). simpl.
  rewrite IH; [reflexivity|]. intros y Hy. apply H. now right.
Qed.

Lemma foldM_ext_in (f g : B -> A -> option B) (l : list A) (b : B) :
  (forall acc x, In x l -> f acc x = g acc x) -> foldM f l b = foldM g l b.
Proof.
  revert b. induction l as [|x r IH]; intros b H; simpl; [reflexivity|].
  rewrite (H b x (or_introl eq_refl)). destruct (g b x); simpl; [|reflexivity].
  apply IH. intros acc y Hy. apply H. now right.
Qed.

Lemma foldM_total (f : B -> A -> option B) (l : list A) (b : B) :
  (forall acc x, In x l -> exists b', f acc x = Some b') ->
  exists b', foldM f l b = Some b'.
Proof.
  revert b. induction l as [|x r IH]; intros b H; simpl.
  - now exists b.
  - destruct (H b x (or_introl eq_refl)) as [b' Hb']. rewrite Hb'. simpl.
    apply IH. intros acc y Hy. apply H. now right.
Qed.

End MonadLemmas.

(* ================================================================== *)
(** * Nesting depth *)
(* ================================================================== *)

Lemma heightAll_in (arr : list Value) (x : Value) :
  In x arr -> height x <= heightAll arr.
Proof.
  induction arr as [|y r IH]; simpl; [tauto|].
  intros [->|H]; [lia|]. specialize (IH H). lia.
Qed.

Lemma height_VArray (elems : list Value) :
  height (VArray elems) = S (heightAll elems).
Proof. reflexivity. Qed.

Lemma height_prop_in (props : list (string * Value)) (p : string * Value) :
  In p props -> height (snd p) < height (VObject props).
Proof.
  simpl. induction props as [|q r IH]; simpl; [tauto|].
  intros [->|H]; [lia|]. specialize (IH H). lia.
Qed.

Lemma heightAll_singleton (x : Value) : heightAll [x] = height x.
Proof. simpl. lia. Qed.

Lemma find_some_in {A : Type} (f : A -> bool) (l : list A) (a : A) :
  find f l = Some a -> In a l.
Proof. intros H. now apply find_some in H. Qed.

Lemma height_getProp (obj : Value) (key : string) :
  hasOwn obj key = true -> height (getProp obj key) < height obj.
Proof.
  unfold hasOwn, getProp. intros H.
  destruct obj; simpl in *; try discriminate.
  destruct (find (fun p => String.eqb (fst p) key) props) as [p|] eqn:E.
  - apply find_some_in in E. now apply (height_prop_in props p).
  - apply existsb_exists in H. destruct H as [p [Hin Hp]].
    now rewrite (find_none _ _ E p Hin) in Hp.
Qed.
(* ================================================================== *)
(** * The bodies only look at the recursive calls on nested values *)
(* ================================================================== *)

Section BodyExt.

Variable cfg : TypeDetectiveConfig.
Variables r1 r2 : Value -> nat -> TypeDetectiveMode -> option string.
Variables m1 m2 : list Value -> nat -> TypeDetectiveMode -> option string.

Lemma inferArrayOfArrays_ext (elems : list Value) lvl md :
  (forall x l d, In x elems -> r1 x l d = r2 x l d) ->
  inferArrayOfArrays cfg r1 elems lvl md = inferArrayOfArrays cfg r2 elems lvl md.
Proof.
  intros H. unfold inferArrayOfArrays.
  rewrite (mapM_ext_in _ (fun subArr => r2 subArr (lvl + 1) md)); [reflexivity|].
  intros x Hx. now apply H.
Qed.

Lemma inferArrayOfObjects_ext (elems : list Value) lvl md :
  (forall x l d, In x elems -> r1 x l d = r2 x l d) ->
  (forall l d, m1 elems l d = m2 elems l d) ->
  inferArrayOfObjects cfg r1 m1 elems lvl md
  = inferArrayOfObjects cfg r2 m2 elems lvl md.
Proof.
  intros H Hm. unfold inferArrayOfObjects. destruct md.
  - now rewrite Hm.
  - rewrite (mapM_ext_in _ (fun obj => r2 obj (lvl + 1) Union)); [reflexivity|].
    intros x Hx. now apply H.
Qed.

Lemma inferMixedArray_ext (elems : list Value) lvl md :
  (forall x l d, In x elems -> r1 x l d = r2 x l d) ->
  (forall x l d, In x elems -> m1 [x] l d = m2 [x] l d) ->
  inferMixedArray cfg r1 m1 elems lvl md = inferMixedArray cfg r2 m2 elems lvl md.
Proof.
  intros H Hm. unfold inferMixedArray.
  match goal with
  | |- bind (mapM ?f _) _ = bind (mapM ?g _) _ =>
      rewrite (mapM_ext_in f g); [reflexivity|]
  end.
  intros x Hx. cbv beta.
  destruct (isArray x); [now apply H|].
  destruct (isObjectLike x); [|now apply H].
  destruct md; [now apply Hm|now apply H].
Qed.

Lemma inferObject_ext (value : Value) lvl md :
  (forall p l d, In p (ownProps value) -> r1 (snd p) l d = r2 (snd p) l d) ->
  inferObject cfg r1 value lvl md = inferObject cfg r2 value lvl md.
Proof.
  intros H. unfold inferObject.
  match goal with
  | |- bind (foldM ?f _ _) _ = bind (foldM ?g _ _) _ =>
      rewrite (foldM_ext_in f g); [reflexivity|]
  end.
  intros acc p Hp. cbv beta. now rewrite H.
Qed.

Lemma inferType_body_ext (value : Value) lvl md :
  (forall x l d, height x < height value -> r1 x l d = r2 x l d) ->
  (forall a l d, heightAll a < height value -> m1 a l d = m2 a l d) ->
  inferType_body cfg r1 m1 value lvl md = inferType_body cfg r2 m2 value lvl md.
Proof.
  intros Hr Hm.
  assert (Hobj : inferObject cfg r1 value lvl md = inferObject cfg r2 value lvl md).
  { apply inferObject_ext. intros p l d Hp. apply Hr.
    destruct value; simpl in Hp; try contradiction.
    now apply height_prop_in. }
  destruct value; simpl; try reflexivity.
  - (* VArray *)
    assert (Hin : forall x, In x elems -> height x < height (VArray elems)).
    { intros x Hx. rewrite height_VArray. apply heightAll_in in Hx. lia. }
    destruct (List.length elems =? 0); [reflexivity|].
    destruct (forallb isArray elems).
    { apply inferArrayOfArrays_ext. intros; apply Hr; auto. }
    destruct (forallb isPlainObject elems).
    { apply inferArrayOfObjects_ext.
      - intros; apply Hr; auto.
      - intros; apply Hm. rewrite height_VArray. lia. }
    apply inferMixedArray_ext.
    + intros; apply Hr; auto.
    + intros x l d Hx. apply Hm. rewrite heightAll_singleton. auto.
  - (* VObject *) exact Hobj.
Qed.

Lemma contributedType_body_ext (value : Value) lvl md :
  (forall x l d, height x <= height value -> r1 x l d = r2 x l d) ->
  (forall a l d, heightAll a <= height value -> m1 a l d = m2 a l d) ->
  contributedType_body r1 m1 value lvl md = contributedType_body r2 m2 value lvl md.
Proof.
  intros Hr Hm. unfold contributedType_body.
  assert (Hv : r1 value (lvl + 1) md = r2 value (lvl + 1) md) by (apply Hr; lia).
  assert (Hs : m1 [value] (lvl + 1) md = m2 [value] (lvl + 1) md).
  { apply Hm. rewrite heightAll_singleton. lia. }
  destruct value; try (destruct (isObjectLike _); assumption).
  destruct ((0 <? List.length elems) && forallb isPlainObject elems); [|assumption].
  rewrite Hm; [reflexivity|]. rewrite height_VArray. lia.
Qed.

Lemma collectKey_ext (arr : list Value) lvl md key :
  (forall x l d, height x < heightAll arr -> r1 x l d = r2 x l d) ->
  (forall a l d, heightAll a < heightAll arr -> m1 a l d = m2 a l d) ->
  collectKey r1 m1 arr lvl md key = collectKey r2 m2 arr lvl md key.
Proof.
  intros Hr Hm. unfold collectKey. apply foldM_ext_in.
  intros acc obj Hobj.
  destruct (isPlainObject obj && hasOwn obj key) eqn:E; [|reflexivity].
  apply andb_true_iff in E. destruct E as [_ Hown].
  pose proof (height_getProp obj key Hown) as Hlt.
  pose proof (heightAll_in arr obj Hobj) as Hle.
  rewrite (contributedType_body_ext (getProp obj key) lvl md); [reflexivity| |].
  - intros; apply Hr; lia.
  - intros; apply Hm; lia.
Qed.

Lemma mergeObjectArrayTypes_body_ext (arr : list Value) lvl md :
  (forall x l d, height x < heightAll arr -> r1 x l d = r2 x l d) ->
  (forall a l d, heightAll a < heightAll arr -> m1 a l d = m2 a l d) ->
  mergeObjectArrayTypes_body cfg r1 m1 arr lvl md
  = mergeObjectArrayTypes_body cfg r2 m2 arr lvl md.
Proof.
  intros Hr Hm. unfold mergeObjectArrayTypes_body.
  destruct (List.length arr =? 0); [reflexivity|].
  match goal with
  | |- bind (mapM ?f _) _ = bind (mapM ?g _) _ =>
      rewrite (mapM_ext_in f g); [reflexivity|]
  end.
  intros key _. cbv beta. now rewrite (collectKey_ext arr lvl md key).
Qed.

End BodyExt.

(* ================================================================== *)
(** * The step budget does not matter once it covers the nesting *)
(* ================================================================== *)

Lemma fuel_irrelevant (cfg : TypeDetectiveConfig) (n : nat) :
  (forall m value lvl md,
      height value < n -> height value < m ->
      inferType_fuel n cfg value lvl md = inferType_fuel m cfg value lvl md)
  /\ (forall m arr lvl md,
         heightAll arr < n -> heightAll arr < m ->
         mergeObjectArrayTypes_fuel n cfg arr lvl md
         = mergeObjectArrayTypes_fuel m cfg arr lvl md).
Proof.
  induction n as [|n [IHi IHm]]; [split; intros; lia|].
  split; intros [|m] x lvl md Hn Hm; try lia; simpl.
  - apply inferType_body_ext.
    + intros y l d Hy. apply IHi; lia.
    + intros a l d Ha. apply IHm; lia.
  - apply mergeObjectArrayTypes_body_ext.
    + intros y l d Hy. apply IHi; lia.
    + intros a l d Ha. apply IHm; lia.
Qed.

Lemma inferType_fuel_enough cfg n value lvl md :
  fuelFor value <= n ->
  inferType_fuel n cfg value lvl md = inferType cfg value lvl md.
Proof.
  intros H. unfold inferType. apply (fuel_irrelevant cfg n); unfold fuelFor in *; lia.
Qed.

Lemma mergeObjectArrayTypes_fuel_enough cfg n arr lvl md :
  fuelForAll arr <= n ->
  mergeObjectArrayTypes_fuel n cfg arr lvl md
  = mergeObjectArrayTypes cfg arr lvl md.
Proof.
  intros H. unfold mergeObjectArrayTypes.
  apply (fuel_irrelevant cfg n); unfold fuelForAll in *; lia.
Qed.

(** The top-level functions satisfy the recursive equations of the source. *)
Lemma inferType_unfold cfg value lvl md :
  inferType cfg value lvl md
  = inferType_body cfg (inferType cfg) (mergeObjectArrayTypes cfg) value lvl md.
Proof.
  unfold inferType at 1. unfold fuelFor. simpl.
  apply inferType_body_ext.
  - intros x l d Hx. apply inferType_fuel_enough. unfold fuelFor. lia.
  - intros a l d Ha. apply mergeObjectArrayTypes_fuel_enough.
    unfold fuelForAll. lia.
Qed.

Lemma mergeObjectArrayTypes_unfold cfg arr lvl md :
  mergeObjectArrayTypes cfg arr lvl md
  = mergeObjectArrayTypes_body cfg (inferType cfg) (mergeObjectArrayTypes cfg)
      arr lvl md.
Proof.
  unfold mergeObjectArrayTypes at 1. unfold fuelForAll. simpl.
  apply mergeObjectArrayTypes_body_ext.
  - intros x l d Hx. apply inferType_fuel_enough. unfold fuelFor. lia.
  - intros a l d Ha. apply mergeObjectArrayTypes_fuel_enough.
    unfold fuelForAll. lia.
Qed.
(* ================================================================== *)
(** * Strings, sets and sorting *)
(* ================================================================== *)

Lemma str_app_assoc (a b c : string) : (a ++ b) ++ c = a ++ (b ++ c).
Proof. induction a as [|x a IH]; simpl; [reflexivity|now rewrite IH]. Qed.

Lemma str_app_empty_r (a : string) : a ++ "" = a.
Proof. induction a as [|x a IH]; simpl; [reflexivity|now rewrite IH]. Qed.

Lemma mem_In (x : string) (l : list string) : mem x l = true <-> In x l.
Proof.
  unfold mem. rewrite existsb_exists. split.
  - intros [y [Hy E]]. apply String.eqb_eq in E. now subst.
  - intros H. exists x. split; [assumption|apply String.eqb_refl].
Qed.

Lemma setAdd_fold_spec (l acc : list string) :
  NoDup acc ->
  NoDup (fold_left setAdd l acc)
  /\ (forall x, In x (fold_left setAdd l acc) <-> In x acc \/ In x l).
Proof.
  revert acc. induction l as [|y r IH]; intros acc Hnd; simpl.
  - split; [assumption|]. intros x. tauto.
  - assert (Hnd' : NoDup (setAdd acc y)).
    { unfold setAdd. destruct (mem y acc) eqn:E; [assumption|].
      apply NoDup_app; [assumption|repeat constructor; simpl; tauto|].
      intros z Hz [<-|[]]. apply mem_In in Hz. congruence. }
    destruct (IH _ Hnd') as [H1 H2]. split; [assumption|].
    intros x. rewrite H2. unfold setAdd.
    destruct (mem y acc) eqn:E.
    + apply mem_In in E. split; [intros [?|?]; auto|].
      intros [?|[<-|?]]; auto.
    + rewrite in_app_iff. simpl. tauto.
Qed.

Lemma uniq_NoDup (l : list string) : NoDup (uniq l).
Proof. apply (setAdd_fold_spec l []). constructor. Qed.

Lemma uniq_In (l : list string) (x : string) : In x (uniq l) <-> In x l.
Proof.
  unfold uniq. destruct (setAdd_fold_spec l [] (NoDup_nil _)) as [_ H].
  rewrite H. simpl. tauto.
Qed.

Lemma uniq_Permutation (l1 l2 : list string) :
  Permutation l1 l2 -> Permutation (uniq l1) (uniq l2).
Proof.
  intros H. apply NoDup_Permutation; try apply uniq_NoDup.
  intros x. rewrite !uniq_In. split; apply Permutation_in; [|symmetry]; exact H.
Qed.

(** The code-unit order is a total order. *)

Lemma ascii_compare_refl (a : ascii) : Ascii.compare a a = Eq.
Proof. unfold Ascii.compare. apply N.compare_refl. Qed.

Lemma string_compare_lt_trans (a b c : string) :
  String.compare a b = Lt -> String.compare b c = Lt -> String.compare a c = Lt.
Proof.
  revert b c. induction a as [|x a IH]; intros [|y b] [|z c]; simpl;
    try congruence.
  unfold Ascii.compare.
  destruct (N.compare (N_of_ascii x) (N_of_ascii y)) eqn:E1; try discriminate;
    destruct (N.compare (N_of_ascii y) (N_of_ascii z)) eqn:E2; try discriminate;
    intros H1 H2.
  - apply N.compare_eq_iff in E1, E2. rewrite E1, E2, N.compare_refl.
    now apply (IH b c).
  - apply N.compare_eq_iff in E1. now rewrite E1, E2.
  - apply N.compare_eq_iff in E2. now rewrite <- E2, E1.
  - apply N.compare_lt_iff in E1. apply N.compare_lt_iff in E2.
    pose proof (N.lt_trans _ _ _ E1 E2) as L.
    apply N.compare_lt_iff in L. now rewrite L.
Qed.

Lemma string_compare_refl (a : string) : String.compare a a = Eq.
Proof.
  induction a as [|x a IH]; simpl; [reflexivity|].
  now rewrite ascii_compare_refl.
Qed.

Lemma string_leb_trans (a b c : string) :
  String.leb a b = true -> String.leb b c = true -> String.leb a c = true.
Proof.
  unfold String.leb. intros H1 H2.
  destruct (String.compare a b) eqn:E1; try discriminate;
    destruct (String.compare b c) eqn:E2; try discriminate.
  - apply String.compare_eq_iff in E1, E2. subst.
    now rewrite string_compare_refl.
  - apply String.compare_eq_iff in E1. subst. now rewrite E2.
  - apply String.compare_eq_iff in E2. subst. now rewrite E1.
  - now rewrite (string_compare_lt_trans a b c).
Qed.

Lemma insertSorted_Permutation (x : string) (l : list string) :
  Permutation (insertSorted x l) (x :: l).
Proof.
  induction l as [|y r IH]; simpl; [reflexivity|].
  destruct (String.leb x y); [reflexivity|].
  rewrite IH. apply perm_swap.
Qed.

Lemma sort_Permutation (l : list string) : Permutation (Js.sort l) l.
Proof.
  induction l as [|x r IH]; simpl; [reflexivity|].
  rewrite insertSorted_Permutation. now constructor.
Qed.

Lemma sort_In (l : list string) (x : string) : In x (Js.sort l) <-> In x l.
Proof.
  split; apply Permutation_in; [|symmetry]; apply sort_Permutation.
Qed.

Lemma sort_length (l : list string) : List.length (Js.sort l) = List.length l.
Proof. apply Permutation_length, sort_Permutation. Qed.

Lemma insertSorted_sorted (x : string) (l : list string) :
  StronglySorted leS l -> StronglySorted leS (insertSorted x l).
Proof.
  induction l as [|y r IH]; intros H; simpl.
  - repeat constructor.
  - apply StronglySorted_inv in H. destruct H as [Hr Hy].
    destruct (String.leb x y) eqn:E.
    + constructor; [now constructor|]. constructor; [exact E|].
      eapply Forall_impl; [|exact Hy]. intros z Hz.
      now apply (string_leb_trans x y z).
    + constructor; [now apply IH|].
      eapply Permutation_Forall.
      * symmetry. apply insertSorted_Permutation.
      * constructor; [|assumption].
        destruct (String.leb_total x y) as [H|H]; [congruence|exact H].
Qed.

Lemma sort_sorted (l : list string) : StronglySorted leS (Js.sort l).
Proof.
  induction l as [|x r IH]; simpl; [constructor|now apply insertSorted_sorted].
Qed.

Lemma sorted_Permutation_eq (l1 l2 : list string) :
  StronglySorted leS l1 -> StronglySorted leS l2 -> Permutation l1 l2 ->
  l1 = l2.
Proof.
  revert l2. induction l1 as [|x r IH]; intros l2 H1 H2 HP.
  - apply Permutation_nil in HP. now subst.
  - destruct l2 as [|y s]; [now apply Permutation_sym, Permutation_nil in HP|].
    apply StronglySorted_inv in H1, H2.
    destruct H1 as [Hr Hx], H2 as [Hs Hy].
    assert (E : x = y).
    { assert (Ix : In x (y :: s)) by (apply (Permutation_in _ HP); now left).
      assert (Iy : In y (x :: r))
        by (apply (Permutation_in _ (Permutation_sym HP)); now left).
      destruct Ix as [->|Ix]; [reflexivity|].
      destruct Iy as [->|Iy]; [reflexivity|].
      rewrite Forall_forall in Hx, Hy.
      apply String.leb_antisym; [now apply Hx|now apply Hy]. }
    subst y. f_equal. apply IH; try assumption.
    now apply Permutation_cons_inv in HP.
Qed.

Lemma sort_Permutation_eq (l1 l2 : list string) :
  Permutation l1 l2 -> Js.sort l1 = Js.sort l2.
Proof.
  intros H. apply sorted_Permutation_eq; try apply sort_sorted.
  rewrite !sort_Permutation. exact H.
Qed.

(** [mergeTypes] is the sorted, deduplicated union joined with a bar. *)
Lemma mergeTypes_join (tys : list string) :
  mergeTypes tys = join " | " (Js.sort (uniq tys)).
Proof.
  unfold mergeTypes. destruct (Js.sort (uniq tys)) as [|u [|v r]]; reflexivity.
Qed.

Lemma mergeTypes_Permutation (l1 l2 : list string) :
  Permutation l1 l2 -> mergeTypes l1 = mergeTypes l2.
Proof.
  intros H. rewrite !mergeTypes_join.
  now rewrite (sort_Permutation_eq _ _ (uniq_Permutation _ _ H)).
Qed.
(* ================================================================== *)
(** * What one step computes, given the recursive calls *)
(* ================================================================== *)

Lemma textOf_Some (o : option string) :
  (exists s, o = Some s) -> o = Some (textOf o).
Proof. intros [s ->]. reflexivity. Qed.

Lemma fold_left_lines {A : Type} (line : A -> string) (l : list A)
  (init : string) :
  fold_left (fun output x => output ++ line x) l init
  = init ++ String.concat "" (map line l).
Proof.
  revert init. induction l as [|x r IH]; intros init; simpl.
  - now rewrite str_app_empty_r.
  - rewrite IH, str_app_assoc. f_equal.
    destruct r; simpl; [now rewrite str_app_empty_r|reflexivity].
Qed.

Lemma foldM_lines {A B : Type} (get : A -> option B) (val : A -> B)
  (line : A -> B -> string) (l : list A) (init : string) :
  (forall x, In x l -> get x = Some (val x)) ->
  foldM (fun output x => b <- get x ;; Some (output ++ line x b)) l init
  = Some (init ++ String.concat "" (map (fun x => line x (val x)) l)).
Proof.
  revert init. induction l as [|x r IH]; intros init H; simpl.
  - now rewrite str_app_empty_r.
  - rewrite (H x (or_introl eq_refl)). simpl.
    rewrite IH by (intros y Hy; apply H; now right).
    rewrite str_app_assoc. do 2 f_equal.
    destruct r; simpl; [now rewrite str_app_empty_r|reflexivity].
Qed.

Lemma recordGet_map {A : Type} (f : string -> A) (keys : list string)
  (key : string) :
  In key keys -> recordGet (map (fun k => (k, f k)) keys) key = Some (f key).
Proof.
  unfold recordGet. induction keys as [|k r IH]; simpl; [tauto|].
  intros H. destruct (String.eqb k key) eqn:E.
  - apply String.eqb_eq in E. now subst.
  - destruct H as [->|H]; [now rewrite String.eqb_refl in E|now apply IH].
Qed.

Lemma mergedText_map {A : Type} cfg lvl (F : A -> string * bool * string)
  (x : A) (xs : list A) :
  mergedText cfg lvl (map F (x :: xs))
  = "{" ++ nl
      ++ String.concat ""
           (map (fun y =>
                   fieldLine (repeatStr (_computedIndent cfg) (lvl + 1))
                     (fst (fst (F y))) (snd (fst (F y))) (snd (F y)))
              (x :: xs))
      ++ repeatStr (_computedIndent cfg) lvl ++ "}".
Proof. unfold mergedText. rewrite map_map. reflexivity. Qed.

Section Steps.

Variable cfg : TypeDetectiveConfig.
Variable r : Value -> nat -> TypeDetectiveMode -> option string.
Variable m : list Value -> nat -> TypeDetectiveMode -> option string.

Lemma collectKey_acc (arr : list Value) lvl md key (acc : FieldAcc) :
  (forall obj, In obj (presentIn key arr) ->
     exists s, contributedType_body r m (getProp obj key) lvl md = Some s) ->
  foldM
    (fun acc obj =>
       if isPlainObject obj && hasOwn obj key then
         t <- contributedType_body r m (getProp obj key) lvl md ;;
         Some {| types := (types acc ++ [t])%list;
                 presentCount := S (presentCount acc) |}
       else Some acc)
    arr acc
  = Some {| types :=
              (types acc
               ++ map (fun obj =>
                         textOf (contributedType_body r m (getProp obj key) lvl md))
                    (presentIn key arr))%list;
            presentCount := presentCount acc + List.length (presentIn key arr) |}.
Proof.
  revert acc. unfold presentIn.
  induction arr as [|obj rest IH]; intros acc H; simpl.
  - rewrite app_nil_r, Nat.add_0_r. now destruct acc.
  - simpl in H. destruct (isPlainObject obj && hasOwn obj key) eqn:E.
    + destruct (H obj (or_introl eq_refl)) as [s Hs]. rewrite Hs. simpl.
      rewrite IH by (intros o Ho; apply H; now right). simpl.
      rewrite <- app_assoc. simpl. rewrite Hs. simpl.
      do 2 f_equal. lia.
    + now apply IH.
Qed.

Lemma collectKey_spec (arr : list Value) lvl md key :
  (forall obj, In obj (presentIn key arr) ->
     exists s, contributedType_body r m (getProp obj key) lvl md = Some s) ->
  collectKey r m arr lvl md key
  = Some {| types :=
              map (fun obj =>
                     textOf (contributedType_body r m (getProp obj key) lvl md))
                (presentIn key arr);
            presentCount := List.length (presentIn key arr) |}.
Proof.
  intros H. unfold collectKey. now rewrite collectKey_acc.
Qed.

Lemma mergeObjectArrayTypes_body_spec (arr : list Value) lvl md
  (accOf : string -> FieldAcc) :
  arr <> [] ->
  (forall key, In key (collectAllKeys arr) ->
     collectKey r m arr lvl md key = Some (accOf key)) ->
  mergeObjectArrayTypes_body cfg r m arr lvl md
  = Some (mergedText cfg lvl
            (map (fun key =>
                    (key, presentCount (accOf key) <? List.length arr,
                      mergeTypes (types (accOf key))))
               (Js.sort (collectAllKeys arr)))).
Proof.
  intros Hne H. unfold mergeObjectArrayTypes_body.
  replace (List.length arr =? 0) with false
    by (destruct arr; [congruence|reflexivity]).
  rewrite (mapM_map _ (fun key => (key, accOf key)))
    by (intros key Hk; cbv beta; now rewrite H).
  simpl bind.
  destruct (Js.sort (collectAllKeys arr)) as [|k ks] eqn:Es; [reflexivity|].
  change (List.length (k :: ks) =? 0) with false. cbv iota.
  rewrite (foldM_lines _ accOf
             (fun key acc =>
                fieldLine (repeatStr (_computedIndent cfg) (lvl + 1)) key
                  (presentCount acc <? List.length arr) (mergeTypes (types acc)))).
  - cbn [bind]. rewrite mergedText_map. now rewrite !str_app_assoc.
  - intros key Hk. apply recordGet_map.
    apply (sort_In (collectAllKeys arr)). now rewrite Es.
Qed.

End Steps.
(* ================================================================== *)
(** * Every call returns *)
(* ================================================================== *)

Ltac split_cases :=
  repeat match goal with
         | |- context [if ?b then _ else _] => destruct b
         | |- context [match ?x with _ => _ end] => destruct x
         end.

Section StepsReturn.

Variable cfg : TypeDetectiveConfig.
Variable r : Value -> nat -> TypeDetectiveMode -> option string.
Variable m : list Value -> nat -> TypeDetectiveMode -> option string.

Lemma inferArrayOfArrays_returns (elems : list Value) lvl md :
  (forall x l d, In x elems -> exists s, r x l d = Some s) ->
  exists s, inferArrayOfArrays cfg r elems lvl md = Some s.
Proof.
  intros H. unfold inferArrayOfArrays.
  destruct (mapM_total (fun subArr => r subArr (lvl + 1) md) elems) as [ys ->];
    [intros; now apply H|].
  cbn [bind]. destruct md; split_cases; eauto.
Qed.

Lemma inferArrayOfObjects_returns (elems : list Value) lvl md :
  (forall x l d, In x elems -> exists s, r x l d = Some s) ->
  (forall l d, exists s, m elems l d = Some s) ->
  exists s, inferArrayOfObjects cfg r m elems lvl md = Some s.
Proof.
  intros H Hm. unfold inferArrayOfObjects. destruct md.
  - destruct (Hm lvl Merge) as [s ->]. cbn [bind]. split_cases; eauto.
  - destruct (mapM_total (fun obj => r obj (lvl + 1) Union) elems) as [ys ->];
      [intros; now apply H|].
    cbn [bind]. split_cases; eauto.
Qed.

Lemma inferMixedArray_returns (elems : list Value) lvl md :
  (forall x l d, In x elems -> exists s, r x l d = Some s) ->
  (forall x l d, In x elems -> exists s, m [x] l d = Some s) ->
  exists s, inferMixedArray cfg r m elems lvl md = Some s.
Proof.
  intros H Hm. unfold inferMixedArray.
  match goal with
  | |- exists _, bind (mapM ?f _) _ = _ =>
      destruct (mapM_total f elems) as [ys ->]
  end.
  - intros x Hx. cbv beta. split_cases; auto.
  - cbn [bind]. split_cases; eauto.
Qed.

Lemma inferObject_returns (value : Value) lvl md :
  (forall p l d, In p (ownProps value) -> exists s, r (snd p) l d = Some s) ->
  exists s, inferObject cfg r value lvl md = Some s.
Proof.
  intros H. unfold inferObject.
  match goal with
  | |- exists _, bind (foldM ?f _ _) _ = _ =>
      destruct (foldM_total f (ownProps value) []) as [ps ->]
  end.
  - intros acc p Hp. cbv beta.
    destruct (H p (lvl + 1) md Hp) as [s ->]. cbn [bind]. eauto.
  - cbn [bind]. split_cases; eauto.
Qed.

Lemma inferType_body_returns (value : Value) lvl md :
  (forall x l d, height x < height value -> exists s, r x l d = Some s) ->
  (forall a l d, heightAll a < height value -> exists s, m a l d = Some s) ->
  exists s, inferType_body cfg r m value lvl md = Some s.
Proof.
  intros Hr Hm.
  assert (Hobj : exists s, inferObject cfg r value lvl md = Some s).
  { apply inferObject_returns. intros p l d Hp. apply Hr.
    destruct value; simpl in Hp; try contradiction.
    now apply height_prop_in. }
  destruct value; try (simpl; eauto; fail).
  - (* VArray *)
    assert (Hin : forall x, In x elems -> height x < height (VArray elems)).
    { intros x Hx. rewrite height_VArray. apply heightAll_in in Hx. lia. }
    simpl. destruct (List.length elems =? 0); [eauto|].
    destruct (forallb isArray elems).
    { apply inferArrayOfArrays_returns. intros; apply Hr; auto. }
    destruct (forallb isPlainObject elems).
    { apply inferArrayOfObjects_returns.
      - intros; apply Hr; auto.
      - intros; apply Hm. rewrite height_VArray. lia. }
    apply inferMixedArray_returns.
    + intros; apply Hr; auto.
    + intros x l d Hx. apply Hm. rewrite heightAll_singleton. auto.
  - (* VHost *)
    unfold inferType_body. cbn [typeof]. split_cases; eauto.
Qed.

Lemma contributedType_body_returns (value : Value) lvl md :
  (forall x l d, height x <= height value -> exists s, r x l d = Some s) ->
  (forall a l d, heightAll a <= height value -> exists s, m a l d = Some s) ->
  exists s, contributedType_body r m value lvl md = Some s.
Proof.
  intros Hr Hm. unfold contributedType_body.
  assert (Hv : exists s, r value (lvl + 1) md = Some s) by (apply Hr; lia).
  assert (Hs : exists s, m [value] (lvl + 1) md = Some s).
  { apply Hm. rewrite heightAll_singleton. lia. }
  destruct value; try (destruct (isObjectLike _); assumption).
  destruct ((0 <? List.length elems) && forallb isPlainObject elems); [|assumption].
  destruct (Hm elems (lvl + 1) md) as [s ->]; [rewrite height_VArray; lia|].
  cbn [bind]. eauto.
Qed.

Lemma mergeObjectArrayTypes_body_returns (arr : list Value) lvl md :
  (forall x l d, height x < heightAll arr -> exists s, r x l d = Some s) ->
  (forall a l d, heightAll a < heightAll arr -> exists s, m a l d = Some s) ->
  exists s, mergeObjectArrayTypes_body cfg r m arr lvl md = Some s.
Proof.
  intros Hr Hm.
  destruct arr as [|o rest]; [now eexists|].
  assert (Hne : o :: rest <> []) by discriminate.
  revert Hr Hm Hne. generalize (o :: rest). clear o rest.
  intros arr Hr Hm Hne.
  rewrite (mergeObjectArrayTypes_body_spec cfg r m arr lvl md
             (fun key =>
                {| types :=
                     map (fun obj =>
                            textOf (contributedType_body r m (getProp obj key)
                                      lvl md))
                       (presentIn key arr);
                   presentCount := List.length (presentIn key arr) |})).
  { eauto. }
  { exact Hne. }
  intros key _. apply collectKey_spec.
  intros obj Hobj. apply filter_In in Hobj. destruct Hobj as [Hin Hp].
  apply andb_true_iff in Hp. destruct Hp as [_ Hown].
  pose proof (height_getProp obj key Hown).
  pose proof (heightAll_in arr obj Hin).
  apply contributedType_body_returns.
  - intros; apply Hr; lia.
  - intros; apply Hm; lia.
Qed.

End StepsReturn.

Lemma calls_return (cfg : TypeDetectiveConfig) (n : nat) :
  (forall value lvl md,
      height value < n -> exists s, inferType cfg value lvl md = Some s)
  /\ (forall arr lvl md,
         heightAll arr < n ->
         exists s, mergeObjectArrayTypes cfg arr lvl md = Some s).
Proof.
  induction n as [|n [IHi IHm]]; [split; intros; lia|].
  split; intros x lvl md Hn.
  - rewrite inferType_unfold. apply inferType_body_returns.
    + intros; apply IHi; lia.
    + intros; apply IHm; lia.
  - rewrite mergeObjectArrayTypes_unfold.
    apply mergeObjectArrayTypes_body_returns.
    + intros; apply IHi; lia.
    + intros; apply IHm; lia.
Qed.

Lemma inferType_returns cfg value lvl md :
  exists s, inferType cfg value lvl md = Some s.
Proof. apply (calls_return cfg (S (height value))). lia. Qed.

Lemma mergeObjectArrayTypes_returns cfg arr lvl md :
  exists s, mergeObjectArrayTypes cfg arr lvl md = Some s.
Proof. apply (calls_return cfg (S (heightAll arr))). lia. Qed.

Lemma contributedType_returns cfg value lvl md :
  exists s, contributedType cfg value lvl md = Some s.
Proof.
  apply contributedType_body_returns; intros.
  - apply inferType_returns.
  - apply mergeObjectArrayTypes_returns.
Qed.
(* ================================================================== *)
(** * mergeObjectArrayTypes: the merged object type *)
(* ================================================================== *)

(** The result of [mergeObjectArrayTypes] on a non-empty list: one field per
    key, in sorted order; the field is optional when fewer objects have the
    key than there are elements, and its type is [mergeTypes] of the
    contributed types. *)
Lemma mergeObjectArrayTypes_spec cfg (arr : list Value) lvl md :
  arr <> [] ->
  mergeObjectArrayTypes cfg arr lvl md
  = Some (mergedText cfg lvl
            (map (fun key =>
                    (key,
                     List.length (presentIn key arr) <? List.length arr,
                     mergeTypes (contributedTypes cfg arr lvl md key)))
               (Js.sort (collectAllKeys arr)))).
Proof.
  intros Hne. rewrite mergeObjectArrayTypes_unfold.
  apply (mergeObjectArrayTypes_body_spec cfg _ _ arr lvl md
           (fun key =>
              {| types := contributedTypes cfg arr lvl md key;
                 presentCount := List.length (presentIn key arr) |}) Hne).
  intros key _. apply collectKey_spec.
  intros obj _. apply contributedType_returns.
Qed.

Lemma hasOwn_objectKeys (obj : Value) (key : string) :
  hasOwn obj key = true <-> In key (objectKeys obj).
Proof.
  unfold hasOwn, objectKeys. rewrite existsb_exists, in_map_iff.
  split; intros [p [H1 H2]]; exists p.
  - apply String.eqb_eq in H2. tauto.
  - subst key. split; [assumption|apply String.eqb_refl].
Qed.

Lemma collectAllKeys_In (arr : list Value) (key : string) :
  In key (collectAllKeys arr)
  <-> exists obj, In obj arr /\ isPlainObject obj = true /\ hasOwn obj key = true.
Proof.
  unfold collectAllKeys. rewrite uniq_In, in_flat_map.
  split; intros [obj [Hin H]]; exists obj; (split; [assumption|]).
  - destruct (isPlainObject obj); [|contradiction].
    split; [reflexivity|now apply hasOwn_objectKeys].
  - destruct H as [-> H]. now apply hasOwn_objectKeys.
Qed.

Lemma filter_length_lt {A : Type} (f : A -> bool) (l : list A) :
  List.length (filter f l) < List.length l <-> exists x, In x l /\ f x = false.
Proof.
  induction l as [|x r IH]; simpl.
  - split; [lia|intros [x [[] _]]].
  - pose proof (filter_length_le f r) as Hle.
    destruct (f x) eqn:E; simpl.
    + rewrite <- Nat.succ_lt_mono, IH. split.
      * intros [y [Hy Hf]]. exists y. auto.
      * intros [y [[->|Hy] Hf]]; [congruence|]. exists y. auto.
    + split; [|lia]. intros _. exists x. auto.
Qed.

Lemma presentIn_all_objects (arr : list Value) (key : string) :
  forallb isPlainObject arr = true ->
  presentIn key arr = filter (fun obj => hasOwn obj key) arr.
Proof.
  intros H. unfold presentIn. apply filter_ext_in. intros obj Hobj.
  rewrite forallb_forall in H. now rewrite (H obj Hobj).
Qed.

(** C2: for a non-empty list of non-array, non-null objects,
    [mergeObjectArrayTypes] renders each key once, in sorted order, and a key
    carries the optional marker exactly when its presence count is below the
    number of objects, that is when some object has it and some object lacks
    it; a key every object has is not optional. *)
Theorem merge_optional_iff_partial_presence cfg (arr : list Value) lvl md :
  arr <> [] ->
  forallb isPlainObject arr = true ->
  mergeObjectArrayTypes cfg arr lvl md
  = Some (mergedText cfg lvl
            (map (fun key =>
                    (key,
                     List.length (presentIn key arr) <? List.length arr,
                     mergeTypes (contributedTypes cfg arr lvl md key)))
               (Js.sort (collectAllKeys arr))))
  /\ (forall key, In key (Js.sort (collectAllKeys arr)) ->
        ((List.length (presentIn key arr) <? List.length arr) = true
         <-> (exists o, In o arr /\ hasOwn o key = true)
             /\ (exists o, In o arr /\ hasOwn o key = false))
        /\ ((forall o, In o arr -> hasOwn o key = true) ->
            (List.length (presentIn key arr) <? List.length arr) = false)).
Proof.
  intros Hne Hobj. split; [now apply mergeObjectArrayTypes_spec|].
  intros key Hkey. apply sort_In, collectAllKeys_In in Hkey.
  destruct Hkey as [o [Ho [_ Hown]]].
  rewrite (presentIn_all_objects arr key Hobj).
  assert (Hlt : (List.length (filter (fun obj => hasOwn obj key) arr)
                 <? List.length arr) = true
                <-> exists x, In x arr /\ hasOwn x key = false).
  { rewrite Nat.ltb_lt. apply filter_length_lt. }
  split.
  - rewrite Hlt. split; [intros H; split; [exists o; auto|exact H]|tauto].
  - intros Hall. apply not_true_is_false. rewrite Hlt.
    intros [x [Hx Hf]]. rewrite (Hall x Hx) in Hf. discriminate.
Qed.

Lemma Permutation_filter_compat {A : Type} (f : A -> bool) (l1 l2 : list A) :
  Permutation l1 l2 -> Permutation (filter f l1) (filter f l2).
Proof.
  induction 1 as [|x l l' _ IH|x y l|l l' l'' _ IH1 _ IH2]; simpl.
  - constructor.
  - destruct (f x); [now constructor|assumption].
  - destruct (f x), (f y); try reflexivity. apply perm_swap.
  - now transitivity (filter f l').
Qed.

Lemma collectAllKeys_Permutation (arr arr' : list Value) :
  Permutation arr arr' ->
  Js.sort (collectAllKeys arr) = Js.sort (collectAllKeys arr').
Proof.
  intros H. apply sort_Permutation_eq, uniq_Permutation.
  now apply Permutation_flat_map.
Qed.

Lemma contributedTypes_Permutation cfg (arr arr' : list Value) lvl md key :
  Permutation arr arr' ->
  Permutation (contributedTypes cfg arr lvl md key)
    (contributedTypes cfg arr' lvl md key).
Proof.
  intros H. unfold contributedTypes, presentIn.
  now apply Permutation_map, Permutation_filter_compat.
Qed.

Lemma mergeObjectArrayTypes_Permutation cfg (arr arr' : list Value) lvl md :
  Permutation arr arr' ->
  mergeObjectArrayTypes cfg arr lvl md = mergeObjectArrayTypes cfg arr' lvl md.
Proof.
  intros H.
  destruct arr as [|o rest].
  { apply Permutation_nil in H. now subst. }
  assert (Hne : o :: rest <> []) by discriminate.
  assert (Hne' : arr' <> []).
  { intros ->. now apply Permutation_sym, Permutation_nil in H. }
  rewrite (mergeObjectArrayTypes_spec cfg _ lvl md Hne).
  rewrite (mergeObjectArrayTypes_spec cfg _ lvl md Hne').
  rewrite (collectAllKeys_Permutation _ _ H).
  do 2 f_equal. apply map_ext. intros key.
  rewrite (Permutation_length (Permutation_filter_compat _ _ _ H)
           : List.length (presentIn key (o :: rest))
             = List.length (presentIn key arr')).
  rewrite (Permutation_length H).
  now rewrite (mergeTypes_Permutation _ _
                 (contributedTypes_Permutation cfg _ _ lvl md key H)).
Qed.

Lemma leS_neq_ltS (a b : string) : leS a b -> a <> b -> ltS a b.
Proof.
  unfold leS, ltS, String.leb, String.ltb. intros Hle Hne.
  destruct (String.compare a b) eqn:E; try reflexivity; try discriminate.
  apply String.compare_eq_iff in E. contradiction.
Qed.

Lemma sorted_NoDup_strict (l : list string) :
  StronglySorted leS l -> NoDup l -> StronglySorted ltS l.
Proof.
  induction 1 as [|a l Hl IH Ha]; intros Hnd; constructor.
  - apply IH. now inversion Hnd.
  - apply Forall_forall. intros b Hb. rewrite Forall_forall in Ha.
    apply leS_neq_ltS; [now apply Ha|].
    intros ->. now inversion Hnd.
Qed.

Lemma sort_uniq_strict (l : list string) :
  StronglySorted ltS (Js.sort (uniq l)).
Proof.
  apply sorted_NoDup_strict; [apply sort_sorted|].
  eapply Permutation_NoDup; [|apply uniq_NoDup].
  symmetry. apply sort_Permutation.
Qed.

Lemma contributedTypes_In cfg (arr : list Value) lvl md (key t : string) :
  forallb isPlainObject arr = true ->
  In t (contributedTypes cfg arr lvl md key)
  <-> exists obj,
        In obj arr /\ hasOwn obj key = true
        /\ contributedType cfg (getProp obj key) lvl md = Some t.
Proof.
  intros Hobj. unfold contributedTypes.
  rewrite in_map_iff, (presentIn_all_objects arr key Hobj).
  split.
  - intros [obj [Ht Hin]]. apply filter_In in Hin. destruct Hin as [Hin Hown].
    exists obj. split; [exact Hin|]. split; [exact Hown|].
    destruct (contributedType_returns cfg (getProp obj key) lvl md) as [s Hs].
    rewrite Hs in Ht |- *. cbn [textOf] in Ht. now subst.
  - intros [obj [Hin [Hown Ht]]]. exists obj. split.
    + now rewrite Ht.
    + apply filter_In. now split.
Qed.

(** C3, as the code has it.  For a non-empty list of non-array, non-null
    objects, [mergeObjectArrayTypes] writes one line per key that some
    object has, the keys in strictly ascending order; the type of a key is
    the texts the objects contribute for it, each once, in strictly
    ascending order, joined with a spaced bar (a single text is written
    alone); the key is optional exactly when some object lacks it.  An
    object contributes the text [inferType] gives for the key's value at
    the next level, unless the value is an object or a non-empty array of
    non-array objects: these are merged again, a single object on its own,
    the elements of the array inside [Array<...>].  Permuting the objects
    leaves the merged text unchanged. *)
Theorem merge_field_types_commutative cfg (arr arr' : list Value) lvl md :
  arr <> [] ->
  forallb isPlainObject arr = true ->
  Permutation arr arr' ->
  exists fields : list (string * bool * list string),
    mergeObjectArrayTypes cfg arr lvl md
    = Some (match fields with
            | [] => "Record<string | number | symbol, never>"
            | _ =>
                "{" ++ nl
                  ++ String.concat ""
                       (map (fun f : string * bool * list string =>
                               repeatStr (_computedIndent cfg) (lvl + 1)
                                 ++ fst (fst f)
                                 ++ (if snd (fst f) then "?" else "")
                                 ++ ": " ++ join " | " (snd f) ++ ";" ++ nl)
                          fields)
                  ++ repeatStr (_computedIndent cfg) lvl ++ "}"
            end)
    /\ StronglySorted ltS (map (fun f : string * bool * list string => fst (fst f))
                       fields)
    /\ (forall key,
          In key (map (fun f : string * bool * list string => fst (fst f))
                       fields)
          <-> exists obj, In obj arr /\ hasOwn obj key = true)
    /\ (forall key optional members,
          In (key, optional, members) fields ->
          StronglySorted ltS members
          /\ (forall t,
                In t members
                <-> exists obj,
                      In obj arr /\ hasOwn obj key = true
                      /\ contributedType cfg (getProp obj key) lvl md = Some t)
          /\ (forall t, members = [t] -> join " | " members = t)
          /\ (optional = true
              <-> exists obj, In obj arr /\ hasOwn obj key = false))
    /\ (forall value,
          (mergedRecursively value = false ->
           contributedType cfg value lvl md = inferType cfg value (lvl + 1) md)
          /\ (forall props,
                value = VObject props ->
                contributedType cfg value lvl md
                = mergeObjectArrayTypes cfg [value] (lvl + 1) md)
          /\ (forall elems,
                value = VArray elems ->
                elems <> [] ->
                forallb isPlainObject elems = true ->
                contributedType cfg value lvl md
                = Some ("Array<"
                          ++ textOf (mergeObjectArrayTypes cfg elems (lvl + 1) md)
                          ++ ">")))
    /\ mergeObjectArrayTypes cfg arr' lvl md
       = mergeObjectArrayTypes cfg arr lvl md.
Proof.
  intros Hne Hobj Hperm.
  exists (map (fun key =>
                 (key,
                  List.length (presentIn key arr) <? List.length arr,
                  Js.sort (uniq (contributedTypes cfg arr lvl md key))))
            (Js.sort (collectAllKeys arr))).
  split; [|split; [|split; [|split; [|split]]]].
  - rewrite (mergeObjectArrayTypes_spec cfg arr lvl md Hne).
    f_equal. destruct (Js.sort (collectAllKeys arr)) as [|k ks]; [reflexivity|].
    rewrite mergedText_map. cbn [fst snd].
    change (map _ (k :: ks)) with
      ((fun key : string =>
          (key, List.length (presentIn key arr) <? List.length arr,
           Js.sort (uniq (contributedTypes cfg arr lvl md key))))
         k :: map (fun key : string =>
                     (key, List.length (presentIn key arr) <? List.length arr,
                      Js.sort (uniq (contributedTypes cfg arr lvl md key))))
                ks) at 2.
    cbv iota beta. do 2 f_equal.
    change (?f k :: map ?f ks) with (map f (k :: ks)).
    rewrite map_map. cbn [fst snd].
    apply (f_equal (fun l => String.concat "" l
                               ++ repeatStr (_computedIndent cfg) lvl ++ "}")).
    apply map_ext. intros key. unfold fieldLine. now rewrite mergeTypes_join.
  - rewrite map_map. cbn [fst snd]. rewrite map_id. apply sort_uniq_strict.
  - intros key. rewrite map_map. cbn [fst snd]. rewrite map_id.
    rewrite sort_In, collectAllKeys_In. split.
    + intros [obj [Hin [_ Hown]]]. now exists obj.
    + intros [obj [Hin Hown]]. exists obj. rewrite forallb_forall in Hobj.
      auto.
  - intros key optional members Hf. apply in_map_iff in Hf.
    destruct Hf as [key' [E Hkey]]. injection E as -> <- <-.
    split; [apply sort_uniq_strict|]. split; [|split].
    + intros t. rewrite sort_In, uniq_In.
      apply contributedTypes_In. exact Hobj.
    + intros t E. now rewrite E.
    + rewrite (presentIn_all_objects arr key Hobj), Nat.ltb_lt.
      apply filter_length_lt.
  - intros value. split; [|split].
    + unfold contributedType, contributedType_body, mergedRecursively.
      destruct value; intros ->; reflexivity.
    + intros props ->. reflexivity.
    + intros elems -> Hel Hall.
      unfold contributedType, contributedType_body. rewrite Hall.
      replace (0 <? List.length elems) with true
        by (destruct elems; [congruence|reflexivity]).
      cbn [andb].
      destruct (mergeObjectArrayTypes_returns cfg elems (lvl + 1) md)
        as [s ->].
      reflexivity.
  - symmetry. now apply mergeObjectArrayTypes_Permutation.
Qed.

(* ================================================================== *)
(** * inferType on a single object *)
(* ================================================================== *)

Lemma recordSet_fresh {A : Type} (ps : list (string * A)) (key : string) (x : A) :
  ~ In key (map fst ps) -> recordSet ps key x = (ps ++ [(key, x)])%list.
Proof.
  induction ps as [|[k y] r IH]; simpl; intros H; [reflexivity|].
  destruct (String.eqb k key) eqn:E.
  - apply String.eqb_eq in E. tauto.
  - rewrite IH; tauto.
Qed.

Lemma assignText_stored (ps : list (string * string)) (key x : string) :
  ~ In key (map fst ps) ->
  assignText ps key x = (ps ++ storedProps [(key, x)])%list.
Proof.
  intros H. unfold assignText, storedProps. cbn [filter fst].
  destruct (String.eqb key "__proto__"); cbn [negb].
  - now rewrite app_nil_r.
  - now apply recordSet_fresh.
Qed.

Lemma storedProps_app {A : Type} (l1 l2 : list (string * A)) :
  storedProps (l1 ++ l2)%list = (storedProps l1 ++ storedProps l2)%list.
Proof. apply filter_app. Qed.

Lemma storedProps_map {A B : Type} (f : A -> B) (props : list (string * A)) :
  storedProps (map (fun p => (fst p, f (snd p))) props)
  = map (fun p => (fst p, f (snd p))) (storedProps props).
Proof.
  unfold storedProps. induction props as [|p r IH]; [reflexivity|].
  cbn [map filter fst]. destruct (negb _); cbn [map]; now rewrite IH.
Qed.

Lemma storedProps_keys {A : Type} (props : list (string * A)) (k : string) :
  In k (map fst (storedProps props)) -> In k (map fst props).
Proof.
  rewrite !in_map_iff. intros [p [E H]]. exists p. split; [exact E|].
  unfold storedProps in H. now apply filter_In in H.
Qed.

Lemma storedProps_id {A : Type} (props : list (string * A)) :
  ~ In "__proto__" (map fst props) -> storedProps props = props.
Proof.
  unfold storedProps. induction props as [|p r IH]; [reflexivity|].
  cbn [map filter In]. intros H.
  destruct (String.eqb (fst p) "__proto__") eqn:E.
  - apply String.eqb_eq in E. tauto.
  - cbn [negb]. rewrite IH; tauto.
Qed.

Lemma inferObject_properties (rec : Value -> option string)
  (props : list (string * Value)) (acc : list (string * string)) :
  NoDup (map fst acc ++ map fst props) ->
  (forall p, In p props -> exists s, rec (snd p) = Some s) ->
  foldM (fun properties p =>
           t <- rec (snd p) ;; Some (assignText properties (fst p) t))
    props acc
  = Some (acc
            ++ storedProps (map (fun p => (fst p, textOf (rec (snd p)))) props))%list.
Proof.
  revert acc. induction props as [|[k v] r IH]; intros acc Hnd Hret.
  - cbn [foldM map]. unfold storedProps. cbn [filter]. now rewrite app_nil_r.
  - cbn [foldM map fst snd].
    destruct (Hret (k, v) (or_introl eq_refl)) as [s Hs]. cbn [snd] in Hs.
    rewrite Hs. cbn [bind textOf].
    assert (Hk : ~ In k (map fst acc)).
    { intros Hin. cbn [map fst] in Hnd. apply NoDup_remove_2 in Hnd.
      apply Hnd. apply in_or_app. now left. }
    rewrite (assignText_stored acc k s Hk).
    rewrite IH.
    + rewrite <- app_assoc. f_equal. f_equal.
      change ((k, s) :: map (fun p => (fst p, textOf (rec (snd p)))) r)
        with ([(k, s)] ++ map (fun p => (fst p, textOf (rec (snd p)))) r)%list.
      now rewrite storedProps_app.
    + cbn [map fst] in Hnd.
      assert (Hperm : Permutation
                        (map fst (acc ++ storedProps [(k, s)]) ++ map fst r)
                        (filter (fun x => negb (String.eqb x "__proto__")) [k]
                           ++ map fst acc ++ map fst r)).
      { rewrite map_app, <- app_assoc.
        replace (map fst (storedProps [(k, s)]))
          with (filter (fun x => negb (String.eqb x "__proto__")) [k]).
        - rewrite app_assoc.
          rewrite (Permutation_app_comm (map fst acc)). now rewrite <- app_assoc.
        - unfold storedProps. cbn [filter fst].
          destruct (negb _); reflexivity. }
      apply (Permutation_NoDup (Permutation_sym Hperm)).
      assert (Hnd' : NoDup (k :: map fst acc ++ map fst r)).
      { apply (Permutation_NoDup (l := map fst acc ++ k :: map fst r));
          [|exact Hnd].
        symmetry. apply Permutation_middle. }
      cbn [filter]. destruct (negb _); cbn [app]; [exact Hnd'|].
      now inversion Hnd'.
    + intros p Hp. apply Hret. now right.
Qed.

(** What the object branch returns: one line per stored property, in the
    key order of the input. *)
Lemma inferType_object cfg (props : list (string * Value)) lvl md :
  NoDup (map fst props) ->
  inferType cfg (VObject props) lvl md
  = Some (mergedText cfg lvl
            (map (fun p =>
                    (fst p, false, textOf (inferType cfg (snd p) (lvl + 1) md)))
               (storedProps props))).
Proof.
  intros Hnd. rewrite inferType_unfold.
  change (inferType_body cfg (inferType cfg) (mergeObjectArrayTypes cfg)
            (VObject props) lvl md)
    with (inferObject cfg (inferType cfg) (VObject props) lvl md).
  unfold inferObject. cbn [ownProps].
  rewrite (inferObject_properties
             (fun v => inferType cfg v (lvl + 1) md) props []).
  - cbn [bind app].
    rewrite (storedProps_map (fun v => textOf (inferType cfg v (lvl + 1) md))).
    rewrite !length_map.
    destruct (storedProps props) as [|p ps]; [reflexivity|].
    change (List.length (p :: ps) =? 0) with false. cbv iota.
    rewrite fold_left_lines, map_map, mergedText_map. cbn [fst snd].
    now rewrite !str_app_assoc.
  - exact Hnd.
  - intros p _. apply inferType_returns.
Qed.

(** C6, evaluated: an object whose only own key is [__proto__], as
    [JSON.parse] builds it, is rendered without any field, at every level,
    in both modes and under every configuration, while
    [mergeObjectArrayTypes] renders the field for the same object; among
    other keys the key is left out and the others keep their order. *)
Theorem single_object_proto_key_dropped cfg lvl md :
  inferType cfg (VObject [("__proto__", VNumber (Fin (inject_Z 1)))]) lvl md
  = Some "Record<string | number | symbol, never>"
  /\ mergeObjectArrayTypes cfg
       [VObject [("__proto__", VNumber (Fin (inject_Z 1)))]] lvl md
     = Some ("{" ++ nl
               ++ repeatStr (_computedIndent cfg) (lvl + 1)
               ++ "__proto__: number;" ++ nl
               ++ repeatStr (_computedIndent cfg) lvl ++ "}")
  /\ inferType typeDetectiveConfig
       (VObject [("id", VNumber (Fin (inject_Z 1)));
                 ("__proto__", VNumber (Fin (inject_Z 1)));
                 ("active", VBoolean true)]) 0 Merge
     = Some (lines ["{"; "  id: number;"; "  active: boolean;"; "}"]).
Proof.
  split; [reflexivity|]. split; [|reflexivity].
  rewrite mergeObjectArrayTypes_unfold.
  unfold mergeObjectArrayTypes_body. cbn -[repeatStr append Nat.add].
  unfold fieldLine. now rewrite !str_app_assoc.
Qed.

(* ================================================================== *)
(** * The calls on trees within the limits of the engine *)
(* ================================================================== *)

Section BodyExtAt.

Variable cfg : TypeDetectiveConfig.
Variables r1 r2 : Value -> nat -> TypeDetectiveMode -> option string.
Variables m1 m2 : list Value -> nat -> TypeDetectiveMode -> option string.
Variable lvl : nat.
Variable md : TypeDetectiveMode.

(** A body depends on the recursive calls it makes only: on the values
    nested in its argument, at the next level, in the same mode. *)
Lemma inferType_body_ext_at (value : Value) :
  (forall x, In x (nested value) ->
             r1 x (lvl + 1) md = r2 x (lvl + 1) md
             /\ m1 [x] (lvl + 1) md = m2 [x] (lvl + 1) md) ->
  (forall elems, value = VArray elems -> m1 elems lvl md = m2 elems lvl md) ->
  inferType_body cfg r1 m1 value lvl md = inferType_body cfg r2 m2 value lvl md.
Proof.
  intros Hx Hm.
  destruct value; try reflexivity; cbn [nested] in Hx.
  - (* VArray *)
    unfold inferType_body. cbn [typeof String.eqb Ascii.eqb Bool.eqb orb isArray].
    destruct (List.length elems =? 0); [reflexivity|].
    destruct (forallb isArray elems).
    { unfold inferArrayOfArrays.
      rewrite (mapM_ext_in _ (fun subArr => r2 subArr (lvl + 1) md));
        [reflexivity|].
      intros x Hin. now apply Hx. }
    destruct (forallb isPlainObject elems).
    { unfold inferArrayOfObjects. destruct md.
      - now rewrite (Hm elems eq_refl).
      - rewrite (mapM_ext_in _ (fun obj => r2 obj (lvl + 1) Union));
          [reflexivity|].
        intros x Hin. now apply Hx. }
    unfold inferMixedArray.
    match goal with
    | |- bind (mapM ?f _) _ = bind (mapM ?g _) _ =>
        rewrite (mapM_ext_in f g); [reflexivity|]
    end.
    intros x Hin. cbv beta. destruct (Hx x Hin) as [Hr Hs].
    destruct (isArray x); [exact Hr|].
    destruct (isObjectLike x); [|exact Hr].
    destruct md; [exact Hs|exact Hr].
  - (* VObject *)
    unfold inferType_body. cbn [typeof String.eqb Ascii.eqb Bool.eqb orb isArray].
    unfold inferObject.
    match goal with
    | |- bind (foldM ?f _ _) _ = bind (foldM ?g _ _) _ =>
        rewrite (foldM_ext_in f g); [reflexivity|]
    end.
    intros acc p Hp. cbv beta.
    destruct (Hx (snd p)) as [Hr _]; [now apply in_map|].
    now rewrite Hr.
Qed.

Lemma contributedType_body_ext_at (value : Value) :
  r1 value (lvl + 1) md = r2 value (lvl + 1) md ->
  m1 [value] (lvl + 1) md = m2 [value] (lvl + 1) md ->
  (forall elems, value = VArray elems ->
                 m1 elems (lvl + 1) md = m2 elems (lvl + 1) md) ->
  contributedType_body r1 m1 value lvl md
  = contributedType_body r2 m2 value lvl md.
Proof.
  intros Hr Hs Hm. unfold contributedType_body.
  destruct value; try (destruct (isObjectLike _); assumption).
  destruct ((0 <? List.length elems) && forallb isPlainObject elems);
    [|assumption].
  now rewrite (Hm elems eq_refl).
Qed.

Lemma mergeObjectArrayTypes_body_ext_at (arr : list Value) :
  (forall obj key,
      In obj arr -> hasOwn obj key = true ->
      contributedType_body r1 m1 (getProp obj key) lvl md
      = contributedType_body r2 m2 (getProp obj key) lvl md) ->
  mergeObjectArrayTypes_body cfg r1 m1 arr lvl md
  = mergeObjectArrayTypes_body cfg r2 m2 arr lvl md.
Proof.
  intros H. unfold mergeObjectArrayTypes_body.
  destruct (List.length arr =? 0); [reflexivity|].
  match goal with
  | |- bind (mapM ?f _) _ = bind (mapM ?g _) _ =>
      rewrite (mapM_ext_in f g); [reflexivity|]
  end.
  intros key _. cbv beta.
  replace (collectKey r1 m1 arr lvl md key)
    with (collectKey r2 m2 arr lvl md key); [reflexivity|].
  unfold collectKey. apply foldM_ext_in. intros acc obj Hobj.
  destruct (isPlainObject obj && hasOwn obj key) eqn:E; [|reflexivity].
  apply andb_true_iff in E. destruct E as [_ Hown].
  now rewrite (H obj key Hobj Hown).
Qed.

End BodyExtAt.

Lemma parts_self (value : Value) : In value (parts value).
Proof. destruct value; now left. Qed.

Lemma parts_nested (value x : Value) :
  In x (nested value) -> forall q, In q (parts x) -> In q (parts value).
Proof.
  intros Hx q Hq. destruct value; cbn [nested] in Hx; try contradiction.
  - cbn [parts]. right. apply in_flat_map. now exists x.
  - cbn [parts]. right. apply in_map_iff in Hx. destruct Hx as [p [<- Hp]].
    apply in_flat_map. now exists p.
Qed.

Lemma parts_inv (value q : Value) :
  In q (parts value) ->
  q = value \/ exists x, In x (nested value) /\ In q (parts x).
Proof.
  destruct value; cbn [parts nested]; intros [H|H]; auto;
    try contradiction; right.
  - apply in_flat_map in H. destruct H as [x [Hx Hq]]. now exists x.
  - apply in_flat_map in H. destruct H as [p [Hp Hq]].
    exists (snd p). split; [now apply in_map|exact Hq].
Qed.

Lemma height_nested (value x : Value) :
  In x (nested value) -> height x < height value.
Proof.
  destruct value; cbn [nested]; try contradiction.
  - intros H. rewrite height_VArray. apply heightAll_in in H. lia.
  - intros H. apply in_map_iff in H. destruct H as [p [<- Hp]].
    now apply height_prop_in.
Qed.

Lemma parts_trans (n : nat) :
  forall value p q,
    height value < n -> In p (parts value) -> In q (parts p) ->
    In q (parts value).
Proof.
  induction n as [|n IH]; intros value p q Hn Hp Hq; [lia|].
  destruct (parts_inv value p Hp) as [->|[x [Hx Hpx]]]; [exact Hq|].
  apply (parts_nested value x Hx).
  apply (IH x p q); [|exact Hpx|exact Hq].
  pose proof (height_nested value x Hx). lia.
Qed.

Lemma getProp_nested (obj : Value) (key : string) :
  hasOwn obj key = true -> In (getProp obj key) (nested obj).
Proof.
  unfold hasOwn, getProp. intros H.
  destruct obj; cbn [ownProps nested] in *; try discriminate.
  destruct (find (fun p => String.eqb (fst p) key) props) as [p|] eqn:E.
  - apply find_some_in in E. now apply in_map.
  - apply existsb_exists in H. destruct H as [p [Hin Hp]].
    now rewrite (find_none _ _ E p Hin) in Hp.
Qed.

Section Within.

Variable cfg : TypeDetectiveConfig.
Variable md : TypeDetectiveMode.

Lemma textsFit_spec (depth : nat) (value : Value) (level : nat) :
  textsFit cfg md depth value level = true
  <-> forall part j,
        In part (parts value) -> j <= depth ->
        fits (textOf (inferType cfg part (level + j) md)) = true
        /\ fits (textOf (mergeObjectArrayTypes cfg [part] (level + j) md))
           = true
        /\ (forall elems,
              part = VArray elems ->
              fits (textOf (mergeObjectArrayTypes cfg elems (level + j) md))
              = true).
Proof.
  unfold textsFit. rewrite forallb_forall. split.
  - intros H part j Hpart Hj. specialize (H part Hpart).
    rewrite forallb_forall in H. specialize (H j).
    rewrite in_seq in H. assert (Hin : 0 <= j < 0 + S depth) by lia.
    specialize (H Hin). apply andb_true_iff in H. destruct H as [H H3].
    apply andb_true_iff in H. destruct H as [H1 H2].
    split; [exact H1|]. split; [exact H2|]. now intros elems ->.
  - intros H part Hpart. apply forallb_forall. intros j Hj.
    apply in_seq in Hj. destruct (H part j Hpart) as [H1 [H2 H3]]; [lia|].
    rewrite H1, H2. cbn [andb]. destruct part; try reflexivity.
    now apply H3.
Qed.

(** What fits for a value fits for its parts, at the levels below. *)
Lemma textsFit_part (depth depth' shift : nat) (value part : Value)
  (level : nat) :
  textsFit cfg md depth value level = true ->
  In part (parts value) ->
  depth' + shift <= depth ->
  textsFit cfg md depth' part (level + shift) = true.
Proof.
  rewrite !textsFit_spec. intros H Hpart Hd q j Hq Hj.
  replace (level + shift + j) with (level + (shift + j)) by lia.
  apply H; [|lia].
  apply (parts_trans (S (height value)) value part q); [lia|exact Hpart|exact Hq].
Qed.

Lemma textsFit_own (depth : nat) (value : Value) (level : nat) :
  textsFit cfg md depth value level = true ->
  fits (textOf (inferType cfg value level md)) = true
  /\ fits (textOf (mergeObjectArrayTypes cfg [value] level md)) = true
  /\ (forall elems,
        value = VArray elems ->
        fits (textOf (mergeObjectArrayTypes cfg elems level md)) = true).
Proof.
  rewrite textsFit_spec. intros H.
  specialize (H value 0 (parts_self value) (Nat.le_0_l depth)).
  now rewrite Nat.add_0_r in H.
Qed.

Lemma checked_text (o : option string) :
  fits (textOf o) = true ->
  (t <- o ;; if fits t then Some t else None) = o.
Proof. destruct o as [t|]; cbn [textOf bind]; [now intros ->|reflexivity]. Qed.

(** Where the texts fit and the stack has room for the nesting, the limits
    do not show: the calls give what the calls without limits give. *)
Lemma within_limits (k : nat) :
  (forall value level depth,
      height value < k -> height value <= depth ->
      textsFit cfg md depth value level = true ->
      inferType_within k cfg value level md = inferType cfg value level md)
  /\ (forall arr level depth,
        heightAll arr < k -> heightAll arr <= depth ->
        fits (textOf (mergeObjectArrayTypes cfg arr level md)) = true ->
        (forall obj, In obj arr -> textsFit cfg md depth obj level = true) ->
        mergeObjectArrayTypes_within k cfg arr level md
        = mergeObjectArrayTypes cfg arr level md).
Proof.
  induction k as [|k [IH1 IH2]]; [split; intros; lia|].
  split.
  - intros value level depth Hk Hd Hfit.
    cbn [inferType_within].
    rewrite (inferType_body_ext_at cfg _ (inferType cfg) _
               (mergeObjectArrayTypes cfg)).
    + rewrite <- inferType_unfold. apply checked_text.
      exact (proj1 (textsFit_own depth value level Hfit)).
    + intros x Hx. pose proof (height_nested value x Hx) as Hh.
      assert (Hfx : textsFit cfg md (depth - 1) x (level + 1) = true).
      { apply (textsFit_part depth (depth - 1) 1 value x level Hfit);
          [|lia].
        apply (parts_nested value x Hx). apply parts_self. }
      split.
      * apply (IH1 x (level + 1) (depth - 1)); [lia|lia|exact Hfx].
      * apply (IH2 [x] (level + 1) (depth - 1)).
        -- rewrite heightAll_singleton. lia.
        -- rewrite heightAll_singleton. lia.
        -- exact (proj1 (proj2 (textsFit_own _ _ _ Hfx))).
        -- intros obj [<-|[]]. exact Hfx.
    + intros elems ->. rewrite height_VArray in Hk, Hd.
      apply (IH2 elems level (depth - 1)); [lia|lia| |].
      * exact (proj2 (proj2 (textsFit_own depth _ level Hfit)) elems eq_refl).
      * intros obj Hobj.
        replace level with (level + 0) by lia.
        apply (textsFit_part depth (depth - 1) 0 (VArray elems) obj level
                 Hfit); [|lia].
        apply (parts_nested (VArray elems) obj Hobj). apply parts_self.
  - intros arr level depth Hk Hd Hown Hfit.
    cbn [mergeObjectArrayTypes_within].
    rewrite (mergeObjectArrayTypes_body_ext_at cfg _ (inferType cfg) _
               (mergeObjectArrayTypes cfg)).
    + rewrite <- mergeObjectArrayTypes_unfold. now apply checked_text.
    + intros obj key Hobj Hkey.
      pose proof (heightAll_in arr obj Hobj) as Ho.
      pose proof (height_getProp obj key Hkey) as Hp.
      pose proof (getProp_nested obj key Hkey) as Hin.
      set (p := getProp obj key) in *.
      assert (Hfp : textsFit cfg md (depth - 1) p (level + 1) = true).
      { apply (textsFit_part depth (depth - 1) 1 obj p level
                 (Hfit obj Hobj)); [|lia].
        apply (parts_nested obj p Hin). apply parts_self. }
      apply contributedType_body_ext_at.
      * apply (IH1 p (level + 1) (depth - 1)); [lia|lia|exact Hfp].
      * apply (IH2 [p] (level + 1) (depth - 1)).
        -- rewrite heightAll_singleton. lia.
        -- rewrite heightAll_singleton. lia.
        -- exact (proj1 (proj2 (textsFit_own _ _ _ Hfp))).
        -- intros x [<-|[]]. exact Hfp.
      * intros elems Ep. rewrite Ep, height_VArray in Hp.
        apply (IH2 elems (level + 1) (depth - 1)); [lia|lia| |].
        -- exact (proj2 (proj2 (textsFit_own _ _ _ Hfp)) elems Ep).
        -- intros x Hx.
           replace (level + 1) with (level + 1 + 0) by lia.
           apply (textsFit_part (depth - 1) (depth - 1) 0 p x (level + 1)
                    Hfp); [|lia].
           rewrite Ep. apply (parts_nested (VArray elems) x Hx).
           apply parts_self.
Qed.

End Within.

(* ================================================================== *)
(** * Calls on the store: what they leave *)
(* ================================================================== *)

Section StoreKept.

Import Exec.

Lemma keeps_ret {A : Type} (a : A) : keeps (ret a).
Proof. intros s. reflexivity. Qed.

Lemma keeps_throw {A : Type} (e : JsError) : keeps (@throw A e).
Proof. intros s. reflexivity. Qed.

Lemma keeps_bind {A B : Type} (m : M A) (f : A -> M B) :
  keeps m -> (forall a, keeps (f a)) -> keeps (bind m f).
Proof.
  intros Hm Hf s. unfold bind. specialize (Hm s).
  destruct (m s) as [[a|e] s']; cbn [snd] in *; subst s'.
  - apply Hf.
  - reflexivity.
Qed.

Lemma keeps_readConfig : keeps readConfig.
Proof. intros s. reflexivity. Qed.

Lemma keeps_deref (a : Address) : keeps (deref a).
Proof. intros s. reflexivity. Qed.

Lemma keeps_orRangeError {A : Type} (o : option A) : keeps (orRangeError o).
Proof. destruct o; [apply keeps_ret|apply keeps_throw]. Qed.

Lemma keeps_mapM {A B : Type} (f : A -> M B) (l : list A) :
  (forall x, keeps (f x)) -> keeps (mapM f l).
Proof.
  intros H. induction l as [|x r IH]; cbn [mapM]; [apply keeps_ret|].
  apply keeps_bind; [apply H|]. intros y.
  apply keeps_bind; [exact IH|]. intros ys. apply keeps_ret.
Qed.

Lemma keeps_foldM {A B : Type} (f : B -> A -> M B) (l : list A) (b : B) :
  (forall b x, keeps (f b x)) -> keeps (foldM f l b).
Proof.
  intros H. revert b. induction l as [|x r IH]; intros b; cbn [foldM];
    [apply keeps_ret|].
  apply keeps_bind; [apply H|]. intros b'. apply IH.
Qed.

Lemma keeps_every {A : Type} (p : A -> M bool) (l : list A) :
  (forall x, keeps (p x)) -> keeps (every p l).
Proof.
  intros H. induction l as [|x r IH]; cbn [every]; [apply keeps_ret|].
  apply keeps_bind; [apply H|]. intros [|]; [exact IH|apply keeps_ret].
Qed.

Ltac keeps_step :=
  first
    [ apply keeps_ret
    | apply keeps_throw
    | apply keeps_readConfig
    | apply keeps_deref
    | apply keeps_orRangeError
    | assumption
    | apply keeps_bind; [|intros ?]
    | apply keeps_mapM; intros ?
    | apply keeps_foldM; intros ? ?
    | apply keeps_every; intros ?
    | match goal with
      | |- keeps (if ?c then _ else _) => destruct c
      | |- keeps (match ?x with _ => _ end) => destruct x
      | H : forall v l m, keeps (_ v l m) |- keeps _ => apply H
      end ].

Ltac keeps_all := repeat keeps_step.

Lemma keeps_isArray (v : Stored) : keeps (isArray v).
Proof. unfold isArray. keeps_all. Qed.

Lemma keeps_isPlainObject (v : Stored) : keeps (isPlainObject v).
Proof. unfold isPlainObject. keeps_all. apply keeps_isArray. Qed.

Lemma keeps_elements (v : Stored) : keeps (elements v).
Proof. unfold elements. keeps_all. Qed.

Lemma keeps_ownProps (v : Stored) : keeps (ownProps v).
Proof. unfold ownProps. keeps_all. Qed.

Lemma keeps_collectAllKeys (arr : list Stored) : keeps (collectAllKeys arr).
Proof.
  unfold collectAllKeys.
  apply keeps_bind; [|intros; apply keeps_ret].
  apply keeps_mapM. intros obj.
  apply keeps_bind; [apply keeps_isPlainObject|]. intros [|]; [|apply keeps_ret].
  apply keeps_bind; [apply keeps_ownProps|]. intros. apply keeps_ret.
Qed.

Section BodiesKeep.

Variable inferType_rec : Stored -> JsNumber -> TypeDetectiveMode -> M string.
Variable mergeObjectArrayTypes_rec :
  list Stored -> JsNumber -> TypeDetectiveMode -> M string.
Hypothesis inferType_keeps : forall v l m, keeps (inferType_rec v l m).
Hypothesis merge_keeps : forall a l m, keeps (mergeObjectArrayTypes_rec a l m).

Ltac reads :=
  first [ apply keeps_isArray | apply keeps_isPlainObject | apply keeps_elements
        | apply keeps_ownProps | apply keeps_collectAllKeys
        | apply inferType_keeps | apply merge_keeps ].

Ltac go := repeat first [ reads | keeps_step ].

Lemma inferArrayOfArrays_keeps value indent nextIndent lvl md :
  keeps (inferArrayOfArrays inferType_rec value indent nextIndent lvl md).
Proof. unfold inferArrayOfArrays. go. Qed.

Lemma inferArrayOfObjects_keeps value indent nextIndent lvl md :
  keeps (inferArrayOfObjects inferType_rec mergeObjectArrayTypes_rec
           value indent nextIndent lvl md).
Proof. unfold inferArrayOfObjects. go. Qed.

Lemma inferMixedArray_keeps value lvl md :
  keeps (inferMixedArray inferType_rec mergeObjectArrayTypes_rec value lvl md).
Proof. unfold inferMixedArray. go. Qed.

Lemma inferObject_keeps value indent nextIndent lvl md :
  keeps (inferObject inferType_rec value indent nextIndent lvl md).
Proof. unfold inferObject. go. Qed.

Lemma inferType_body_keeps value lvl md :
  keeps (inferType_body inferType_rec mergeObjectArrayTypes_rec value lvl md).
Proof.
  unfold inferType_body.
  apply keeps_bind; [apply keeps_readConfig|]. intros cfg.
  apply keeps_bind; [apply keeps_orRangeError|]. intros indent.
  apply keeps_bind; [apply keeps_orRangeError|]. intros nextIndent.
  assert (H : keeps
                (isArr <~ isArray value ;;
                 if isArr then
                   elems <~ elements value ;;
                   if List.length elems =? 0 then
                     cfg <~ readConfig ;;
                     ret (if isPostfix cfg then "unknown[]" else "Array<unknown>")
                   else
                     allArrays <~ every isArray elems ;;
                     if allArrays then
                       inferArrayOfArrays inferType_rec elems indent nextIndent
                         lvl md
                     else
                       allObjects <~ every isPlainObject elems ;;
                       if allObjects then
                         inferArrayOfObjects inferType_rec
                           mergeObjectArrayTypes_rec elems indent nextIndent
                           lvl md
                       else inferMixedArray inferType_rec
                              mergeObjectArrayTypes_rec elems lvl md
                 else if String.eqb (typeof value) "object" then
                   inferObject inferType_rec value indent nextIndent lvl md
                 else ret "unknown")).
  { apply keeps_bind; [apply keeps_isArray|]. intros [|].
    - apply keeps_bind; [apply keeps_elements|]. intros elems.
      destruct (List.length elems =? 0); [go|].
      apply keeps_bind; [apply keeps_every; intros; apply keeps_isArray|].
      intros [|]; [apply inferArrayOfArrays_keeps|].
      apply keeps_bind; [apply keeps_every; intros; apply keeps_isPlainObject|].
      intros [|]; [apply inferArrayOfObjects_keeps|apply inferMixedArray_keeps].
    - destruct (String.eqb _ _); [apply inferObject_keeps|apply keeps_ret]. }
  destruct value; try apply keeps_ret;
    repeat match goal with
           | |- keeps (if ?c then _ else _) => destruct c
           end;
    try apply keeps_ret; exact H.
Qed.

Lemma contributedType_body_keeps value lvl md :
  keeps (contributedType_body inferType_rec mergeObjectArrayTypes_rec
           value lvl md).
Proof.
  unfold contributedType_body.
  apply keeps_bind; [apply keeps_isArray|]. intros [|]; [|go].
  apply keeps_bind; [apply keeps_elements|]. intros elems.
  apply keeps_bind.
  - destruct (0 <? List.length elems); [|apply keeps_ret].
    apply keeps_every; intros; apply keeps_isPlainObject.
  - intros [|]; go.
Qed.

Lemma collectKey_keeps arr lvl md key :
  keeps (collectKey inferType_rec mergeObjectArrayTypes_rec arr lvl md key).
Proof.
  unfold collectKey. apply keeps_foldM. intros acc obj.
  apply keeps_bind; [apply keeps_isPlainObject|]. intros [|]; [|apply keeps_ret].
  apply keeps_bind; [apply keeps_ownProps|]. intros props.
  destruct (hasOwnIn props key); [|apply keeps_ret].
  apply keeps_bind; [apply contributedType_body_keeps|]. intros. apply keeps_ret.
Qed.

Lemma mergeObjectArrayTypes_body_keeps arr lvl md :
  keeps (mergeObjectArrayTypes_body inferType_rec mergeObjectArrayTypes_rec
           arr lvl md).
Proof.
  unfold mergeObjectArrayTypes_body.
  apply keeps_bind; [apply keeps_readConfig|]. intros cfg.
  apply keeps_bind; [apply keeps_orRangeError|]. intros indent.
  apply keeps_bind; [apply keeps_orRangeError|]. intros nextIndent.
  destruct (List.length arr =? 0); [apply keeps_ret|].
  apply keeps_bind; [apply keeps_collectAllKeys|]. intros allKeys.
  apply keeps_bind.
  - apply keeps_mapM. intros key.
    apply keeps_bind; [apply collectKey_keeps|]. intros. apply keeps_ret.
  - intros properties. destruct (_ =? 0); [apply keeps_ret|].
    apply keeps_bind; [|intros; apply keeps_ret].
    apply keeps_foldM. intros output key.
    destruct (recordGet properties key); [apply keeps_ret|apply keeps_throw].
Qed.

End BodiesKeep.

Lemma keeps_built (t : string) : keeps (built t).
Proof. unfold built. destruct (fits t); [apply keeps_ret|apply keeps_throw]. Qed.

Lemma calls_keep (stack : nat) :
  (forall v l m, keeps (inferType_fuel stack v l m))
  /\ (forall a l m, keeps (mergeObjectArrayTypes_fuel stack a l m)).
Proof.
  induction stack as [|n [IH1 IH2]].
  - split; intros; apply keeps_throw.
  - split; intros; cbn [inferType_fuel mergeObjectArrayTypes_fuel];
      (apply keeps_bind; [|intros; apply keeps_built]).
    + now apply inferType_body_keeps.
    + now apply mergeObjectArrayTypes_body_keeps.
Qed.

Lemma defaultMode_keeps md : keeps (defaultMode md).
Proof.
  destruct md; [apply keeps_ret|].
  apply keeps_bind; [apply keeps_readConfig|]. intros. apply keeps_ret.
Qed.

Lemma inferType_keeps_store stack value lvl md :
  keeps (Exec.inferType stack value lvl md).
Proof.
  unfold Exec.inferType. apply keeps_bind; [apply defaultMode_keeps|].
  intros m. apply calls_keep.
Qed.

Lemma detectType_keeps_store stack input lvl md :
  keeps (Exec.detectType stack input lvl md).
Proof.
  unfold Exec.detectType. apply keeps_bind; [apply defaultMode_keeps|].
  intros m. destruct stack; [apply keeps_throw|apply inferType_keeps_store].
Qed.

End StoreKept.

(* ================================================================== *)
(** * Calls on the store: reading the heap *)
(* ================================================================== *)

Section StoreReads.

Import Exec.

Lemma runs_bind {A B : Type} (s : Store) (m : M A) (f : A -> M B) (a : A) :
  runs s m a -> bind m f s = f a s.
Proof. unfold runs, bind. now intros ->. Qed.

Lemma recordGet_mapped {A : Type} (f : string -> A)
  (properties : list (string * A)) (keys : list string) (key : string) :
  map fst properties = keys -> In key keys ->
  exists acc, recordGet properties key = Some acc.
Proof.
  intros <- Hin. unfold recordGet.
  destruct (find _ properties) as [p|] eqn:E; [now eexists|].
  apply in_map_iff in Hin. destruct Hin as [p [Hk Hp]].
  pose proof (find_none _ _ E p Hp) as Hn. cbn beta in Hn.
  rewrite Hk, String.eqb_refl in Hn. discriminate.
Qed.

Lemma mapM_Some_mono {A B : Type} (f g : A -> option B) (l : list A)
  (ys : list B) :
  (forall x y, In x l -> f x = Some y -> g x = Some y) ->
  Js.mapM f l = Some ys -> Js.mapM g l = Some ys.
Proof.
  revert ys. induction l as [|a r IH]; intros ys H E; [exact E|].
  cbn [Js.mapM] in *. destruct (f a) as [b|] eqn:Ea; [|discriminate].
  rewrite (H a b (or_introl eq_refl) Ea). cbn [Js.bind] in *.
  destruct (Js.mapM f r) as [bs|] eqn:Er; [|discriminate].
  rewrite (IH bs); [exact E| |reflexivity].
  intros x y Hx. apply H. now right.
Qed.

Lemma treeOf_ref (h : list HeapObject) (n : nat) (a : Address) :
  treeOf (S n) h (SRef a)
  = match nth a h (HObject []) with
    | HArray elems => option_map VArray (Js.mapM (treeOf n h) elems)
    | HObject props =>
        option_map VObject
          (Js.mapM (fun p => option_map (pair (fst p)) (treeOf n h (snd p)))
             props)
    end.
Proof. reflexivity. Qed.

Lemma treeOf_mono (h : list HeapObject) (n : nat) :
  forall v t, treeOf n h v = Some t -> treeOf (S n) h v = Some t.
Proof.
  induction n as [|n IH]; intros v t H.
  - destruct v; try exact H. discriminate.
  - destruct v; try exact H.
    rewrite treeOf_ref in H. rewrite treeOf_ref.
    destruct (nth a h (HObject [])) as [elems|props].
    + destruct (Js.mapM (treeOf n h) elems) as [ts|] eqn:E; [|discriminate].
      rewrite (mapM_Some_mono (treeOf n h) (treeOf (S n) h) elems ts);
        [exact H| |exact E].
      intros x y _. apply IH.
    + destruct (Js.mapM _ props) as [ps|] eqn:E; [|discriminate].
      rewrite (mapM_Some_mono
                 (fun p => option_map (pair (fst p)) (treeOf n h (snd p)))
                 (fun p => option_map (pair (fst p)) (treeOf (S n) h (snd p)))
                 props ps); [exact H| |exact E].
      intros p q _ Hp. destruct (treeOf n h (snd p)) as [t'|] eqn:Et;
        [|discriminate].
      now rewrite (IH _ _ Et).
Qed.

End StoreReads.

(* ================================================================== *)
(** * Calls on the store and calls on trees *)
(* ================================================================== *)

Section StoreAgrees.


Lemma agree_ret {A : Type} (s : Exec.Store) (a : A) :
  agree s (Exec.ret a) (Some a).
Proof. reflexivity. Qed.

Lemma agree_throws {A B : Type} (s : Exec.Store) (m : Exec.M A)
  (f : A -> Exec.M B) :
  m s = (Exec.Throws RangeError, s) ->
  Exec.bind m f s = (Exec.Throws RangeError, s).
Proof. intros H. unfold Exec.bind. now rewrite H. Qed.

Lemma agree_read {A B : Type} (s : Exec.Store) (m : Exec.M A) (a : A)
  (f : A -> Exec.M B) (o : option B) :
  runs s m a -> agree s (f a) o -> agree s (Exec.bind m f) o.
Proof.
  intros Hm H. destruct o as [b|]; unfold agree, runs in *;
    now rewrite (runs_bind s m f a Hm).
Qed.

Lemma agree_bind {A B : Type} (s : Exec.Store) (m : Exec.M A) (o : option A)
  (f : A -> Exec.M B) (g : A -> option B) :
  agree s m o -> (forall a, agree s (f a) (g a)) ->
  agree s (Exec.bind m f) (Js.bind o g).
Proof.
  intros Hm H. destruct o as [a|]; cbn [Js.bind].
  - now apply (agree_read s m a).
  - now apply agree_throws.
Qed.

Lemma agree_bind_known {A B : Type} (s : Exec.Store) (m : Exec.M A)
  (o : option A) (f : A -> Exec.M B) (g : A -> option B) :
  agree s m o -> (forall a, o = Some a -> agree s (f a) (g a)) ->
  agree s (Exec.bind m f) (Js.bind o g).
Proof.
  intros Hm H. destruct o as [a|]; cbn [Js.bind].
  - apply (agree_read s m a); [exact Hm|]. now apply H.
  - now apply agree_throws.
Qed.

Lemma mapM_pairs_keys {A : Type} (f : string -> option A)
  (keys : list string) (ps : list (string * A)) :
  Js.mapM (fun key => Js.bind (f key) (fun acc => Some (key, acc))) keys
  = Some ps ->
  map fst ps = keys.
Proof.
  revert ps. induction keys as [|k r IH]; intros ps H; cbn [Js.mapM] in H.
  - now injection H as <-.
  - destruct (f k) as [a|]; [|discriminate]. cbn [Js.bind] in H.
    destruct (Js.mapM _ r) as [qs|] eqn:E; [|discriminate].
    cbn [Js.bind] in H. injection H as <-. cbn [map fst]. f_equal.
    now apply IH.
Qed.

Lemma agree_mapM {A A' B : Type} (s : Exec.Store) (R : A -> A' -> Prop)
  (f : A -> Exec.M B) (g : A' -> option B) (l : list A) (l' : list A') :
  Forall2 R l l' ->
  (forall x x', In x l -> R x x' -> agree s (f x) (g x')) ->
  agree s (Exec.mapM f l) (Js.mapM g l').
Proof.
  induction 1 as [|x x' r r' Hx Hr IH]; intros H; cbn [Exec.mapM Js.mapM].
  - apply agree_ret.
  - apply agree_bind; [apply H; [now left|exact Hx]|]. intros y.
    apply agree_bind; [apply IH; intros; apply H; [now right|assumption]|].
    intros ys. apply agree_ret.
Qed.

Lemma agree_foldM {A A' B : Type} (s : Exec.Store) (R : A -> A' -> Prop)
  (f : B -> A -> Exec.M B) (g : B -> A' -> option B) (l : list A) (l' : list A')
  (b : B) :
  Forall2 R l l' ->
  (forall b x x', In x l -> R x x' -> agree s (f b x) (g b x')) ->
  agree s (Exec.foldM f l b) (Js.foldM g l' b).
Proof.
  intros HF. revert b. induction HF as [|x x' r r' Hx Hr IH]; intros b H;
    cbn [Exec.foldM Js.foldM].
  - apply agree_ret.
  - apply agree_bind; [apply H; [now left|exact Hx]|]. intros b'.
    apply IH. intros; apply H; [now right|assumption].
Qed.

Lemma runs_every {A A' : Type} (s : Exec.Store) (R : A -> A' -> Prop)
  (p : A -> Exec.M bool) (q : A' -> bool) (l : list A) (l' : list A') :
  Forall2 R l l' ->
  (forall x x', R x x' -> runs s (p x) (q x')) ->
  runs s (Exec.every p l) (forallb q l').
Proof.
  intros HF H. induction HF as [|x x' r r' Hx Hr IH]; cbn [Exec.every forallb].
  - reflexivity.
  - unfold runs. rewrite (runs_bind s _ _ _ (H x x' Hx)).
    destruct (q x'); [exact IH|reflexivity].
Qed.

Lemma runs_mapM {A A' B : Type} (s : Exec.Store) (R : A -> A' -> Prop)
  (f : A -> Exec.M B) (g : A' -> B) (l : list A) (l' : list A') :
  Forall2 R l l' ->
  (forall x x', R x x' -> runs s (f x) (g x')) ->
  runs s (Exec.mapM f l) (map g l').
Proof.
  intros HF H. induction HF as [|x x' r r' Hx Hr IH]; cbn [Exec.mapM map].
  - reflexivity.
  - unfold runs. rewrite (runs_bind s _ _ _ (H x x' Hx)).
    now rewrite (runs_bind s _ _ _ IH).
Qed.

Lemma mapM_Forall2 {A B : Type} (f : A -> option B) (l : list A)
  (ys : list B) :
  Js.mapM f l = Some ys -> Forall2 (fun x y => f x = Some y) l ys.
Proof.
  revert ys. induction l as [|a r IH]; intros ys H; cbn [Js.mapM] in H.
  - injection H as <-. constructor.
  - destruct (f a) as [b|] eqn:Ea; [|discriminate]. cbn [Js.bind] in H.
    destruct (Js.mapM f r) as [bs|]; [|discriminate]. cbn [Js.bind] in H.
    injection H as <-. constructor; [exact Ea|now apply IH].
Qed.

(** ** A stored value and the tree it denotes *)

Lemma treeOf_unfold (n : nat) (h : list Exec.HeapObject) (v : Exec.Stored) :
  Exec.treeOf n h v
  = match v with
    | Exec.SNull => Some VNull
    | Exec.SUndefined => Some VUndefined
    | Exec.SBoolean b => Some (VBoolean b)
    | Exec.SNumber x => Some (VNumber x)
    | Exec.SString x => Some (VString x)
    | Exec.SSymbol d => Some (VSymbol d)
    | Exec.SBigInt z => Some (VBigInt z)
    | Exec.SFunction => Some VFunction
    | Exec.SHost tag => Some (VHost tag)
    | Exec.SRef a =>
        match n with
        | O => None
        | S m =>
            match nth a h (Exec.HObject []) with
            | Exec.HArray elems => option_map VArray (Js.mapM (Exec.treeOf m h) elems)
            | Exec.HObject props =>
                option_map VObject
                  (Js.mapM (fun p => option_map (pair (fst p))
                                       (Exec.treeOf m h (snd p)))
                     props)
            end
        end
    end.
Proof. destruct n, v; reflexivity. Qed.

Section Views.

Variable s : Exec.Store.

Local Abbreviation denotes := (denotesIn s).
Local Abbreviation denotesProp := (denotesPropIn s).

Lemma denotes_cases (n : nat) (v : Exec.Stored) (t : Value) :
  denotes n v t ->
  leafCase v t
  \/ exists m a, n = S m /\ v = Exec.SRef a
       /\ ((exists elems trees,
              t = VArray trees /\ runs s (Exec.elements v) elems
              /\ runs s (Exec.isArray v) true
              /\ Forall2 (denotes m) elems trees)
           \/ (exists props props',
                 t = VObject props' /\ runs s (Exec.ownProps v) props
                 /\ runs s (Exec.isArray v) false
                 /\ Forall2 (denotesProp m) props props')).
Proof.
  unfold denotesIn, leafCase. intros H.
  destruct v; try (left; rewrite treeOf_unfold in H; split;
                   [discriminate|exact H]).
  right. destruct n as [|m]; [discriminate|]. exists m, a.
  split; [reflexivity|]. split; [reflexivity|].
  rewrite treeOf_ref in H. unfold runs.
  cbn [Exec.elements Exec.ownProps Exec.isArray].
  unfold Exec.bind, Exec.deref, Exec.ret. cbn [fst snd].
  destruct (nth a (Exec.heap s) (Exec.HObject [])) as [elems|props].
  - left. destruct (Js.mapM _ elems) as [trees|] eqn:E; [|discriminate].
    injection H as <-. exists elems, trees.
    repeat split. now apply mapM_Forall2.
  - right. destruct (Js.mapM _ props) as [props'|] eqn:E; [|discriminate].
    injection H as <-. exists props, props'.
    repeat split.
    apply mapM_Forall2 in E.
    induction E as [|p q r r' Hp Hr IH]; constructor; [|exact IH].
    destruct (Exec.treeOf m (Exec.heap s) (snd p)) as [t'|] eqn:Et;
      [|discriminate].
    injection Hp as <-. split; [reflexivity|exact Et].
Qed.

Ltac leaf_cases H v :=
  destruct H as [_ H]; destruct v; try discriminate; injection H as <-.

Lemma typeof_tree (n : nat) (v : Exec.Stored) (t : Value) :
  denotes n v t -> Exec.typeof v = typeof t.
Proof.
  intros H. destruct (denotes_cases n v t H) as [Hl|[m [a [_ [-> Hm]]]]].
  - leaf_cases Hl v; reflexivity.
  - destruct Hm as [[elems [trees [-> _]]]|[props [props' [-> _]]]];
      reflexivity.
Qed.

Lemma truthy_tree (n : nat) (v : Exec.Stored) (t : Value) :
  denotes n v t -> Exec.truthy v = truthy t.
Proof.
  intros H. destruct (denotes_cases n v t H) as [Hl|[m [a [_ [-> Hm]]]]].
  - leaf_cases Hl v; reflexivity.
  - destruct Hm as [[elems [trees [-> _]]]|[props [props' [-> _]]]];
      reflexivity.
Qed.

Lemma isObjectLike_tree (n : nat) (v : Exec.Stored) (t : Value) :
  denotes n v t -> Exec.isObjectLike v = isObjectLike t.
Proof.
  intros H. unfold Exec.isObjectLike, isObjectLike.
  now rewrite (typeof_tree n v t H), (truthy_tree n v t H).
Qed.

Lemma isArray_tree (n : nat) (v : Exec.Stored) (t : Value) :
  denotes n v t -> runs s (Exec.isArray v) (isArray t).
Proof.
  intros H. destruct (denotes_cases n v t H) as [Hl|[m [a [_ [_ Hm]]]]].
  - leaf_cases Hl v; reflexivity.
  - destruct Hm as [[elems [trees [-> [_ [Ha _]]]]]
                   |[props [props' [-> [_ [Ha _]]]]]]; exact Ha.
Qed.

Lemma isPlainObject_tree (n : nat) (v : Exec.Stored) (t : Value) :
  denotes n v t -> runs s (Exec.isPlainObject v) (isPlainObject t).
Proof.
  intros H. unfold Exec.isPlainObject, isPlainObject.
  rewrite (isObjectLike_tree n v t H).
  destruct (isObjectLike t); [|reflexivity].
  unfold runs. now rewrite (runs_bind s _ _ _ (isArray_tree n v t H)).
Qed.

Lemma ownProps_tree (n : nat) (v : Exec.Stored) (t : Value) :
  denotes n v t -> isArray t = false ->
  exists props,
    runs s (Exec.ownProps v) props
    /\ Forall2 (denotesProp (pred n)) props (ownProps t).
Proof.
  intros H Harr. destruct (denotes_cases n v t H) as [Hl|[m [a [-> [_ Hm]]]]].
  - exists []. leaf_cases Hl v; (split; [reflexivity|constructor]).
  - destruct Hm as [[elems [trees [-> _]]]|[props [props' [-> [Hp [_ HF]]]]]];
      [discriminate|].
    exists props. split; [exact Hp|exact HF].
Qed.

Lemma elements_tree (n : nat) (v : Exec.Stored) (t : Value) :
  denotes n v t -> isArray t = true ->
  exists elems trees,
    t = VArray trees /\ runs s (Exec.elements v) elems
    /\ Forall2 (denotes (pred n)) elems trees.
Proof.
  intros H Harr. destruct (denotes_cases n v t H) as [Hl|[m [a [-> [_ Hm]]]]].
  - leaf_cases Hl v; discriminate.
  - destruct Hm as [[elems [trees [-> [He [_ HF]]]]]|[props [props' [-> _]]]];
      [|discriminate].
    now exists elems, trees.
Qed.

Lemma hasOwn_tree (n : nat) (props : list (string * Exec.Stored))
  (props' : list (string * Value)) (key : string) :
  Forall2 (denotesProp n) props props' ->
  Exec.hasOwnIn props key = existsb (fun p => String.eqb (fst p) key) props'.
Proof.
  unfold Exec.hasOwnIn. induction 1 as [|p q r r' [Hk _] _ IH]; [reflexivity|].
  cbn [existsb]. now rewrite Hk, IH.
Qed.

Lemma getProp_tree (n : nat) (props : list (string * Exec.Stored))
  (props' : list (string * Value)) (key : string) :
  Forall2 (denotesProp n) props props' ->
  Exec.hasOwnIn props key = true ->
  denotes n (Exec.getPropIn props key)
    (match find (fun p => String.eqb (fst p) key) props' with
     | Some p => snd p
     | None => VUndefined
     end).
Proof.
  unfold Exec.hasOwnIn, Exec.getPropIn.
  induction 1 as [|p q r r' [Hk Ht] _ IH]; [discriminate|].
  cbn [existsb find]. rewrite <- Hk.
  destruct (String.eqb (fst p) key); [intros _; exact Ht|exact IH].
Qed.

Lemma every_isArray_tree (n : nat) (elems : list Exec.Stored) (trees : list Value) :
  Forall2 (denotes n) elems trees ->
  runs s (Exec.every Exec.isArray elems) (forallb isArray trees).
Proof.
  intros H. apply (runs_every s (denotes n)); [exact H|].
  intros; now apply (isArray_tree n).
Qed.

Lemma every_isPlainObject_tree (n : nat) (elems : list Exec.Stored)
  (trees : list Value) :
  Forall2 (denotes n) elems trees ->
  runs s (Exec.every Exec.isPlainObject elems) (forallb isPlainObject trees).
Proof.
  intros H. apply (runs_every s (denotes n)); [exact H|].
  intros; now apply (isPlainObject_tree n).
Qed.

Lemma Forall2_length_eq {A B : Type} (R : A -> B -> Prop) (l : list A)
  (l' : list B) : Forall2 R l l' -> List.length l = List.length l'.
Proof. induction 1; simpl; congruence. Qed.

Lemma objectKeys_tree (n : nat) (props : list (string * Exec.Stored))
  (props' : list (string * Value)) :
  Forall2 (denotesProp n) props props' -> map fst props = map fst props'.
Proof. induction 1 as [|p q r r' [Hk _] _ IH]; simpl; congruence. Qed.

Lemma collectAllKeys_tree (n : nat) (arr : list Exec.Stored) (trees : list Value) :
  Forall2 (denotes n) arr trees ->
  runs s (Exec.collectAllKeys arr) (collectAllKeys trees).
Proof.
  intros H. unfold Exec.collectAllKeys, collectAllKeys.
  unfold runs.
  rewrite (runs_bind s _ _
             (map (fun obj => if isPlainObject obj then objectKeys obj else [])
                trees)).
  - now rewrite flat_map_concat_map.
  - apply (runs_mapM s (denotes n)); [exact H|]. intros v t Hv.
    unfold runs. rewrite (runs_bind s _ _ _ (isPlainObject_tree n v t Hv)).
    destruct (isPlainObject t) eqn:Ep; [|reflexivity].
    assert (Harr : isArray t = false).
    { unfold isPlainObject in Ep. apply andb_true_iff in Ep.
      now apply negb_true_iff. }
    destruct (ownProps_tree n v t Hv Harr) as [props [Hp HF]].
    rewrite (runs_bind s _ _ _ Hp). unfold objectKeys.
    now rewrite (objectKeys_tree _ _ _ HF).
Qed.

Lemma denotes_mono (n : nat) (v : Exec.Stored) (t : Value) :
  denotes (pred n) v t -> denotes n v t.
Proof.
  unfold denotesIn. destruct n as [|n]; [tauto|]. apply treeOf_mono.
Qed.

Lemma denotes_list_mono (n : nat) (elems : list Exec.Stored)
  (trees : list Value) :
  Forall2 (denotes (pred n)) elems trees -> Forall2 (denotes n) elems trees.
Proof.
  induction 1; constructor; [now apply denotes_mono|assumption].
Qed.

(** ** The merge, given what each key collects *)

Lemma mergeObjectArrayTypes_body_agrees
  (inferType_rec :
     Exec.Stored -> JsNumber -> TypeDetectiveMode -> Exec.M string)
  (mergeObjectArrayTypes_rec :
     list Exec.Stored -> JsNumber -> TypeDetectiveMode -> Exec.M string)
  (inferType_tree : Value -> nat -> TypeDetectiveMode -> option string)
  (mergeObjectArrayTypes_tree :
     list Value -> nat -> TypeDetectiveMode -> option string)
  (n : nat) (indentLevel : JsNumber) (level : nat) (md : TypeDetectiveMode)
  (arr : list Exec.Stored) (trees : list Value) :
  Forall2 (denotes n) arr trees ->
  Js.repeat (_computedIndent (Exec.config s)) indentLevel
  = Some (repeatStr (_computedIndent (Exec.config s)) level) ->
  Js.repeat (_computedIndent (Exec.config s)) (add1 indentLevel)
  = Some (repeatStr (_computedIndent (Exec.config s)) (level + 1)) ->
  (forall key,
      agree s
        (Exec.collectKey inferType_rec mergeObjectArrayTypes_rec
           arr indentLevel md key)
        (collectKey inferType_tree mergeObjectArrayTypes_tree
           trees level md key)) ->
  agree s
    (Exec.mergeObjectArrayTypes_body inferType_rec mergeObjectArrayTypes_rec
       arr indentLevel md)
    (mergeObjectArrayTypes_body (Exec.config s) inferType_tree
       mergeObjectArrayTypes_tree trees level md).
Proof.
  intros HF H0 H1 Hkey.
  unfold Exec.mergeObjectArrayTypes_body, mergeObjectArrayTypes_body.
  apply (agree_read s _ (Exec.config s)); [reflexivity|].
  rewrite H0, H1.
  apply (agree_read s _ (repeatStr (_computedIndent (Exec.config s)) level));
    [reflexivity|].
  apply (agree_read s _
           (repeatStr (_computedIndent (Exec.config s)) (level + 1)));
    [reflexivity|].
  rewrite (Forall2_length_eq _ _ _ HF).
  destruct (List.length trees =? 0); [apply agree_ret|].
  apply (agree_read s _ (collectAllKeys trees));
    [now apply (collectAllKeys_tree n)|].
  cbv zeta. apply agree_bind_known.
  - apply (agree_mapM s eq).
    + clear. induction (collectAllKeys trees); constructor; auto.
    + intros key ? _ <-. apply agree_bind; [apply Hkey|].
      intros; apply agree_ret.
  - intros properties Hprops. apply mapM_pairs_keys in Hprops.
    destruct (_ =? 0); [apply agree_ret|].
    apply agree_bind; [|intros; apply agree_ret].
    apply (agree_foldM s eq).
    + clear. induction (Js.sort (collectAllKeys trees)); constructor; auto.
    + intros output key ? Hk <-. apply (proj1 (sort_In _ _)) in Hk.
      destruct (recordGet_mapped
                  (fun _ => {| types := []; presentCount := 0 |})
                  properties (collectAllKeys trees) key Hprops Hk)
        as [acc ->].
      cbn [Js.bind]. apply agree_ret.
Qed.

(** Values that are no references have no property to collect. *)
Lemma collectKey_leaves_agrees
  (inferType_rec :
     Exec.Stored -> JsNumber -> TypeDetectiveMode -> Exec.M string)
  (mergeObjectArrayTypes_rec :
     list Exec.Stored -> JsNumber -> TypeDetectiveMode -> Exec.M string)
  (inferType_tree : Value -> nat -> TypeDetectiveMode -> option string)
  (mergeObjectArrayTypes_tree :
     list Value -> nat -> TypeDetectiveMode -> option string)
  (indentLevel : JsNumber) (level : nat) (md : TypeDetectiveMode)
  (arr : list Exec.Stored) (trees : list Value) (key : string) :
  Forall2 (denotes 0) arr trees ->
  agree s
    (Exec.collectKey inferType_rec mergeObjectArrayTypes_rec
       arr indentLevel md key)
    (collectKey inferType_tree mergeObjectArrayTypes_tree trees level md key).
Proof.
  intros HF. unfold Exec.collectKey, collectKey.
  apply (agree_foldM s (denotes 0)); [exact HF|].
  intros acc obj t _ Hobj.
  apply (agree_read s _ (isPlainObject t));
    [now apply (isPlainObject_tree 0)|].
  destruct (denotes_cases 0 obj t Hobj) as [Hl|[m [a [Em _]]]]; [|discriminate].
  leaf_cases Hl obj;
    (destruct (isPlainObject _); [|apply agree_ret]);
    (apply (agree_read s _ []); [reflexivity|]); apply agree_ret.
Qed.

(** ** One activation *)

(** A value that is no reference makes no nested call. *)
Lemma inferType_leaf_agrees
  (inferType_rec :
     Exec.Stored -> JsNumber -> TypeDetectiveMode -> Exec.M string)
  (mergeObjectArrayTypes_rec :
     list Exec.Stored -> JsNumber -> TypeDetectiveMode -> Exec.M string)
  (inferType_tree : Value -> nat -> TypeDetectiveMode -> option string)
  (mergeObjectArrayTypes_tree :
     list Value -> nat -> TypeDetectiveMode -> option string)
  (indentLevel : JsNumber) (level : nat) (md : TypeDetectiveMode)
  (v : Exec.Stored) (t : Value) :
  denotes 0 v t ->
  Js.repeat (_computedIndent (Exec.config s)) indentLevel
  = Some (repeatStr (_computedIndent (Exec.config s)) level) ->
  Js.repeat (_computedIndent (Exec.config s)) (add1 indentLevel)
  = Some (repeatStr (_computedIndent (Exec.config s)) (level + 1)) ->
  agree s
    (Exec.inferType_body inferType_rec mergeObjectArrayTypes_rec
       v indentLevel md)
    (inferType_body (Exec.config s) inferType_tree mergeObjectArrayTypes_tree
       t level md).
Proof.
  intros Hv H0 H1. unfold Exec.inferType_body.
  apply (agree_read s _ (Exec.config s)); [reflexivity|].
  rewrite H0, H1.
  apply (agree_read s _ (repeatStr (_computedIndent (Exec.config s)) level));
    [reflexivity|].
  apply (agree_read s _
           (repeatStr (_computedIndent (Exec.config s)) (level + 1)));
    [reflexivity|].
  destruct (denotes_cases 0 v t Hv) as [Hl|[m [a [Em _]]]]; [|discriminate].
  leaf_cases Hl v; try apply agree_ret.
  unfold inferType_body. cbn [Exec.typeof typeof].
  repeat match goal with
         | |- agree s (if ?c then _ else _) _ => destruct c
         end; try apply agree_ret.
  apply (agree_read s _ false); [reflexivity|].
  destruct (String.eqb tag "object"); apply agree_ret.
Qed.

Section BodiesAgree.

Variable inferType_rec :
  Exec.Stored -> JsNumber -> TypeDetectiveMode -> Exec.M string.
Variable mergeObjectArrayTypes_rec :
  list Exec.Stored -> JsNumber -> TypeDetectiveMode -> Exec.M string.
Variable inferType_tree : Value -> nat -> TypeDetectiveMode -> option string.
Variable mergeObjectArrayTypes_tree :
  list Value -> nat -> TypeDetectiveMode -> option string.

Variable n : nat.
Variable indentLevel : JsNumber.
Variable level : nat.
Variable md : TypeDetectiveMode.

Local Abbreviation cfg := (Exec.config s).
Local Abbreviation indent := (repeatStr (_computedIndent cfg) level).
Local Abbreviation nextIndent := (repeatStr (_computedIndent cfg) (level + 1)).

Hypothesis infer_below : forall c tc,
  denotes n c tc ->
  agree s (inferType_rec c (add1 indentLevel) md)
    (inferType_tree tc (level + 1) md).
Hypothesis merge_below : forall arr trees,
  Forall2 (denotes n) arr trees ->
  agree s (mergeObjectArrayTypes_rec arr (add1 indentLevel) md)
    (mergeObjectArrayTypes_tree trees (level + 1) md).

Lemma inferArrayOfArrays_agrees elems trees :
  Forall2 (denotes n) elems trees ->
  agree s
    (Exec.inferArrayOfArrays inferType_rec elems indent nextIndent
       indentLevel md)
    (inferArrayOfArrays cfg inferType_tree trees level md).
Proof.
  intros HF. unfold Exec.inferArrayOfArrays, inferArrayOfArrays.
  apply agree_bind.
  - apply (agree_mapM s (denotes n)); [exact HF|]. intros; now apply infer_below.
  - intros subArrayTypes. apply (agree_read s _ cfg); [reflexivity|].
    destruct md; cbv zeta.
    + destruct (isPostfix cfg); apply agree_ret.
    + destruct (existsb _ _), (isPostfix cfg); apply agree_ret.
Qed.

Lemma inferArrayOfObjects_agrees elems trees :
  Forall2 (denotes n) elems trees ->
  agree s (mergeObjectArrayTypes_rec elems indentLevel md)
    (mergeObjectArrayTypes_tree trees level md) ->
  agree s
    (Exec.inferArrayOfObjects inferType_rec mergeObjectArrayTypes_rec
       elems indent nextIndent indentLevel md)
    (inferArrayOfObjects cfg inferType_tree mergeObjectArrayTypes_tree
       trees level md).
Proof.
  intros HF Hm. unfold Exec.inferArrayOfObjects, inferArrayOfObjects.
  destruct md.
  - apply (agree_read s _ cfg); [reflexivity|].
    destruct (isPostfix cfg); (apply agree_bind; [exact Hm|]);
      intros; apply agree_ret.
  - apply agree_bind.
    + apply (agree_mapM s (denotes n)); [exact HF|].
      intros; now apply infer_below.
    + intros objectTypes. apply (agree_read s _ cfg); [reflexivity|].
      cbv zeta. destruct (existsb _ _), (isPostfix cfg); apply agree_ret.
Qed.

Lemma inferMixedArray_agrees elems trees :
  Forall2 (denotes n) elems trees ->
  agree s
    (Exec.inferMixedArray inferType_rec mergeObjectArrayTypes_rec
       elems indentLevel md)
    (inferMixedArray cfg inferType_tree mergeObjectArrayTypes_tree
       trees level md).
Proof.
  intros HF. unfold Exec.inferMixedArray, inferMixedArray.
  apply agree_bind.
  - apply (agree_mapM s (denotes n)); [exact HF|]. intros el t _ Hel.
    apply (agree_read s _ (isArray t)); [now apply (isArray_tree n)|].
    destruct (isArray t); [now apply infer_below|].
    rewrite (isObjectLike_tree n el t Hel).
    destruct (isObjectLike t); [|now apply infer_below].
    destruct md; [|now apply infer_below].
    apply merge_below. now repeat constructor.
  - intros added. apply (agree_read s _ cfg); [reflexivity|].
    cbv zeta. destruct (isPostfix cfg); apply agree_ret.
Qed.

Lemma inferObject_agrees v t :
  denotes (S n) v t -> isArray t = false ->
  agree s (Exec.inferObject inferType_rec v indent nextIndent indentLevel md)
    (inferObject cfg inferType_tree t level md).
Proof.
  intros Hv Harr. unfold Exec.inferObject, inferObject.
  destruct (ownProps_tree (S n) v t Hv Harr) as [props [Hp HF]].
  apply (agree_read s _ props); [exact Hp|].
  apply agree_bind.
  - apply (agree_foldM s (denotesProp n)); [exact HF|].
    intros properties p q _ [Hk Hq]. rewrite Hk.
    apply agree_bind; [now apply infer_below|]. intros; apply agree_ret.
  - intros properties. cbv zeta. destruct (_ =? 0); apply agree_ret.
Qed.

Lemma contributedType_agrees v t :
  denotes n v t ->
  agree s
    (Exec.contributedType_body inferType_rec mergeObjectArrayTypes_rec
       v indentLevel md)
    (contributedType_body inferType_tree mergeObjectArrayTypes_tree
       t level md).
Proof.
  intros Hv. unfold Exec.contributedType_body, contributedType_body.
  apply (agree_read s _ (isArray t)); [now apply (isArray_tree n)|].
  destruct (isArray t) eqn:Harr.
  - destruct (elements_tree n v t Hv Harr) as [elems [trees [-> [He HF]]]].
    apply (agree_read s _ elems); [exact He|].
    rewrite (Forall2_length_eq _ _ _ HF).
    apply (agree_read s _
             ((0 <? List.length trees) && forallb isPlainObject trees)).
    { destruct (0 <? List.length trees); [|reflexivity].
      now apply (every_isPlainObject_tree (pred n)). }
    destruct ((0 <? List.length trees) && forallb isPlainObject trees).
    + apply agree_bind; [|intros; apply agree_ret].
      apply merge_below. now apply denotes_list_mono.
    + now apply infer_below.
  - rewrite (isObjectLike_tree n v t Hv).
    destruct t; try discriminate;
      (destruct (isObjectLike _);
       [apply merge_below; now repeat constructor|now apply infer_below]).
Qed.

Lemma collectKey_agrees arr trees key :
  Forall2 (denotes (S n)) arr trees ->
  agree s
    (Exec.collectKey inferType_rec mergeObjectArrayTypes_rec
       arr indentLevel md key)
    (collectKey inferType_tree mergeObjectArrayTypes_tree trees level md key).
Proof.
  intros HF. unfold Exec.collectKey, collectKey.
  apply (agree_foldM s (denotes (S n))); [exact HF|].
  intros acc obj t _ Hobj.
  apply (agree_read s _ (isPlainObject t));
    [now apply (isPlainObject_tree (S n))|].
  destruct (isPlainObject t) eqn:Ep; [|apply agree_ret].
  assert (Harr : isArray t = false).
  { unfold isPlainObject in Ep. apply andb_true_iff in Ep.
    now apply negb_true_iff. }
  destruct (ownProps_tree (S n) obj t Hobj Harr) as [props [Hp HP]].
  apply (agree_read s _ props); [exact Hp|]. cbn [andb pred] in *.
  unfold hasOwn. rewrite <- (hasOwn_tree n props (ownProps t) key HP).
  destruct (Exec.hasOwnIn props key) eqn:Eown; [|apply agree_ret].
  apply agree_bind; [|intros; apply agree_ret].
  apply contributedType_agrees. unfold getProp.
  now apply getProp_tree.
Qed.

Lemma inferType_body_agrees v t :
  denotes (S n) v t ->
  Js.repeat (_computedIndent cfg) indentLevel = Some indent ->
  Js.repeat (_computedIndent cfg) (add1 indentLevel) = Some nextIndent ->
  (forall arr trees,
      Forall2 (denotes n) arr trees ->
      agree s (mergeObjectArrayTypes_rec arr indentLevel md)
        (mergeObjectArrayTypes_tree trees level md)) ->
  agree s
    (Exec.inferType_body inferType_rec mergeObjectArrayTypes_rec
       v indentLevel md)
    (inferType_body cfg inferType_tree mergeObjectArrayTypes_tree t level md).
Proof.
  intros Hv H0 H1 Hm0. unfold Exec.inferType_body.
  apply (agree_read s _ cfg); [reflexivity|].
  rewrite H0, H1.
  apply (agree_read s _ indent); [reflexivity|].
  apply (agree_read s _ nextIndent); [reflexivity|].
  destruct (denotes_cases (S n) v t Hv) as [Hl|[m [a [Em [-> Hm]]]]].
  - leaf_cases Hl v; try apply agree_ret.
    unfold inferType_body. cbn [Exec.typeof typeof].
    repeat match goal with
           | |- agree s (if ?c then _ else _) _ => destruct c
           end; try apply agree_ret.
    apply (agree_read s _ false); [reflexivity|].
    destruct (String.eqb tag "object"); [|apply agree_ret].
    now apply inferObject_agrees.
  - injection Em as <-.
    destruct Hm as [[elems [trees [-> [He [Ha HF]]]]]
                   |[props [props' [-> [Hp [Ha HF]]]]]].
    + unfold inferType_body.
      cbn [Exec.typeof typeof String.eqb Ascii.eqb Bool.eqb orb].
      apply (agree_read s _ true); [exact Ha|].
      apply (agree_read s _ elems); [exact He|].
      rewrite (Forall2_length_eq _ _ _ HF).
      destruct (List.length trees =? 0).
      { apply (agree_read s _ cfg); [reflexivity|]. apply agree_ret. }
      apply (agree_read s _ (forallb isArray trees));
        [now apply (every_isArray_tree n)|].
      destruct (forallb isArray trees); [now apply inferArrayOfArrays_agrees|].
      apply (agree_read s _ (forallb isPlainObject trees));
        [now apply (every_isPlainObject_tree n)|].
      destruct (forallb isPlainObject trees).
      * apply inferArrayOfObjects_agrees; [exact HF|now apply Hm0].
      * now apply inferMixedArray_agrees.
    + unfold inferType_body.
      cbn [Exec.typeof typeof String.eqb Ascii.eqb Bool.eqb orb].
      apply (agree_read s _ false); [exact Ha|].
      now apply inferObject_agrees.
Qed.

End BodiesAgree.

Lemma levelsMatch_here (unit : string) (lvl : JsNumber) (k depth : nat) :
  levelsMatch unit lvl k depth ->
  Js.repeat unit lvl = Some (repeatStr unit k).
Proof. intros H. rewrite <- (Nat.add_0_r k). apply (H 0). lia. Qed.

Lemma levelsMatch_next (unit : string) (lvl : JsNumber) (k depth : nat) :
  levelsMatch unit lvl k (S depth) -> levelsMatch unit (add1 lvl) (k + 1) depth.
Proof.
  intros H j Hj. replace (k + 1 + j) with (k + S j) by lia.
  apply (H (S j)). lia.
Qed.

Lemma levelsMatch_less (unit : string) (lvl : JsNumber) (k d1 d2 : nat) :
  d1 <= d2 -> levelsMatch unit lvl k d2 -> levelsMatch unit lvl k d1.
Proof. intros Hd H j Hj. apply H. lia. Qed.

Lemma agree_built (t : string) :
  agree s (Exec.built t) (if fits t then Some t else None).
Proof. unfold Exec.built. destruct (fits t); reflexivity. Qed.

(** On a finite acyclic value, at a level whose indentation is that of a
    nesting count, a call on the store ends as the call on the tree does
    within the same limits: it returns the same text, or both run into a
    limit. *)
Lemma calls_agree (k : nat) :
  (forall n v t lvl level md,
      denotes n v t ->
      levelsMatch (_computedIndent (Exec.config s)) lvl level (n + 1) ->
      agree s (Exec.inferType_fuel k v lvl md)
        (inferType_within k (Exec.config s) t level md))
  /\ (forall n arr trees lvl level md,
        Forall2 (denotes n) arr trees ->
        levelsMatch (_computedIndent (Exec.config s)) lvl level (n + 1) ->
        agree s (Exec.mergeObjectArrayTypes_fuel k arr lvl md)
          (mergeObjectArrayTypes_within k (Exec.config s) trees level md)).
Proof.
  induction k as [|k [IH1 IH2]]; [split; intros; reflexivity|].
  split.
  - intros n v t lvl level md Hv Hlev.
    cbn [Exec.inferType_fuel inferType_within].
    apply agree_bind; [|intros; apply agree_built].
    assert (Hlev1 : levelsMatch (_computedIndent (Exec.config s)) (add1 lvl)
                      (level + 1) n).
    { apply levelsMatch_next. now rewrite Nat.add_1_r in Hlev. }
    destruct n as [|n].
    + apply inferType_leaf_agrees.
      * exact Hv.
      * exact (levelsMatch_here _ _ _ _ Hlev).
      * exact (levelsMatch_here _ _ _ _ Hlev1).
    + apply (inferType_body_agrees _ _ _ _ n).
      * intros c tc Hc. apply (IH1 n); [exact Hc|].
        replace (n + 1) with (S n) by lia. exact Hlev1.
      * intros arr trees HF. apply (IH2 n); [exact HF|].
        replace (n + 1) with (S n) by lia. exact Hlev1.
      * exact Hv.
      * exact (levelsMatch_here _ _ _ _ Hlev).
      * exact (levelsMatch_here _ _ _ _ Hlev1).
      * intros arr trees HF. apply (IH2 n); [exact HF|].
        apply (levelsMatch_less _ _ _ (n + 1) (S n + 1)); [lia|exact Hlev].
  - intros n arr trees lvl level md HF Hlev.
    cbn [Exec.mergeObjectArrayTypes_fuel mergeObjectArrayTypes_within].
    apply agree_bind; [|intros; apply agree_built].
    assert (Hlev1 : levelsMatch (_computedIndent (Exec.config s)) (add1 lvl)
                      (level + 1) n).
    { apply levelsMatch_next. now rewrite Nat.add_1_r in Hlev. }
    apply (mergeObjectArrayTypes_body_agrees _ _ _ _ n).
    + exact HF.
    + exact (levelsMatch_here _ _ _ _ Hlev).
    + exact (levelsMatch_here _ _ _ _ Hlev1).
    + intros key. destruct n as [|n].
      * now apply collectKey_leaves_agrees.
      * apply (collectKey_agrees _ _ _ _ n); [| |exact HF].
        -- intros c tc Hc. apply (IH1 n); [exact Hc|].
           replace (n + 1) with (S n) by lia. exact Hlev1.
        -- intros arr' trees' HF'. apply (IH2 n); [exact HF'|].
           replace (n + 1) with (S n) by lia. exact Hlev1.
Qed.

End Views.

End StoreAgrees.

(* ================================================================== *)
(** * Adding one to an indent level *)
(* ================================================================== *)

Lemma roundHalfEven_integer (q : Q) (N : Z) :
  Qeq q (inject_Z N) -> Js.roundHalfEven q = N.
Proof.
  unfold Qeq, Js.roundHalfEven, inject_Z. cbn [Qnum Qden]. intros H.
  rewrite Z.mul_1_r in H. rewrite H.
  rewrite Z.div_mul by discriminate. rewrite Z.mod_mul by discriminate.
  reflexivity.
Qed.

Lemma pow2_spec (e : Z) :
  (e <= 0)%Z -> Qeq (Js.pow2 e * inject_Z (2 ^ (- e))) 1.
Proof.
  intros He. unfold Js.pow2.
  destruct (0 <=? e)%Z eqn:E.
  - apply Z.leb_le in E. assert (e = 0%Z) by lia. subst e. reflexivity.
  - assert (Hp : (0 < 2 ^ (- e))%Z) by (apply Z.pow_pos_nonneg; lia).
    rewrite Qmult_comm. apply Qmult_inv_r.
    unfold Qeq, inject_Z. cbn [Qnum Qden]. lia.
Qed.

Lemma Qred_inject_Z (z : Z) : Qred (inject_Z z) = inject_Z z.
Proof.
  unfold Qred, inject_Z.
  generalize (Z.ggcd_gcd z 1) (Z.ggcd_correct_divisors z 1).
  destruct (Z.ggcd z 1) as [g [aa bb]]. cbn [fst snd].
  rewrite Z.gcd_1_r. intros -> [Ha Hb].
  rewrite Z.mul_1_l in Ha, Hb. now subst.
Qed.

Lemma toDouble_integer (z : Z) :
  (0 < z < 2 ^ 53)%Z -> Js.toDouble (inject_Z z) = Fin (inject_Z z).
Proof.
  intros Hz. unfold Js.toDouble.
  assert (Hnz : Qeq_bool (inject_Z z) 0 = false).
  { apply not_true_iff_false. intros H. apply Qeq_bool_iff in H.
    unfold Qeq, inject_Z in H. cbn [Qnum Qden] in H. lia. }
  rewrite Hnz.
  assert (Hpos : Qle_bool 0 (inject_Z z) = true).
  { apply Qle_bool_iff. unfold Qle, inject_Z. cbn [Qnum Qden]. lia. }
  rewrite Hpos. cbv zeta.
  set (e := Z.log2 z).
  assert (He : (0 <= e <= 52)%Z).
  { split; [apply Z.log2_nonneg|].
    assert (Z.log2 z < 53)%Z; [|unfold e; lia].
    apply Z.log2_lt_pow2; lia. }
  assert (Hspec : (2 ^ e <= z < 2 ^ (e + 1))%Z).
  { unfold e. replace (Z.log2 z + 1)%Z with (Z.succ (Z.log2 z)) by lia.
    apply Z.log2_spec. lia. }
  assert (Hexp : Js.exponentOf (inject_Z z) = e).
  { unfold Js.exponentOf. cbn [inject_Z Qnum Qden].
    change (Z.log2 1) with 0%Z. rewrite Z.sub_0_r. fold e.
    assert (Hle : Qle_bool (Js.pow2 e) (inject_Z z) = true).
    { apply Qle_bool_iff. unfold Js.pow2.
      replace (0 <=? e)%Z with true by (symmetry; apply Z.leb_le; lia).
      unfold Qle, inject_Z. cbn [Qnum Qden]. lia. }
    unfold inject_Z in Hle |- *. now rewrite Hle. }
  rewrite Hexp. rewrite Z.max_l by lia.
  set (ulp := Js.pow2 (e - 52)).
  set (k := (2 ^ (52 - e))%Z).
  assert (Hk : (0 < k)%Z) by (apply Z.pow_pos_nonneg; lia).
  assert (Hulp : Qeq (ulp * inject_Z k) 1).
  { unfold ulp, k. replace (52 - e)%Z with (- (e - 52))%Z by lia.
    apply pow2_spec. lia. }
  assert (Hulp0 : ~ Qeq ulp 0).
  { intros H0. rewrite H0 in Hulp. rewrite Qmult_0_l in Hulp. discriminate. }
  assert (Hdiv : Qeq (inject_Z z / ulp) (inject_Z (z * k))).
  { rewrite inject_Z_mult. apply Qmult_inj_r with (z := ulp); [exact Hulp0|].
    unfold Qdiv. rewrite <- Qmult_assoc, (Qmult_comm (/ ulp)), Qmult_inv_r
      by exact Hulp0.
    rewrite Qmult_1_r, <- Qmult_assoc, (Qmult_comm (inject_Z k)), Hulp.
    now rewrite Qmult_1_r. }
  rewrite (roundHalfEven_integer _ _ Hdiv).
  assert (Hr : Qred (inject_Z (z * k) * ulp) = inject_Z z).
  { rewrite <- (Qred_inject_Z z). apply Qred_complete.
    rewrite inject_Z_mult, <- Qmult_assoc, (Qmult_comm (inject_Z k)), Hulp.
    apply Qmult_1_r. }
  rewrite Hr.
  assert (Hbig : Qle_bool (Js.pow2 1024) (inject_Z z) = false);
    [|now rewrite Hbig].
  apply not_true_iff_false. intros H. apply Qle_bool_iff in H.
  unfold Js.pow2 in H. cbn [Z.leb Z.compare] in H.
  unfold Qle, inject_Z in H. cbn [Qnum Qden] in H.
  assert (2 ^ 53 < 2 ^ 1024)%Z by (apply Z.pow_lt_mono_r; lia). lia.
Qed.

Lemma add1_integer (z : Z) :
  (0 <= z < 2 ^ 53 - 1)%Z ->
  add1 (Fin (inject_Z z)) = Fin (inject_Z (z + 1)).
Proof.
  intros Hz. unfold add1.
  assert (E : (inject_Z z + 1)%Q = inject_Z (z + 1)).
  { unfold Qplus, inject_Z. cbn [Qnum Qden]. f_equal. lia. }
  rewrite E. apply toDouble_integer. lia.
Qed.

(** The level [j] calls below a nesting count is the nesting count [j]
    further on, adding one being exact there. *)
Lemma levelBelow_integer (j n : nat) :
  (Z.of_nat (n + j) < 2 ^ 53)%Z ->
  Exec.levelBelow (Fin (inject_Z (Z.of_nat n))) j
  = Fin (inject_Z (Z.of_nat (n + j))).
Proof.
  revert n. induction j as [|j IH]; intros n Hn; cbn [Exec.levelBelow].
  - now rewrite Nat.add_0_r.
  - rewrite add1_integer by lia.
    replace (Z.of_nat n + 1)%Z with (Z.of_nat (S n)) by lia.
    rewrite IH by (replace (S n + j) with (n + S j) by lia; exact Hn).
    now replace (S n + j) with (n + S j) by lia.
Qed.

Lemma repeat_integer (unit : string) (n : nat) :
  (Z.of_nat n * Z.of_nat (String.length unit) <= Js.maxStringLength)%Z ->
  Js.repeat unit (Fin (inject_Z (Z.of_nat n))) = Some (repeatStr unit n).
Proof.
  intros H. unfold Js.repeat, truncate, inject_Z. cbn [Qnum Qden].
  rewrite Z.quot_1_r. cbv zeta.
  replace (Z.of_nat n <? 0)%Z with false by (symmetry; apply Z.ltb_ge; lia).
  replace (Js.maxStringLength <? _)%Z with false
    by (symmetry; apply Z.ltb_ge; exact H).
  now rewrite Nat2Z.id.
Qed.

(** At a nesting count, as long as the indentation stays below the longest
    string, the levels are those of the functions on trees. *)
Lemma levelsMatch_integer (unit : string) (level depth : nat) :
  (Z.of_nat (level + depth) < 2 ^ 53)%Z ->
  (Z.of_nat (level + depth) * Z.of_nat (String.length unit)
   <= Js.maxStringLength)%Z ->
  levelsMatch unit (Fin (inject_Z (Z.of_nat level))) level depth.
Proof.
  intros Hexact Hlen j Hj.
  rewrite levelBelow_integer by lia.
  apply repeat_integer. nia.
Qed.

(* ================================================================== *)
(** * Totality, on the store *)
(* ================================================================== *)

Lemma bind_readConfig {B : Type} (f : TypeDetectiveConfig -> Exec.M B)
  (s : Exec.Store) :
  Exec.bind Exec.readConfig f s = f (Exec.config s) s.
Proof. reflexivity. Qed.

Lemma bind_ret {A B : Type} (a : A) (f : A -> Exec.M B) (s : Exec.Store) :
  Exec.bind (Exec.ret a) f s = f a s.
Proof. reflexivity. Qed.

Lemma defaultMode_runs (s : Exec.Store) (md : option TypeDetectiveMode) :
  runs s (Exec.defaultMode md) (orDefault md (mode (Exec.config s))).
Proof. destruct md; reflexivity. Qed.

(** A value of an unrecognized kind yields the token unknown. *)
Lemma unknown_kind_text cfg (tree : Value) (level : nat)
  (md : TypeDetectiveMode) :
  recognizedKind tree = false ->
  inferType cfg tree level md = Some "unknown".
Proof.
  intros Hkind. destruct tree; try discriminate.
  rewrite inferType_unfold. unfold inferType_body.
  cbn [typeof]. unfold recognizedKind in Hkind.
  cbn [typeof existsb] in Hkind.
  repeat (apply orb_false_iff in Hkind; destruct Hkind as [?E Hkind]).
  now rewrite E, E0, E1, E2, E3, E4, E5, E6.
Qed.

(** A level [repeat] rejects makes the call throw, whatever the value. *)
Lemma rejected_level_throws (s : Exec.Store) (stack : nat)
  (value : Exec.Stored) (lvl : JsNumber) (md : TypeDetectiveMode) :
  Js.repeat (_computedIndent (Exec.config s)) lvl = None ->
  Exec.inferType_fuel (S stack) value lvl md s = (Exec.Throws RangeError, s).
Proof.
  intros H. cbn [Exec.inferType_fuel]. apply agree_throws.
  unfold Exec.inferType_body. rewrite bind_readConfig, H. reflexivity.
Qed.

(** A tree read to depth [n] is nested no deeper than [n]. *)
Lemma treeOf_height (h : list Exec.HeapObject) (n : nat) :
  forall v t, Exec.treeOf n h v = Some t -> height t <= n.
Proof.
  induction n as [|n IH]; intros v t H; rewrite treeOf_unfold in H.
  - destruct v; try discriminate; injection H as <-; cbn; lia.
  - destruct v; try (injection H as <-; cbn; lia).
    destruct (nth a h (Exec.HObject [])) as [elems|props].
    + destruct (Js.mapM (Exec.treeOf n h) elems) as [ts|] eqn:E;
        [|discriminate].
      injection H as <-. rewrite height_VArray.
      apply mapM_Forall2 in E. apply le_n_S.
      induction E as [|x y l l' Hxy _ IHl]; [cbn; lia|].
      cbn [heightAll fold_right] in *. unfold heightAll in IHl.
      pose proof (IH x y Hxy). lia.
    + destruct (Js.mapM _ props) as [ps|] eqn:E; [|discriminate].
      injection H as <-. cbn [height]. apply le_n_S.
      apply mapM_Forall2 in E.
      induction E as [|x y l l' Hxy _ IHl]; [cbn; lia|].
      cbn [fold_right].
      destruct (Exec.treeOf n h (snd x)) as [t'|] eqn:Et; [|discriminate].
      injection Hxy as <-. cbn [snd].
      pose proof (IH (snd x) t' Et). lia.
Qed.

(** A text a call returns has passed the check on its length. *)
Lemma returned_text_fits (s s' : Exec.Store) (stack : nat)
  (value : Exec.Stored) (lvl : JsNumber) (md : TypeDetectiveMode)
  (text : string) :
  Exec.inferType_fuel stack value lvl md s = (Exec.Returns text, s') ->
  fits text = true.
Proof.
  destruct stack as [|n]; [discriminate|]. cbn [Exec.inferType_fuel].
  unfold Exec.bind.
  destruct (Exec.inferType_body _ _ value lvl md s) as [[t|e] s1];
    [|discriminate].
  unfold Exec.built. destruct (fits t) eqn:E; [|discriminate].
  intros H. injection H as <- _. exact E.
Qed.

(** C9, as the code has it.  On a finite acyclic value of any kind, in
    either mode, a call of [inferType] returns a text and leaves the store
    as it was, when [repeat] builds for the call and the calls nested in it
    the indentation of the nesting counts from [level] on, the call stack
    has room for the nesting of the value, and the texts of the value and
    of its parts fit in a string; the text is the one [inferType] gives on
    the tree, and a value of an unrecognized kind gives the token unknown.
    When [repeat] rejects the indent level, the call throws a RangeError,
    whatever the value.  In every case a call at such levels returns or
    throws a RangeError, as the call on the tree within the same limits
    tells, and a text it returns fits in a string. *)
Theorem inferType_total_in_range :
  (forall (stack depth : nat) (s : Exec.Store) (value : Exec.Stored)
          (tree : Value) (indentLevel : option JsNumber) (level : nat)
          (md : option TypeDetectiveMode),
      Exec.treeOf depth (Exec.heap s) value = Some tree ->
      depth < stack ->
      levelsMatch (_computedIndent (Exec.config s))
        (orDefault indentLevel (Fin 0)) level (depth + 1) ->
      textsFit (Exec.config s) (orDefault md (mode (Exec.config s)))
        depth tree level = true ->
      exists text,
        Exec.inferType stack value indentLevel md s = (Exec.Returns text, s)
        /\ inferType (Exec.config s) tree level
             (orDefault md (mode (Exec.config s))) = Some text
        /\ (recognizedKind tree = false -> text = "unknown"))
  /\ (forall (stack : nat) (s : Exec.Store) (value : Exec.Stored)
             (indentLevel : option JsNumber) (md : option TypeDetectiveMode),
        Js.repeat (_computedIndent (Exec.config s))
          (orDefault indentLevel (Fin 0)) = None ->
        Exec.inferType (S stack) value indentLevel md s
        = (Exec.Throws RangeError, s))
  /\ (forall (stack depth : nat) (s : Exec.Store) (value : Exec.Stored)
             (tree : Value) (lvl : JsNumber) (level : nat)
             (md : TypeDetectiveMode),
        Exec.treeOf depth (Exec.heap s) value = Some tree ->
        levelsMatch (_computedIndent (Exec.config s)) lvl level (depth + 1) ->
        Exec.inferType stack value (Some lvl) (Some md) s
        = (match inferType_within stack (Exec.config s) tree level md with
           | Some text => Exec.Returns text
           | None => Exec.Throws RangeError
           end, s))
  /\ (forall (stack : nat) (s s' : Exec.Store) (value : Exec.Stored)
             (indentLevel : option JsNumber) (md : option TypeDetectiveMode)
             (text : string),
        Exec.inferType stack value indentLevel md s = (Exec.Returns text, s') ->
        fits text = true).
Proof.
  split; [|split; [|split]].
  - intros stack depth s value tree indentLevel level md Ht Hd Hlev Hfit.
    unfold Exec.inferType.
    rewrite (runs_bind s _ _ _ (defaultMode_runs s md)).
    set (m := orDefault md (mode (Exec.config s))) in *.
    pose proof (proj1 (calls_agree s stack) depth value tree
                  (orDefault indentLevel (Fin 0)) level m Ht Hlev) as Hagree.
    pose proof (treeOf_height _ _ _ _ Ht) as Hh.
    rewrite (proj1 (within_limits (Exec.config s) m stack) tree level depth)
      in Hagree; [|lia|exact Hh|exact Hfit].
    destruct (inferType_returns (Exec.config s) tree level m) as [text Htext].
    rewrite Htext in Hagree. exists text.
    split; [exact Hagree|]. split; [exact Htext|].
    intros Hk. rewrite (unknown_kind_text _ tree level m Hk) in Htext.
    now injection Htext as <-.
  - intros stack s value indentLevel md H. unfold Exec.inferType.
    rewrite (runs_bind s _ _ _ (defaultMode_runs s md)).
    now apply rejected_level_throws.
  - intros stack depth s value tree lvl level md Ht Hlev.
    unfold Exec.inferType. cbn [Exec.defaultMode]. rewrite bind_ret.
    cbn [orDefault].
    pose proof (proj1 (calls_agree s stack) depth value tree lvl level md
                  Ht Hlev) as Hagree.
    destruct (inferType_within stack (Exec.config s) tree level md);
      exact Hagree.
  - intros stack s s' value indentLevel md text. unfold Exec.inferType.
    rewrite (runs_bind s _ _ _ (defaultMode_runs s md)).
    apply returned_text_fits.
Qed.

Lemma inferType_total_in_range_witness :
  Exec.treeOf 3 (Exec.heap sampleStore) (Exec.SRef 0) = Some sampleTree
  /\ 3 < 4
  /\ levelsMatch (_computedIndent (Exec.config sampleStore)) (Fin 0) 0 (3 + 1)
  /\ textsFit (Exec.config sampleStore) Merge 3 sampleTree 0 = true
  /\ Exec.inferType 4 (Exec.SRef 0) None None sampleStore
     = (Exec.Returns
          (lines ["{"; "  id: number;";
                  "  tags: (string | Record<string | number | symbol, never>)[];";
                  "}"]),
        sampleStore).
Proof.
  assert (H1 : Exec.treeOf 3 (Exec.heap sampleStore) (Exec.SRef 0)
               = Some sampleTree) by reflexivity.
  assert (H2 : 3 < 4) by lia.
  assert (H3 : levelsMatch (_computedIndent (Exec.config sampleStore))
                 (Fin 0) 0 (3 + 1)).
  { apply (levelsMatch_integer _ 0 (3 + 1)); vm_compute; congruence. }
  assert (H4 : textsFit (Exec.config sampleStore) Merge 3 sampleTree 0 = true)
    by (vm_compute; reflexivity).
  split; [exact H1|]. split; [exact H2|]. split; [exact H3|].
  split; [exact H4|].
  destruct (proj1 inferType_total_in_range 4 3 sampleStore (Exec.SRef 0)
              sampleTree None 0 None H1 H2 H3 H4) as [text [Hrun [Htext _]]].
  rewrite Hrun. vm_compute in Htext. injection Htext as <-. reflexivity.
Defined.

(** C9 as stated fails: with the indent level minus one, [inferType]
    throws a RangeError on the number 1, under the initial configuration
    and with room on the stack; so it does with an infinite level. *)
Lemma inferType_negative_level_counterexample :
  Exec.treeOf 0 [] (Exec.SNumber (Fin (inject_Z 1)))
  = Some (VNumber (Fin (inject_Z 1)))
  /\ Exec.inferType 8 (Exec.SNumber (Fin (inject_Z 1)))
       (Some (Fin (inject_Z (-1)))) None
       {| Exec.config := typeDetectiveConfig; Exec.heap := [] |}
     = (Exec.Throws RangeError,
        {| Exec.config := typeDetectiveConfig; Exec.heap := [] |})
  /\ Exec.inferType 8 (Exec.SNumber (Fin (inject_Z 1))) (Some PosInf) None
       {| Exec.config := typeDetectiveConfig; Exec.heap := [] |}
     = (Exec.Throws RangeError,
        {| Exec.config := typeDetectiveConfig; Exec.heap := [] |})
  /\ ~ (exists text,
          Exec.inferType 8 (Exec.SNumber (Fin (inject_Z 1)))
            (Some (Fin (inject_Z (-1)))) None
            {| Exec.config := typeDetectiveConfig; Exec.heap := [] |}
          = (Exec.Returns text,
             {| Exec.config := typeDetectiveConfig; Exec.heap := [] |})).
Proof.
  split; [reflexivity|]. split; [reflexivity|]. split; [reflexivity|].
  intros [text H]. vm_compute in H. discriminate.
Qed.

(** An indentation that would be longer than the longest string: with the
    unit of two spaces, the level 268435445 makes [repeat] throw. *)
Example inferType_indentation_too_long :
  Exec.inferType 8 (Exec.SNumber (Fin (inject_Z 1)))
    (Some (Fin (inject_Z 268435445))) None
    {| Exec.config := typeDetectiveConfig; Exec.heap := [] |}
  = (Exec.Throws RangeError,
     {| Exec.config := typeDetectiveConfig; Exec.heap := [] |}).
Proof. reflexivity. Qed.

(* ================================================================== *)
(** * Determinism and the store *)
(* ================================================================== *)

Lemma step_inference_keeps (stack : nat) (s : Exec.Store) (c : Exec.Call) :
  Exec.isInference c = true -> snd (Exec.step stack s c) = s.
Proof.
  destruct c; try discriminate; intros _; cbn [Exec.step snd].
  - apply inferType_keeps_store.
  - apply detectType_keeps_store.
Qed.

Lemma run_inference_keeps (stack : nat) (s : Exec.Store)
  (calls : list Exec.Call) :
  snd (Exec.run stack s (filter Exec.isInference calls)) = s.
Proof.
  induction calls as [|c rest IH]; [reflexivity|]. cbn [filter].
  destruct (Exec.isInference c) eqn:E; [|exact IH].
  cbn [Exec.run snd]. now rewrite (step_inference_keeps stack s c E).
Qed.

Lemma setup_keeps_heap (options : list (string * Value)) (s : Exec.Store) :
  Exec.heap (snd (Exec.setupTypeDetective options s)) = Exec.heap s.
Proof.
  unfold Exec.setupTypeDetective, Exec.bind, Exec.readConfig, Exec.writeConfig,
    Exec.orRangeError.
  cbn. destruct (Js.repeat _ _); reflexivity.
Qed.

Lemma step_keeps_heap (stack : nat) (s : Exec.Store) (c : Exec.Call) :
  Exec.heap (snd (Exec.step stack s c)) = Exec.heap s.
Proof.
  destruct c; cbn [Exec.step snd].
  - now rewrite inferType_keeps_store.
  - now rewrite detectType_keeps_store.
  - apply setup_keeps_heap.
  - reflexivity.
Qed.

Lemma run_keeps_heap (stack : nat) (s : Exec.Store) (calls : list Exec.Call) :
  Exec.heap (snd (Exec.run stack s calls)) = Exec.heap s.
Proof.
  revert s. induction calls as [|c rest IH]; intros s; [reflexivity|].
  cbn [Exec.run snd]. now rewrite IH, step_keeps_heap.
Qed.

Lemma run_store (stack : nat) (s : Exec.Store) (calls : list Exec.Call) :
  snd (Exec.run stack s calls)
  = snd (Exec.run stack s
           (filter (fun c => negb (Exec.isInference c)) calls)).
Proof.
  revert s. induction calls as [|c rest IH]; intros s; [reflexivity|].
  cbn [filter]. destruct (Exec.isInference c) eqn:E; cbn [negb].
  - cbn [Exec.run snd]. now rewrite (step_inference_keeps stack s c E).
  - cbn [Exec.run snd]. apply IH.
Qed.

(** The setup of the other mode changes the configuration. *)
Lemma setup_writes (s : Exec.Store) :
  exists options,
    Exec.config (snd (Exec.setupTypeDetective options s)) <> Exec.config s.
Proof.
  destruct (mode (Exec.config s)) eqn:E.
  - exists [("mode", VString "union")]. intros H.
    apply (f_equal mode) in H. rewrite E in H.
    unfold Exec.setupTypeDetective, Exec.bind, Exec.readConfig,
      Exec.writeConfig, Exec.orRangeError in H. cbn in H.
    destruct (Js.repeat _ _); cbn in H; discriminate.
  - exists [("mode", VString "merge")]. intros H.
    apply (f_equal mode) in H. rewrite E in H.
    unfold Exec.setupTypeDetective, Exec.bind, Exec.readConfig,
      Exec.writeConfig, Exec.orRangeError in H. cbn in H.
    destruct (Js.repeat _ _); cbn in H; discriminate.
Qed.

(** The reply depends on the tree the value denotes, not on where the heap
    holds it. *)
Lemma reply_of_tree (stack depth : nat) (s s' : Exec.Store)
  (value value' : Exec.Stored) (tree : Value) (lvl : JsNumber) (level : nat)
  (m : TypeDetectiveMode) :
  Exec.config s' = Exec.config s ->
  Exec.treeOf depth (Exec.heap s) value = Some tree ->
  Exec.treeOf depth (Exec.heap s') value' = Some tree ->
  levelsMatch (_computedIndent (Exec.config s)) lvl level (depth + 1) ->
  fst (Exec.inferType stack value' (Some lvl) (Some m) s')
  = fst (Exec.inferType stack value (Some lvl) (Some m) s).
Proof.
  intros Hcfg Ht Ht' Hlev. unfold Exec.inferType.
  cbn [Exec.defaultMode orDefault]. rewrite !bind_ret.
  pose proof (proj1 (calls_agree s stack) depth value tree lvl level m
                Ht Hlev) as H.
  rewrite <- Hcfg in Hlev.
  pose proof (proj1 (calls_agree s' stack) depth value' tree lvl level m
                Ht' Hlev) as H'.
  rewrite Hcfg in H'.
  destruct (inferType_within stack (Exec.config s) tree level m);
    unfold agree, runs in H, H'; now rewrite H, H'.
Qed.

(** C10: a call of [inferType] or [detectType] leaves the configuration
    object and every array and object of the heap as they were, whether it
    returns or throws; so does any sequence of such calls, after which a
    call of [inferType] replies as it would have before; no call changes
    the heap, and the store after any sequence of calls is the one its
    other calls produce, [setupTypeDetective] being able to change the
    configuration.  Under the same configuration, at the same level (one
    of a nesting count) and in the same mode, the reply is the same for
    every value that denotes the same tree, wherever a heap holds it. *)
Theorem inferType_reads_only (stack : nat) (s : Exec.Store)
  (value : Exec.Stored) (indentLevel : option JsNumber)
  (md : option TypeDetectiveMode) (calls : list Exec.Call) :
  snd (Exec.inferType stack value indentLevel md s) = s
  /\ snd (Exec.detectType stack value indentLevel md s) = s
  /\ snd (Exec.run stack s (filter Exec.isInference calls)) = s
  /\ fst (Exec.step stack
            (snd (Exec.run stack s (filter Exec.isInference calls)))
            (Exec.CallInferType value indentLevel md))
     = Exec.ReplyText (fst (Exec.inferType stack value indentLevel md s))
  /\ Exec.heap (snd (Exec.run stack s calls)) = Exec.heap s
  /\ snd (Exec.run stack s calls)
     = snd (Exec.run stack s
              (filter (fun c => negb (Exec.isInference c)) calls))
  /\ (exists options,
        Exec.config (snd (Exec.setupTypeDetective options s))
        <> Exec.config s)
  /\ (forall (s' : Exec.Store) (value' : Exec.Stored) (depth : nat)
             (tree : Value) (lvl : JsNumber) (level : nat)
             (m : TypeDetectiveMode),
        Exec.config s' = Exec.config s ->
        Exec.treeOf depth (Exec.heap s) value = Some tree ->
        Exec.treeOf depth (Exec.heap s') value' = Some tree ->
        levelsMatch (_computedIndent (Exec.config s)) lvl level (depth + 1) ->
        fst (Exec.inferType stack value' (Some lvl) (Some m) s')
        = fst (Exec.inferType stack value (Some lvl) (Some m) s)).
Proof.
  split; [apply inferType_keeps_store|].
  split; [apply detectType_keeps_store|].
  split; [apply run_inference_keeps|].
  split; [now rewrite run_inference_keeps|].
  split; [apply run_keeps_heap|].
  split; [apply run_store|].
  split; [apply setup_writes|].
  intros s' value' depth tree lvl level m. apply reply_of_tree.
Qed.

Lemma inferType_reads_only_witness :
  Exec.config sampleStoreMoved = Exec.config sampleStore
  /\ Exec.treeOf 3 (Exec.heap sampleStore) (Exec.SRef 0) = Some sampleTree
  /\ Exec.treeOf 3 (Exec.heap sampleStoreMoved) (Exec.SRef 2)
     = Some sampleTree
  /\ levelsMatch (_computedIndent (Exec.config sampleStore)) (Fin 0) 0 (3 + 1)
  /\ fst (Exec.inferType 4 (Exec.SRef 0) (Some (Fin 0)) (Some Merge)
            sampleStore)
     = Exec.Returns
         (lines ["{"; "  id: number;";
                 "  tags: (string | Record<string | number | symbol, never>)[];";
                 "}"])
  /\ fst (Exec.inferType 4 (Exec.SRef 2) (Some (Fin 0)) (Some Merge)
            sampleStoreMoved)
     = Exec.Returns
         (lines ["{"; "  id: number;";
                 "  tags: (string | Record<string | number | symbol, never>)[];";
                 "}"]).
Proof.
  assert (H1 : Exec.config sampleStoreMoved = Exec.config sampleStore)
    by reflexivity.
  assert (H2 : Exec.treeOf 3 (Exec.heap sampleStore) (Exec.SRef 0)
               = Some sampleTree) by reflexivity.
  assert (H3 : Exec.treeOf 3 (Exec.heap sampleStoreMoved) (Exec.SRef 2)
               = Some sampleTree) by reflexivity.
  assert (H4 : levelsMatch (_computedIndent (Exec.config sampleStore))
                 (Fin 0) 0 (3 + 1)).
  { apply (levelsMatch_integer _ 0 (3 + 1)); vm_compute; congruence. }
  assert (H5 : fst (Exec.inferType 4 (Exec.SRef 0) (Some (Fin 0))
                      (Some Merge) sampleStore)
               = Exec.Returns
                   (lines ["{"; "  id: number;";
                           "  tags: (string | Record<string | number | symbol, never>)[];";
                           "}"])) by reflexivity.
  split; [exact H1|]. split; [exact H2|]. split; [exact H3|].
  split; [exact H4|]. split; [exact H5|].
  rewrite (proj2 (proj2 (proj2 (proj2 (proj2 (proj2 (proj2
             (inferType_reads_only 4 sampleStore (Exec.SRef 0)
                (Some (Fin 0)) (Some Merge) [])))))))
             sampleStoreMoved (Exec.SRef 2) 3 sampleTree (Fin 0) 0 Merge
             H1 H2 H3 H4).
  exact H5.
Defined.

(* ================================================================== *)
(** * Array styles *)
(* ================================================================== *)

Lemma inferType_scalar cfg (value : Value) lvl md :
  isScalar value = true ->
  inferType cfg value lvl md = Some (scalarType value).
Proof.
  intros H. rewrite inferType_unfold.
  destruct value; try discriminate; reflexivity.
Qed.

Lemma scalar_not_array (value : Value) :
  isScalar value = true -> isArray value = false.
Proof. destruct value; simpl; congruence. Qed.

Lemma scalar_not_objectLike (value : Value) :
  isScalar value = true -> isObjectLike value = false.
Proof.
  unfold isObjectLike. destruct value; simpl; try congruence;
    intros _; apply andb_false_r.
Qed.

Lemma inferMixedArray_scalars cfg (elems : list Value) lvl md :
  forallb isScalar elems = true ->
  inferMixedArray cfg (inferType cfg) (mergeObjectArrayTypes cfg) elems lvl md
  = Some (if isPostfix cfg
          then wrapPostfix (uniq (map scalarType elems))
          else wrapGeneric (uniq (map scalarType elems))).
Proof.
  intros H. unfold inferMixedArray.
  rewrite (mapM_map _ scalarType).
  - cbn [bind]. destruct (isPostfix cfg); reflexivity.
  - intros x Hx. rewrite forallb_forall in H. specialize (H x Hx).
    rewrite (scalar_not_array x H), (scalar_not_objectLike x H).
    now apply inferType_scalar.
Qed.

Lemma inferType_scalar_array cfg (elems : list Value) lvl md :
  forallb isScalar elems = true ->
  inferType cfg (VArray elems) lvl md
  = Some (if isPostfix cfg then wrapPostfix (scalarElementTypes elems)
          else wrapGeneric (scalarElementTypes elems)).
Proof.
  intros H. rewrite inferType_unfold.
  destruct elems as [|x rest].
  { unfold inferType_body. simpl. destruct (isPostfix cfg); reflexivity. }
  assert (Hx : isScalar x = true) by (simpl in H; now apply andb_true_iff in H).
  change (inferType_body cfg (inferType cfg) (mergeObjectArrayTypes cfg)
            (VArray (x :: rest)) lvl md)
    with (if forallb isArray (x :: rest)
          then inferArrayOfArrays cfg (inferType cfg) (x :: rest) lvl md
          else if forallb isPlainObject (x :: rest)
               then inferArrayOfObjects cfg (inferType cfg)
                      (mergeObjectArrayTypes cfg) (x :: rest) lvl md
               else inferMixedArray cfg (inferType cfg)
                      (mergeObjectArrayTypes cfg) (x :: rest) lvl md).
  cbn [forallb]. unfold isPlainObject at 1.
  rewrite (scalar_not_array x Hx), (scalar_not_objectLike x Hx). cbn [andb].
  now apply inferMixedArray_scalars.
Qed.

(* ================================================================== *)
(** * The string operations on the texts of scalar arrays *)
(* ================================================================== *)

Lemma str_length_app (a b : string) :
  String.length (a ++ b) = String.length a + String.length b.
Proof. induction a as [|x a IH]; simpl; [reflexivity|now rewrite IH]. Qed.

Lemma substring_all (s : string) : substring 0 (String.length s) s = s.
Proof. induction s as [|x s IH]; simpl; [reflexivity|now rewrite IH]. Qed.

Lemma substring_app_head (a b : string) :
  substring 0 (String.length a) (a ++ b) = a.
Proof.
  induction a as [|x a IH]; simpl; [now destruct b|now rewrite IH].
Qed.

Lemma substring_app_tail (a b : string) :
  substring (String.length a) (String.length b) (a ++ b) = b.
Proof.
  induction a as [|x a IH]; simpl; [apply substring_all|exact IH].
Qed.

Lemma endsWith_app (a b : string) : endsWith (a ++ b) b = true.
Proof.
  unfold endsWith. rewrite str_length_app.
  replace (String.length a + String.length b - String.length b)
    with (String.length a) by lia.
  rewrite substring_app_tail, String.eqb_refl.
  rewrite andb_true_r. apply Nat.leb_le. lia.
Qed.

Lemma chars_app (a b : string) :
  list_ascii_of_string (a ++ b)
  = (list_ascii_of_string a ++ list_ascii_of_string b)%list.
Proof. induction a as [|x a IH]; simpl; [reflexivity|now rewrite IH]. Qed.

Lemma oneLine_app (a b : string) : oneLine a -> oneLine b -> oneLine (a ++ b).
Proof.
  unfold oneLine. rewrite chars_app, existsb_app. now intros -> ->.
Qed.

Lemma matchPostfix_app (s : string) :
  oneLine s -> matchPostfix (s ++ "[]") = Some s.
Proof.
  intros H. unfold matchPostfix. rewrite endsWith_app, str_length_app.
  replace (String.length s + String.length "[]" - 2) with (String.length s)
    by (simpl; lia).
  rewrite substring_app_head. now rewrite H.
Qed.

Lemma matchGeneric_app (s : string) :
  s <> "" -> matchGeneric ("Array<" ++ s ++ ">") = Some s.
Proof.
  intros H. unfold matchGeneric.
  assert (Hs : startsWith ("Array<" ++ s ++ ">") "Array<" = true).
  { unfold startsWith. simpl. now destruct (s ++ ">"). }
  rewrite Hs.
  replace ("Array<" ++ s ++ ">") with (("Array<" ++ s) ++ ">")
    by apply str_app_assoc.
  rewrite endsWith_app, !str_length_app.
  assert (Hl : 0 < String.length s) by (destruct s; simpl; [congruence|lia]).
  replace (8 <=? String.length "Array<" + String.length s + String.length ">")
    with true by (symmetry; apply Nat.leb_le; simpl; lia).
  cbn [andb]. f_equal.
  replace (String.length "Array<" + String.length s + String.length ">" - 7)
    with (String.length s) by (simpl; lia).
  rewrite str_app_assoc. simpl. apply substring_app_head.
Qed.

Lemma splitOn_cons_other (c x : ascii) (s : string) :
  Ascii.eqb x c = false ->
  splitOn c (String x s)
  = match splitOn c s with
    | [] => [String x ""]
    | h :: t => String x h :: t
    end.
Proof. intros H. simpl. now rewrite H. Qed.

Lemma splitOn_nonempty (c : ascii) (s : string) : splitOn c s <> [].
Proof.
  induction s as [|x s IH]; simpl; [discriminate|].
  destruct (Ascii.eqb x c); [discriminate|].
  destruct (splitOn c s); [contradiction|discriminate].
Qed.

Lemma splitBar_app (a b : string) :
  barFree a ->
  splitBar (a ++ b)
  = match splitBar b with
    | [] => [a]
    | h :: t => (a ++ h) :: t
    end.
Proof.
  unfold barFree, splitBar. induction a as [|x a IH]; intros H.
  - simpl. destruct (splitOn "|" b) eqn:E; [|reflexivity].
    now apply splitOn_nonempty in E.
  - simpl in H. apply orb_false_iff in H. destruct H as [Hx Ha].
    change (String x a ++ b) with (String x (a ++ b)).
    rewrite splitOn_cons_other by (now rewrite Ascii.eqb_sym).
    rewrite (IH Ha). destruct (splitOn "|" b); reflexivity.
Qed.

Lemma splitBar_barFree (a : string) : barFree a -> splitBar a = [a].
Proof.
  intros H. rewrite <- (str_app_empty_r a) at 1.
  rewrite (splitBar_app a "" H). simpl. now rewrite str_app_empty_r.
Qed.

Lemma trim_leading_space (s : string) : trim (String " " s) = trim s.
Proof. reflexivity. Qed.

Ltac each_name H :=
  unfold scalarNames in H; simpl in H;
  repeat (destruct H as [<-|H]; [|]); try contradiction.

Lemma scalarName_facts (n : string) :
  In n scalarNames ->
  barFree n /\ oneLine n /\ n <> "" /\ trim n = n /\ trim (n ++ " ") = n
  /\ (startsWith n "(" && endsWith n ")") = false.
Proof.
  intros H. each_name H; repeat split; try reflexivity; discriminate.
Qed.

Lemma scalarType_name (value : Value) :
  isScalar value = true -> In (scalarType value) scalarNames.
Proof.
  destruct value; simpl; try discriminate; intros _; tauto.
Qed.

Lemma scalarElementTypes_names (elems : list Value) :
  forallb isScalar elems = true ->
  Forall (fun n => In n scalarNames) (scalarElementTypes elems)
  /\ scalarElementTypes elems <> [].
Proof.
  intros H. destruct elems as [|x rest].
  - split; [repeat constructor; simpl; tauto|discriminate].
  - unfold scalarElementTypes. split.
    + apply Forall_forall. intros n Hn. apply uniq_In, in_map_iff in Hn.
      destruct Hn as [v [<- Hv]]. apply scalarType_name.
      rewrite forallb_forall in H. now apply H.
    + intros E.
      assert (Hin : In (scalarType x) (uniq (map scalarType (x :: rest))))
        by (apply uniq_In; now left).
      now rewrite E in Hin.
Qed.

Lemma join_cons2 (sep a b : string) (l : list string) :
  join sep (a :: b :: l) = a ++ sep ++ join sep (b :: l).
Proof. reflexivity. Qed.

Lemma join_names_oneLine (l : list string) :
  Forall (fun n => In n scalarNames) l -> oneLine (join " | " l).
Proof.
  induction l as [|a [|b l] IH]; intros H.
  - reflexivity.
  - inversion H; subst. now apply scalarName_facts.
  - inversion H; subst. rewrite join_cons2.
    apply oneLine_app; [now apply scalarName_facts|].
    apply oneLine_app; [reflexivity|now apply IH].
Qed.

Lemma join_names_nonempty (l : list string) :
  Forall (fun n => In n scalarNames) l -> l <> [] -> join " | " l <> "".
Proof.
  intros H Hne. destruct l as [|a [|b l]]; [congruence| |].
  - inversion H; subst. now apply scalarName_facts.
  - inversion H as [|? ? Ha _]; subst. rewrite join_cons2.
    apply scalarName_facts in Ha. destruct Ha as [_ [_ [Ha _]]].
    destruct a; [congruence|discriminate].
Qed.

Lemma splitBar_separator (J : string) :
  splitBar (" | " ++ J)
  = " " :: match splitBar J with
           | [] => [" "]
           | h :: t => String " " h :: t
           end.
Proof.
  unfold splitBar. simpl. destruct (splitOn "|" J); reflexivity.
Qed.

Lemma split_join_names (l : list string) :
  Forall (fun n => In n scalarNames) l -> l <> [] ->
  map trim (splitBar (join " | " l)) = l.
Proof.
  induction l as [|a [|b l] IH]; intros H Hne; [congruence| |].
  - inversion H as [|? ? Ha _]; subst. apply scalarName_facts in Ha.
    destruct Ha as [Hb [_ [_ [Ht _]]]].
    change (join " | " [a]) with a. rewrite (splitBar_barFree a Hb).
    simpl. now rewrite Ht.
  - inversion H as [|? ? Ha Hl]; subst.
    specialize (IH Hl ltac:(discriminate)).
    apply scalarName_facts in Ha.
    destruct Ha as [Hb [_ [_ [_ [Ht _]]]]].
    rewrite join_cons2, (splitBar_app a _ Hb), splitBar_separator.
    destruct (splitBar (join " | " (b :: l))) as [|h t] eqn:E.
    { now apply splitOn_nonempty in E. }
    cbn [map]. rewrite Ht, trim_leading_space. f_equal. exact IH.
Qed.

Lemma wrapPostfix_unionBody (l : list string) :
  wrapPostfix l = unionBody l ++ "[]".
Proof.
  destruct l as [|a [|b l]]; try reflexivity;
    unfold wrapPostfix, unionBody; now rewrite !str_app_assoc.
Qed.

Lemma unionBody_oneLine (l : list string) : namesList l -> oneLine (unionBody l).
Proof.
  intros [H Hne]. destruct l as [|a [|b l]]; [congruence| |].
  - inversion H; subst. now apply scalarName_facts.
  - unfold unionBody. apply oneLine_app; [reflexivity|].
    apply oneLine_app; [now apply join_names_oneLine|reflexivity].
Qed.

Lemma trim_bounded (a z : ascii) (cs : list ascii) :
  isWhiteSpace a = false -> isWhiteSpace z = false ->
  trim (string_of_list_ascii (a :: cs ++ [z]))
  = string_of_list_ascii (a :: cs ++ [z]).
Proof.
  intros Ha Hz. unfold trim. rewrite list_ascii_of_string_of_list_ascii.
  f_equal. cbn [dropWhile]. rewrite Ha.
  replace (rev (a :: cs ++ [z])) with (z :: rev (a :: cs))
    by (now rewrite app_comm_cons, rev_unit).
  cbn [dropWhile]. rewrite Hz.
  change (rev (z :: rev (a :: cs))) with (rev (rev (a :: cs)) ++ [z])%list.
  now rewrite rev_involutive.
Qed.

Lemma trim_parenthesized (s : string) : trim ("(" ++ s ++ ")") = "(" ++ s ++ ")".
Proof.
  rewrite <- (string_of_list_ascii_of_string ("(" ++ s ++ ")")).
  change ("(" ++ s ++ ")") with (String "(" (s ++ ")")).
  cbn [list_ascii_of_string]. rewrite chars_app.
  now apply trim_bounded.
Qed.

Lemma slice_parenthesized (s : string) : slice1m1 ("(" ++ s ++ ")") = s.
Proof.
  unfold slice1m1. change ("(" ++ s ++ ")") with (String "(" (s ++ ")")).
  cbn [String.length]. rewrite str_length_app. cbn [String.length substring].
  replace (S (String.length s + 1) - 2) with (String.length s) by lia.
  apply substring_app_head.
Qed.

Lemma parenthesized_ends (s : string) :
  startsWith ("(" ++ s ++ ")") "(" && endsWith ("(" ++ s ++ ")") ")" = true.
Proof.
  replace ("(" ++ s ++ ")") with (("(" ++ s) ++ ")") at 2
    by apply str_app_assoc.
  rewrite endsWith_app, andb_true_r.
  unfold startsWith. simpl. now destruct (s ++ ")").
Qed.

Lemma flatten_unionBody (l : list string) :
  namesList l -> flattenUnionMembers [unionBody l] = l.
Proof.
  intros [H Hne]. unfold flattenUnionMembers. cbn [flat_map]. rewrite app_nil_r.
  destruct l as [|a [|b l]]; [congruence| |].
  - inversion H as [|? ? Ha _]; subst. apply scalarName_facts in Ha.
    destruct Ha as [Hb [_ [_ [Ht [_ Hp]]]]].
    cbn [unionBody]. rewrite Ht, Hp, (splitBar_barFree a Hb).
    cbn [map]. now rewrite Ht.
  - unfold unionBody. rewrite trim_parenthesized, parenthesized_ends,
      slice_parenthesized.
    apply split_join_names; [exact H|discriminate].
Qed.

Lemma flattenUnionMembers_app (l1 l2 : list string) :
  flattenUnionMembers (l1 ++ l2)
  = (flattenUnionMembers l1 ++ flattenUnionMembers l2)%list.
Proof. unfold flattenUnionMembers. apply flat_map_app. Qed.

Lemma flatten_unionBodies (tyss : list (list string)) :
  Forall namesList tyss ->
  flattenUnionMembers (map unionBody tyss) = List.concat tyss.
Proof.
  induction 1 as [|l tyss Hl _ IH]; [reflexivity|].
  change (map unionBody (l :: tyss))
    with ([unionBody l] ++ map unionBody tyss)%list.
  rewrite flattenUnionMembers_app, (flatten_unionBody l Hl), IH. reflexivity.
Qed.

Lemma elementTypes_postfix (tyss : list (list string)) (acc : list string) :
  Forall namesList tyss ->
  fold_left
    (fun elementTypes typeStr =>
       match matchPostfix typeStr with
       | Some m => (elementTypes ++ [m])%list
       | None => (elementTypes ++ [typeStr])%list
       end)
    (map wrapPostfix tyss) acc
  = (acc ++ map unionBody tyss)%list.
Proof.
  intros H. revert acc.
  induction H as [|l tyss Hl _ IH]; intros acc; cbn [map fold_left].
  - now rewrite app_nil_r.
  - rewrite wrapPostfix_unionBody, (matchPostfix_app _ (unionBody_oneLine l Hl)).
    rewrite IH, <- app_assoc. reflexivity.
Qed.

Lemma elementTypes_generic (tyss : list (list string)) (acc : list string) :
  Forall namesList tyss ->
  fold_left
    (fun elementTypes typeStr =>
       match matchGeneric typeStr with
       | Some m => (elementTypes ++ map trim (splitBar m))%list
       | None => (elementTypes ++ [typeStr])%list
       end)
    (map wrapGeneric tyss) acc
  = (acc ++ List.concat tyss)%list.
Proof.
  intros H. revert acc.
  induction H as [|l tyss Hl _ IH]; intros acc; cbn [map fold_left].
  - now rewrite app_nil_r.
  - destruct Hl as [Hn Hne].
    change (wrapGeneric l) with ("Array<" ++ join " | " l ++ ">").
    rewrite (matchGeneric_app _ (join_names_nonempty l Hn Hne)).
    rewrite (split_join_names l Hn Hne), IH, <- app_assoc. reflexivity.
Qed.

Lemma scalarArray_text cfg (sub : Value) lvl md :
  isScalarArray sub = true ->
  inferType cfg sub lvl md
  = Some ((if isPostfix cfg then wrapPostfix else wrapGeneric)
            match sub with
            | VArray xs => scalarElementTypes xs
            | _ => []
            end)
  /\ namesList match sub with
               | VArray xs => scalarElementTypes xs
               | _ => []
               end.
Proof.
  destruct sub; try discriminate. cbn [isScalarArray]. intros H. split.
  - rewrite (inferType_scalar_array cfg elems lvl md H).
    unfold scalarElementTypes. now destruct (isPostfix cfg).
  - now apply scalarElementTypes_names.
Qed.

Lemma inferType_nested_scalar_arrays cfg (elems : list Value) lvl :
  elems <> [] ->
  forallb isScalarArray elems = true ->
  inferType cfg (VArray elems) lvl Merge
  = Some (let deduped := Js.sort (uniq (nestedElementTypes elems)) in
          if isPostfix cfg
          then (if List.length deduped =? 1
                then join "|" deduped ++ "[][]"
                else "(" ++ join "|" deduped ++ ")[][]")
          else "Array<Array<" ++ join "|" deduped ++ ">>").
Proof.
  intros Hne H. rewrite inferType_unfold.
  assert (Harr : forallb isArray elems = true).
  { apply forallb_forall. intros x Hx. rewrite forallb_forall in H.
    specialize (H x Hx). now destruct x. }
  unfold inferType_body. cbn [typeof String.eqb Ascii.eqb Bool.eqb orb].
  replace (List.length elems =? 0) with false
    by (destruct elems; [congruence|reflexivity]).
  rewrite Harr. unfold inferArrayOfArrays.
  set (tyss := map (fun sub => match sub with
                               | VArray xs => scalarElementTypes xs
                               | _ => []
                               end) elems).
  assert (Htyss : Forall namesList tyss).
  { apply Forall_forall. intros l Hl. apply in_map_iff in Hl.
    destruct Hl as [sub [<- Hsub]]. rewrite forallb_forall in H.
    apply (scalarArray_text cfg sub lvl Merge (H sub Hsub)). }
  rewrite (mapM_map _ (fun sub =>
                         (if isPostfix cfg then wrapPostfix else wrapGeneric)
                           match sub with
                           | VArray xs => scalarElementTypes xs
                           | _ => []
                           end)).
  2:{ intros sub Hsub. rewrite forallb_forall in H.
      apply (scalarArray_text cfg sub (lvl + 1) Merge (H sub Hsub)). }
  cbn [bind]. destruct (isPostfix cfg).
  - rewrite <- (map_map _ wrapPostfix). fold tyss.
    rewrite (elementTypes_postfix tyss [] Htyss). cbn [app].
    rewrite (flatten_unionBodies tyss Htyss). reflexivity.
  - rewrite <- (map_map _ wrapGeneric). fold tyss.
    rewrite (elementTypes_generic tyss [] Htyss). reflexivity.
Qed.

Lemma flatObject_prop_scalar (obj : Value) (key : string) :
  isFlatObject obj = true -> hasOwn obj key = true ->
  isScalar (getProp obj key) = true.
Proof.
  destruct obj; try discriminate. unfold hasOwn, getProp. cbn [ownProps isFlatObject].
  intros Hflat Hown.
  destruct (find (fun p => String.eqb (fst p) key) props) as [p|] eqn:E.
  - apply find_some_in in E. rewrite forallb_forall in Hflat. now apply Hflat.
  - apply existsb_exists in Hown. destruct Hown as [p [Hin Hp]].
    now rewrite (find_none _ _ E p Hin) in Hp.
Qed.

Lemma contributedType_scalar cfg (value : Value) lvl md :
  isScalar value = true ->
  contributedType cfg value lvl md = Some (scalarType value).
Proof.
  intros H. unfold contributedType, contributedType_body.
  rewrite (scalar_not_objectLike value H).
  destruct value; try discriminate; now apply inferType_scalar.
Qed.

Lemma mergeObjectArrayTypes_flat_style cfg (arr : list Value) lvl md
  (style : TypeDetectiveArrayStyle) :
  forallb isFlatObject arr = true ->
  mergeObjectArrayTypes (setArrayStyle cfg style) arr lvl md
  = mergeObjectArrayTypes cfg arr lvl md.
Proof.
  intros H. destruct arr as [|o rest] eqn:E.
  { now rewrite !mergeObjectArrayTypes_unfold. }
  rewrite <- E in *.
  assert (Hne : arr <> []) by (subst arr; discriminate).
  rewrite !(mergeObjectArrayTypes_spec _ arr lvl md Hne).
  f_equal. unfold mergedText. cbn [_computedIndent setArrayStyle].
  replace (map (fun key =>
                  (key, List.length (presentIn key arr) <? List.length arr,
                   mergeTypes
                     (contributedTypes (setArrayStyle cfg style) arr lvl md key)))
             (Js.sort (collectAllKeys arr)))
    with (map (fun key =>
                 (key, List.length (presentIn key arr) <? List.length arr,
                  mergeTypes (contributedTypes cfg arr lvl md key)))
            (Js.sort (collectAllKeys arr))); [reflexivity|].
  apply map_ext. intros key. do 2 f_equal. unfold contributedTypes.
  apply map_ext_in. intros obj Hobj. apply filter_In in Hobj.
  destruct Hobj as [Hin Hp]. apply andb_true_iff in Hp. destruct Hp as [_ Hown].
  rewrite forallb_forall in H.
  pose proof (flatObject_prop_scalar obj key (H obj Hin) Hown) as Hs.
  now rewrite !(contributedType_scalar _ _ lvl md Hs).
Qed.

Lemma inferType_flat_objects cfg (elems : list Value) lvl :
  elems <> [] ->
  forallb isFlatObject elems = true ->
  inferType cfg (VArray elems) lvl Merge
  = Some (let merged := textOf (mergeObjectArrayTypes cfg elems lvl Merge) in
          if isPostfix cfg
          then (if startsWith merged "{" then merged ++ "[]"
                else "(" ++ merged ++ ")[]")
          else "Array<" ++ merged ++ ">").
Proof.
  intros Hne H. rewrite inferType_unfold.
  destruct elems as [|x rest] eqn:E; [congruence|]. rewrite <- E in *.
  assert (Hobj : forallb isPlainObject elems = true).
  { apply forallb_forall. intros y Hy. rewrite forallb_forall in H.
    specialize (H y Hy). now destruct y. }
  assert (Harr : forallb isArray elems = false).
  { subst elems. cbn [forallb] in *. apply andb_true_iff in H.
    destruct H as [Hx _]. now destruct x. }
  unfold inferType_body. cbn [typeof String.eqb Ascii.eqb Bool.eqb orb].
  replace (List.length elems =? 0) with false by (subst elems; reflexivity).
  rewrite Harr, Hobj. unfold inferArrayOfObjects.
  destruct (mergeObjectArrayTypes_returns cfg elems lvl Merge) as [merged ->].
  cbn [bind textOf]. now destruct (isPostfix cfg).
Qed.

(** Where toggling the array style changes only the array wrapper, around
    the same element types, for every indent and depth:
    - for an array of scalars (null, undefined, booleans, numbers, strings,
      symbols, bigints, functions), in both modes: one wrapper, [T[]] or
      [(T1 | ... | Tn)[]] against [Array<T1 | ... | Tn>], over the same list
      of element types in the same order;
    - in merge mode, for an array of arrays of scalars: two wrappers, around
      the same sorted, deduplicated element types joined the same way;
    - in merge mode, for an array of objects whose property values are
      scalars: one wrapper around the same merged object type. *)
Theorem style_toggle_rewraps cfg lvl :
  (forall (elems : list Value) md,
      forallb isScalar elems = true ->
      inferType (setArrayStyle cfg Postfix) (VArray elems) lvl md
      = Some (wrapPostfix (scalarElementTypes elems))
      /\ inferType (setArrayStyle cfg Generic) (VArray elems) lvl md
         = Some (wrapGeneric (scalarElementTypes elems)))
  /\ (forall elems : list Value,
        elems <> [] ->
        forallb isScalarArray elems = true ->
        exists sep,
          let deduped := Js.sort (uniq (nestedElementTypes elems)) in
          inferType (setArrayStyle cfg Postfix) (VArray elems) lvl Merge
          = Some (if List.length deduped =? 1
                  then join sep deduped ++ "[][]"
                  else "(" ++ join sep deduped ++ ")[][]")
          /\ inferType (setArrayStyle cfg Generic) (VArray elems) lvl Merge
             = Some ("Array<Array<" ++ join sep deduped ++ ">>"))
  /\ (forall elems : list Value,
        elems <> [] ->
        forallb isFlatObject elems = true ->
        let merged := textOf (mergeObjectArrayTypes cfg elems lvl Merge) in
        inferType (setArrayStyle cfg Postfix) (VArray elems) lvl Merge
        = Some (if startsWith merged "{" then merged ++ "[]"
                else "(" ++ merged ++ ")[]")
        /\ inferType (setArrayStyle cfg Generic) (VArray elems) lvl Merge
           = Some ("Array<" ++ merged ++ ">")).
Proof.
  repeat split.
  - now rewrite inferType_scalar_array.
  - now rewrite inferType_scalar_array.
  - intros elems Hne H. exists "|". cbv zeta.
    now rewrite !(inferType_nested_scalar_arrays _ elems lvl Hne H).
  - rewrite (inferType_flat_objects _ elems lvl H H0).
    cbv zeta. cbn [isPostfix arrayStyle setArrayStyle].
    now rewrite mergeObjectArrayTypes_flat_style.
  - rewrite (inferType_flat_objects _ elems lvl H H0).
    cbv zeta. cbn [isPostfix arrayStyle setArrayStyle].
    now rewrite mergeObjectArrayTypes_flat_style.
Qed.

Lemma style_toggle_rewraps_witness :
  (forallb isScalar [num 1; VString "a"; VBoolean true; num 2] = true
   /\ inferType (setArrayStyle typeDetectiveConfig Postfix)
        (VArray [num 1; VString "a"; VBoolean true; num 2]) 0 Union
      = Some "(number | string | boolean)[]"
   /\ inferType (setArrayStyle typeDetectiveConfig Generic)
        (VArray [num 1; VString "a"; VBoolean true; num 2]) 0 Union
      = Some "Array<number | string | boolean>")
  /\ ([VArray [num 1; VString "a"]; VArray [VBoolean true; num 2]] <> []
      /\ forallb isScalarArray
           [VArray [num 1; VString "a"]; VArray [VBoolean true; num 2]] = true
      /\ exists sep,
           inferType (setArrayStyle typeDetectiveConfig Postfix) nestedMixed
             0 Merge
           = Some ("(" ++ join sep ["boolean"; "number"; "string"] ++ ")[][]")
           /\ inferType (setArrayStyle typeDetectiveConfig Generic) nestedMixed
                0 Merge
              = Some ("Array<Array<" ++ join sep ["boolean"; "number"; "string"]
                        ++ ">>"))
  /\ (sampleUsers <> []
      /\ forallb isFlatObject sampleUsers = true
      /\ inferType (setArrayStyle typeDetectiveConfig Postfix)
           (VArray sampleUsers) 0 Merge
         = Some (lines ["{"; "  email?: string;"; "  id: number;";
                        "  name?: string;"; "}[]"])
      /\ inferType (setArrayStyle typeDetectiveConfig Generic)
           (VArray sampleUsers) 0 Merge
         = Some (lines ["Array<{"; "  email?: string;"; "  id: number;";
                        "  name?: string;"; "}>"])).
Proof.
  split; [|split].
  - split; [reflexivity|].
    exact (proj1 (style_toggle_rewraps typeDetectiveConfig 0)
             [num 1; VString "a"; VBoolean true; num 2] Union eq_refl).
  - assert (H1 : [VArray [num 1; VString "a"]; VArray [VBoolean true; num 2]]
                 <> []) by discriminate.
    split; [exact H1|]. split; [reflexivity|].
    exact (proj1 (proj2 (style_toggle_rewraps typeDetectiveConfig 0))
             [VArray [num 1; VString "a"]; VArray [VBoolean true; num 2]]
             H1 eq_refl).
  - assert (H1 : sampleUsers <> []) by discriminate.
    assert (H2 : forallb isFlatObject sampleUsers = true) by reflexivity.
    split; [exact H1|]. split; [exact H2|].
    exact (proj2 (proj2 (style_toggle_rewraps typeDetectiveConfig 0))
             sampleUsers H1 H2).
Defined.

(** C1, evaluated: in union mode the array [[1], ["a"]] is written with two
    array wrappers around the union of the element types in the postfix
    style, and with three array wrappers, around a union of array types, in
    the generic style; in merge mode the same array gets two wrappers
    around the same element types in both styles. *)
Theorem style_toggle_union_nested_arrays :
  inferType typeDetectiveConfig nestedSingletons 0 Union
  = Some "(number | string)[][]"
  /\ inferType genericConfig nestedSingletons 0 Union
     = Some "Array<Array<number> | Array<string>>"
  /\ arrayWrappers Postfix "(number | string)[][]" = 2
  /\ arrayWrappers Generic "Array<Array<number> | Array<string>>" = 3
  /\ ~ sameWrapperCount
         (inferType typeDetectiveConfig nestedSingletons 0 Union)
         (inferType genericConfig nestedSingletons 0 Union)
  /\ inferType typeDetectiveConfig nestedSingletons 0 Merge
     = Some "(number|string)[][]"
  /\ inferType genericConfig nestedSingletons 0 Merge
     = Some "Array<Array<number|string>>"
  /\ sameWrapperCount
       (inferType typeDetectiveConfig nestedSingletons 0 Merge)
       (inferType genericConfig nestedSingletons 0 Merge).
Proof.
  split; [reflexivity|]. split; [reflexivity|]. split; [reflexivity|].
  split; [reflexivity|]. split; [|split; [reflexivity|split; [reflexivity|]]].
  - intros [p [g [Hp [Hg H]]]].
    vm_compute in Hp, Hg. injection Hp as <-. injection Hg as <-.
    vm_compute in H. discriminate.
  - exists "(number|string)[][]", "Array<Array<number|string>>".
    repeat split; reflexivity.
Qed.

(** In merge mode the postfix pattern does not match a sub-array type that
    spans several lines: the array of one array of one object gets three
    postfix wrappers, and two generic ones. *)
Example nested_object_array_wrappers :
  inferType typeDetectiveConfig nestedObject 0 Merge
  = Some (lines ["{"; "    a: number;"; "  }[][][]"])
  /\ inferType genericConfig nestedObject 0 Merge
     = Some (lines ["Array<Array<{"; "    a: number;"; "  }>>"]).
Proof. split; reflexivity. Qed.

(** C4, evaluated: in merge mode with the postfix style the first scenario
    gives the claimed text, the second one has its union members joined by a
    bare bar; union mode joins them with a spaced bar. *)
Theorem nested_arrays_scenario :
  inferType typeDetectiveConfig nestedNumbers 0 (mode typeDetectiveConfig)
  = Some "number[][]"
  /\ inferType typeDetectiveConfig nestedMixed 0 (mode typeDetectiveConfig)
     = Some "(boolean|number|string)[][]"
  /\ inferType typeDetectiveConfig nestedMixed 0 Union
     = Some "(boolean | number | string)[][]".
Proof. repeat split; reflexivity. Qed.

Lemma plainObjects_not_arrays (elems : list Value) :
  elems <> [] -> forallb isPlainObject elems = true ->
  forallb isArray elems = false.
Proof.
  destruct elems as [|x rest]; [congruence|]. intros _ H.
  cbn [forallb] in *. apply andb_true_iff in H. destruct H as [Hx _].
  unfold isPlainObject in Hx. apply andb_true_iff in Hx.
  destruct Hx as [_ Hx]. apply negb_true_iff in Hx. now rewrite Hx.
Qed.

(** Union mode over objects, when the one distinct element type spans
    several lines: a single array wrapper in the active style. *)
Lemma union_singleton_multiline cfg (elems : list Value) lvl (u : string) :
  elems <> [] ->
  forallb isPlainObject elems = true ->
  uniq (map (fun obj => textOf (inferType cfg obj (lvl + 1) Union)) elems) = [u] ->
  includesNewline u = true ->
  inferType cfg (VArray elems) lvl Union
  = Some (if isPostfix cfg then u ++ "[]"
          else "Array<" ++ nl ++ repeatStr (_computedIndent cfg) (lvl + 1)
                 ++ u ++ nl ++ repeatStr (_computedIndent cfg) lvl ++ ">").
Proof.
  intros Hne Hobj Hu Hnl. rewrite inferType_unfold.
  unfold inferType_body. cbn [typeof String.eqb Ascii.eqb Bool.eqb orb].
  replace (List.length elems =? 0) with false
    by (destruct elems; [congruence|reflexivity]).
  rewrite (plainObjects_not_arrays elems Hne Hobj), Hobj.
  unfold inferArrayOfObjects.
  rewrite (mapM_map _ (fun obj => textOf (inferType cfg obj (lvl + 1) Union)))
    by (intros obj _; apply textOf_Some, inferType_returns).
  cbn [bind]. rewrite Hu. cbn [existsb]. rewrite Hnl. cbn [orb].
  now destruct (isPostfix cfg).
Qed.

(** C5, evaluated: in union mode with the postfix style an array of one
    empty object is left with one distinct element type, and the result has
    the type split at its bars, parenthesized, and two array suffixes; the
    generic style wraps it once. *)
Theorem union_singleton_empty_object :
  inferType typeDetectiveConfig (VObject []) 1 Union
  = Some "Record<string | number | symbol, never>"
  /\ inferType typeDetectiveConfig emptyObjects 0 Union
     = Some "(Record<string | number | symbol, never>)[][]"
  /\ inferType genericConfig emptyObjects 0 Union
     = Some "Array<Record<string | number | symbol, never>>".
Proof. repeat split; reflexivity. Qed.

(* ================================================================== *)
(** * Configuration *)
(* ================================================================== *)

(** C7, evaluated: an infinite indent passes the validation, is stored, and
    the call throws a RangeError before [_computedIndent] is updated. *)
Theorem setup_infinite_indent_throws :
  validIndent (VNumber PosInf) = Some PosInf
  /\ setupTypeDetective [("indent", VNumber PosInf)] typeDetectiveConfig
     = (Throw RangeError, setIndent typeDetectiveConfig PosInf).
Proof. split; reflexivity. Qed.

(** What [setupTypeDetective] stores: each field is replaced exactly when the
    option passes its validation, and keeps its value otherwise. *)
Lemma applyOptions_fields (options : list (string * Value)) cfg :
  let o := VObject options in
  indent (applyOptions options cfg)
  = orDefault (validIndent (getProp o "indent")) (indent cfg)
  /\ indentType (applyOptions options cfg)
     = orDefault (validIndentType (getProp o "indentType")) (indentType cfg)
  /\ arrayStyle (applyOptions options cfg)
     = orDefault (validArrayStyle (getProp o "arrayStyle")) (arrayStyle cfg)
  /\ mode (applyOptions options cfg)
     = orDefault (validMode (getProp o "mode")) (mode cfg)
  /\ _computedIndent (applyOptions options cfg) = _computedIndent cfg.
Proof.
  unfold applyOptions. cbv zeta.
  destruct (validIndent _), (validIndentType _), (validArrayStyle _),
    (validMode _); repeat split; reflexivity.
Qed.

Lemma indentUnit_length (t : TypeDetectiveIndentType) :
  String.length (indentUnit t) = 1.
Proof. destruct t; reflexivity. Qed.

(** [setupTypeDetective] returns exactly when the stored indent is a count
    [repeat] accepts: not infinite, not below zero once truncated, and not
    above the longest string. *)
Lemma setup_returns_iff (options : list (string * Value)) cfg :
  fst (setupTypeDetective options cfg) = Normal
  <-> match indent (applyOptions options cfg) with
      | NaN => True
      | Fin q => (0 <= truncate q <= maxStringLength)%Z
      | _ => False
      end.
Proof.
  unfold setupTypeDetective. cbv zeta. unfold Js.repeat.
  destruct (indent (applyOptions options cfg)) as [| | |q]; cbn [fst];
    try tauto; try (split; [discriminate|contradiction]).
  cbv zeta. rewrite indentUnit_length, Z.mul_1_r.
  destruct (truncate q <? 0)%Z eqn:E; cbn [fst].
  - apply Z.ltb_lt in E. split; [discriminate|lia].
  - apply Z.ltb_ge in E.
    destruct (maxStringLength <? truncate q)%Z eqn:E2; cbn [fst].
    + apply Z.ltb_lt in E2. split; [discriminate|lia].
    + apply Z.ltb_ge in E2. tauto.
Qed.

Lemma truncate_nat (q : Q) (k : nat) :
  Qeq q (inject_Z (Z.of_nat k)) -> truncate q = Z.of_nat k.
Proof.
  unfold Qeq, truncate, inject_Z. simpl. intros H.
  rewrite Z.mul_1_r in H. rewrite H. apply Z.quot_mul. discriminate.
Qed.

(** C8, as the code has it: after a call of [setupTypeDetective] that
    returns, [_computedIndent] is the indent character repeated as many
    times as the integer part of the stored indent, recomputed from the
    stored [indent] and [indentType]; for an integer indent this is exactly
    [indent] repetitions. *)
Theorem computed_indent_after_setup (options : list (string * Value))
  (cfg cfg' : TypeDetectiveConfig) :
  setupTypeDetective options cfg = (Normal, cfg') ->
  Js.repeat (indentUnit (indentType cfg')) (indent cfg')
  = Some (_computedIndent cfg')
  /\ (forall q, indent cfg' = Fin q ->
        _computedIndent cfg'
        = repeatStr (indentUnit (indentType cfg')) (Z.to_nat (truncate q)))
  /\ (forall k, isNat (indent cfg') k ->
        _computedIndent cfg' = repeatStr (indentUnit (indentType cfg')) k).
Proof.
  unfold setupTypeDetective. cbv zeta.
  destruct (Js.repeat _ _) as [s|] eqn:E; [|discriminate].
  intros H. injection H as <-. cbn [indent indentType _computedIndent setComputedIndent].
  split; [exact E|].
  assert (Hq : forall q, indent (applyOptions options cfg) = Fin q ->
                         s = repeatStr
                               (indentUnit (indentType (applyOptions options cfg)))
                               (Z.to_nat (truncate q))).
  { intros q Hq. rewrite Hq in E. unfold Js.repeat in E. cbv zeta in E.
    destruct (truncate q <? 0)%Z; [discriminate|].
    destruct (maxStringLength <? _)%Z; congruence. }
  split; [exact Hq|].
  intros k Hk. unfold isNat in Hk.
  destruct (indent (applyOptions options cfg)) as [| | |q] eqn:Ei;
    try contradiction.
  rewrite (Hq q eq_refl), (truncate_nat q k Hk). now rewrite Nat2Z.id.
Qed.

Lemma computed_indent_after_setup_witness :
  setupTypeDetective [("indent", num 4); ("indentType", VString "tab")]
    typeDetectiveConfig
  = (Normal,
     {| mode := Merge; indent := Fin (inject_Z 4); indentType := Tab;
        _computedIndent := repeatStr tabChar 4; arrayStyle := Postfix |})
  /\ _computedIndent
       {| mode := Merge; indent := Fin (inject_Z 4); indentType := Tab;
          _computedIndent := repeatStr tabChar 4; arrayStyle := Postfix |}
     = repeatStr tabChar 4.
Proof.
  assert (H : setupTypeDetective
                [("indent", num 4); ("indentType", VString "tab")]
                typeDetectiveConfig
              = (Normal,
                 {| mode := Merge; indent := Fin (inject_Z 4);
                    indentType := Tab;
                    _computedIndent := repeatStr tabChar 4;
                    arrayStyle := Postfix |})) by reflexivity.
  split; [exact H|].
  exact (proj2 (proj2 (computed_indent_after_setup _ _ _ H)) 4%nat
           (Qeq_refl _)).
Defined.

(** C8 as stated fails: the indent two and a half is accepted and stored,
    and [_computedIndent] is two spaces, which is no whole number of
    repetitions equal to the stored indent. *)
Lemma computed_indent_counterexample :
  exists cfg',
    setupTypeDetective [("indent", VNumber (Fin (5 # 2)))] typeDetectiveConfig
    = (Normal, cfg')
    /\ indent cfg' = Fin (5 # 2)
    /\ _computedIndent cfg' = "  "
    /\ ~ (exists k, isNat (indent cfg') k
                    /\ _computedIndent cfg'
                       = repeatStr (indentUnit (indentType cfg')) k).
Proof.
  eexists. split; [reflexivity|]. cbn. repeat split.
  intros [k [Hk _]]. unfold Qeq, inject_Z in Hk. simpl in Hk. lia.
Qed.

(* ================================================================== *)
(** * Instances of the merge theorems *)
(* ================================================================== *)

Lemma merge_optional_iff_partial_presence_witness :
  sampleUsers <> []
  /\ forallb isPlainObject sampleUsers = true
  /\ mergeObjectArrayTypes typeDetectiveConfig sampleUsers 0 Merge
     = Some (lines ["{"; "  email?: string;"; "  id: number;";
                    "  name?: string;"; "}"]).
Proof.
  assert (H1 : sampleUsers <> []) by discriminate.
  assert (H2 : forallb isPlainObject sampleUsers = true) by reflexivity.
  split; [exact H1|]. split; [exact H2|].
  rewrite (proj1 (merge_optional_iff_partial_presence typeDetectiveConfig
                    sampleUsers 0 Merge H1 H2)).
  reflexivity.
Defined.

Lemma merge_field_types_commutative_witness :
  rev sampleTagged <> []
  /\ forallb isPlainObject (rev sampleTagged) = true
  /\ Permutation (rev sampleTagged) sampleTagged
  /\ mergeObjectArrayTypes typeDetectiveConfig sampleTagged 0 Merge
     = Some (lines ["{"; "  id: number | string;"; "  tag?: string;"; "}"])
  /\ mergeObjectArrayTypes typeDetectiveConfig (rev sampleTagged) 0 Merge
     = Some (lines ["{"; "  id: number | string;"; "  tag?: string;"; "}"]).
Proof.
  assert (H1 : rev sampleTagged <> []) by discriminate.
  assert (H2 : forallb isPlainObject (rev sampleTagged) = true)
    by reflexivity.
  assert (H3 : Permutation (rev sampleTagged) sampleTagged)
    by apply perm_swap.
  split; [exact H1|]. split; [exact H2|]. split; [exact H3|].
  destruct (merge_field_types_commutative typeDetectiveConfig
              (rev sampleTagged) sampleTagged 0 Merge H1 H2 H3)
    as [fields [_ [_ [_ [_ [_ Hperm]]]]]].
  split; [|reflexivity].
  rewrite Hperm. reflexivity.
Defined.

(** C3 as stated fails: the one object [{ k: { b: 1, a: 2 } }] has its key
    rendered with the object type of the nested value merged again, the
    keys sorted, whereas [inferType] gives for the nested value, at every
    indent level, the keys in their own order. *)
Lemma merge_field_types_counterexample :
  forallb isPlainObject [nestedKeys] = true
  /\ mergeObjectArrayTypes typeDetectiveConfig [nestedKeys] 0 Merge
     = Some (lines ["{"; "  k: {"; "    a: number;"; "    b: number;";
                    "  };"; "}"])
  /\ inferType typeDetectiveConfig (getProp nestedKeys "k") 1 Merge
     = Some (lines ["{"; "    b: number;"; "    a: number;"; "  }"])
  /\ (forall level,
        mergeObjectArrayTypes typeDetectiveConfig [nestedKeys] 0 Merge
        <> Some (lines
                   ["{";
                    "  k: "
                      ++ join " | "
                           (Js.sort
                              (uniq
                                 [textOf
                                    (inferType typeDetectiveConfig
                                       (getProp nestedKeys "k") level
                                       Merge)]))
                      ++ ";";
                    "}"])).
Proof.
  split; [reflexivity|]. split; [reflexivity|]. split; [reflexivity|].
  intros level H.
  assert (E : inferType typeDetectiveConfig (getProp nestedKeys "k") level
                Merge
              = Some ("{" ++ nl
                        ++ repeatStr "  " (level + 1) ++ "b: number;" ++ nl
                        ++ repeatStr "  " (level + 1) ++ "a: number;" ++ nl
                        ++ repeatStr "  " level ++ "}")).
  { change (getProp nestedKeys "k")
      with (VObject [("b", num 1); ("a", num 2)]).
    rewrite inferType_object.
    - cbn [storedProps filter fst snd String.eqb Ascii.eqb Bool.eqb negb map].
      rewrite !inferType_scalar by reflexivity.
      unfold mergedText, fieldLine. cbn [map fst snd textOf String.concat].
      cbn [scalarType]. now rewrite !str_app_assoc.
    - repeat constructor; cbn; intuition discriminate. }
  rewrite E in H. cbn [textOf] in H.
  replace (level + 1) with (S level) in H by lia.
  destruct level as [|[|level]]; vm_compute in H; discriminate.
Qed.

(* ================================================================== *)
(** * Further properties of mergeTypes and mergeObjectArrayTypes *)
(* ================================================================== *)

Lemma uniq_same_members (l1 l2 : list string) :
  (forall x, In x l1 <-> In x l2) -> Permutation (uniq l1) (uniq l2).
Proof.
  intros H. apply NoDup_Permutation; try apply uniq_NoDup.
  intros x. rewrite !uniq_In. apply H.
Qed.

Lemma sort_NoDup (l : list string) : NoDup l -> NoDup (Js.sort l).
Proof.
  intros H. eapply Permutation_NoDup; [|exact H].
  symmetry. apply sort_Permutation.
Qed.

(** X1: [mergeTypes] writes each distinct input once, in ascending
    code-unit order, joined with a spaced bar. *)
Theorem mergeTypes_members (types : list string) :
  exists members,
    mergeTypes types = join " | " members
    /\ StronglySorted leS members
    /\ NoDup members
    /\ (forall t, In t members <-> In t types).
Proof.
  exists (Js.sort (uniq types)). split; [apply mergeTypes_join|].
  split; [apply sort_sorted|]. split; [apply sort_NoDup, uniq_NoDup|].
  intros t. now rewrite sort_In, uniq_In.
Qed.

Lemma mergeTypes_ext (types1 types2 : list string) :
  (forall t, In t types1 <-> In t types2) ->
  mergeTypes types1 = mergeTypes types2.
Proof.
  intros H. rewrite !mergeTypes_join.
  now rewrite (sort_Permutation_eq _ _ (uniq_same_members _ _ H)).
Qed.

(** X2: [mergeTypes] depends only on which texts occur in its input, not on
    their order or multiplicity. *)
Theorem mergeTypes_same_members (types1 types2 : list string) :
  (forall t, In t types1 <-> In t types2) ->
  mergeTypes types1 = mergeTypes types2.
Proof. exact (mergeTypes_ext types1 types2). Qed.

Lemma mergeTypes_same_members_witness :
  (forall t, In t ["string"; "number"; "string"] <-> In t ["number"; "string"])
  /\ mergeTypes ["string"; "number"; "string"] = mergeTypes ["number"; "string"].
Proof.
  assert (H : forall t, In t ["string"; "number"; "string"]
                        <-> In t ["number"; "string"]).
  { intros t. simpl. tauto. }
  split; [exact H|]. exact (mergeTypes_same_members _ _ H).
Defined.

Lemma collectAllKeys_empty (arr : list Value) :
  (forall obj, In obj arr -> isPlainObject obj = true -> objectKeys obj = []) ->
  collectAllKeys arr = [].
Proof.
  intros H. destruct (collectAllKeys arr) as [|k ks] eqn:E; [reflexivity|].
  assert (Hk : In k (collectAllKeys arr)) by (rewrite E; now left).
  apply collectAllKeys_In in Hk. destruct Hk as [obj [Hin [Hp Hown]]].
  apply hasOwn_objectKeys in Hown. now rewrite (H obj Hin Hp) in Hown.
Qed.

(** X3: the two fallbacks of [mergeObjectArrayTypes]: an empty list gives
    the index-signature token, and a non-empty list none of whose objects
    has a key gives the empty-object token, whatever the configuration,
    level and mode. *)
Theorem mergeObjectArrayTypes_fallbacks cfg lvl md :
  mergeObjectArrayTypes cfg [] lvl md = Some "{ [key: string]: unknown }"
  /\ (forall arr : list Value,
        arr <> [] ->
        (forall obj, In obj arr -> isPlainObject obj = true ->
                     objectKeys obj = []) ->
        mergeObjectArrayTypes cfg arr lvl md
        = Some "Record<string | number | symbol, never>").
Proof.
  split; [reflexivity|]. intros arr Hne H.
  rewrite (mergeObjectArrayTypes_spec cfg arr lvl md Hne).
  now rewrite (collectAllKeys_empty arr H).
Qed.

Lemma mergeObjectArrayTypes_fallbacks_witness :
  [VObject []; VObject []] <> []
  /\ (forall obj, In obj [VObject []; VObject []] ->
                  isPlainObject obj = true -> objectKeys obj = [])
  /\ mergeObjectArrayTypes genericConfig [VObject []; VObject []] 3 Union
     = Some "Record<string | number | symbol, never>".
Proof.
  assert (H1 : [VObject []; VObject []] <> []) by discriminate.
  assert (H2 : forall obj, In obj [VObject []; VObject []] ->
                           isPlainObject obj = true -> objectKeys obj = []).
  { intros obj [<-|[<-|[]]] _; reflexivity. }
  split; [exact H1|]. split; [exact H2|].
  exact (proj2 (mergeObjectArrayTypes_fallbacks genericConfig 3 Union) _ H1 H2).
Defined.

(** X4: the fields of the merged object are the keys of all the objects,
    each once, in ascending code-unit order. *)
Theorem mergeObjectArrayTypes_keys cfg (arr : list Value) lvl md :
  arr <> [] ->
  exists fields,
    mergeObjectArrayTypes cfg arr lvl md = Some (mergedText cfg lvl fields)
    /\ StronglySorted leS (map (fun f => fst (fst f)) fields)
    /\ NoDup (map (fun f => fst (fst f)) fields)
    /\ (forall key,
          In key (map (fun f => fst (fst f)) fields)
          <-> exists obj, In obj arr /\ isPlainObject obj = true
                          /\ hasOwn obj key = true).
Proof.
  intros Hne. eexists. split; [now apply mergeObjectArrayTypes_spec|].
  rewrite map_map. cbn [fst]. rewrite map_id.
  split; [apply sort_sorted|]. split.
  - apply sort_NoDup. unfold collectAllKeys. apply uniq_NoDup.
  - intros key. rewrite sort_In. apply collectAllKeys_In.
Qed.

Lemma mergeObjectArrayTypes_keys_witness :
  sampleUsers <> []
  /\ exists fields,
       mergeObjectArrayTypes typeDetectiveConfig sampleUsers 0 Merge
       = Some (mergedText typeDetectiveConfig 0 fields)
       /\ StronglySorted leS (map (fun f => fst (fst f)) fields)
       /\ NoDup (map (fun f => fst (fst f)) fields)
       /\ (forall key,
             In key (map (fun f => fst (fst f)) fields)
             <-> exists obj, In obj sampleUsers /\ isPlainObject obj = true
                             /\ hasOwn obj key = true).
Proof.
  assert (H : sampleUsers <> []) by discriminate.
  split; [exact H|].
  exact (mergeObjectArrayTypes_keys typeDetectiveConfig sampleUsers 0 Merge H).
Defined.

Lemma filter_length_app_self {A : Type} (f : A -> bool) (l : list A) :
  List.length (filter f (l ++ l)%list) = 2 * List.length (filter f l).
Proof. rewrite filter_app, length_app. lia. Qed.

(** X5: giving every object twice changes nothing: the merged text of
    [arr ++ arr] is the merged text of [arr]. *)
Theorem mergeObjectArrayTypes_repeated cfg (arr : list Value) lvl md :
  mergeObjectArrayTypes cfg (arr ++ arr)%list lvl md
  = mergeObjectArrayTypes cfg arr lvl md.
Proof.
  destruct arr as [|o rest]; [reflexivity|].
  assert (Hne : o :: rest <> []) by discriminate.
  assert (Hne2 : ((o :: rest) ++ (o :: rest))%list <> []) by discriminate.
  revert Hne Hne2. generalize (o :: rest). clear o rest. intros arr Hne Hne2.
  rewrite (mergeObjectArrayTypes_spec cfg _ lvl md Hne).
  rewrite (mergeObjectArrayTypes_spec cfg _ lvl md Hne2).
  assert (Hkeys : Js.sort (collectAllKeys (arr ++ arr)%list)
                  = Js.sort (collectAllKeys arr)).
  { apply sort_Permutation_eq. unfold collectAllKeys.
    apply uniq_same_members. intros x. rewrite flat_map_app, in_app_iff. tauto. }
  rewrite Hkeys. do 2 f_equal. apply map_ext. intros key.
  assert (Hcount : (List.length (presentIn key (arr ++ arr)%list)
                    <? List.length (arr ++ arr)%list)
                   = (List.length (presentIn key arr) <? List.length arr)).
  { unfold presentIn. rewrite filter_length_app_self, length_app.
    destruct (List.length (filter _ arr) <? List.length arr) eqn:E.
    - apply Nat.ltb_lt in E. apply Nat.ltb_lt. lia.
    - apply Nat.ltb_ge in E. apply Nat.ltb_ge. lia. }
  rewrite Hcount. f_equal.
  apply mergeTypes_ext. intros t. unfold contributedTypes, presentIn.
  rewrite filter_app, map_app, in_app_iff. tauto.
Qed.

(* ================================================================== *)
(** * One object: merging against inferring *)
(* ================================================================== *)

Lemma ltb_compare (a b : string) : String.ltb a b = true <-> String.compare a b = Lt.
Proof.
  unfold String.ltb. destruct (String.compare a b); split; congruence.
Qed.

Lemma ltS_leS (a b : string) : ltS a b -> leS a b.
Proof.
  unfold ltS, leS, String.leb. rewrite ltb_compare. now intros ->.
Qed.

Lemma ltS_neq (a b : string) : ltS a b -> a <> b.
Proof.
  unfold ltS. rewrite ltb_compare. intros H ->.
  now rewrite string_compare_refl in H.
Qed.

Lemma ltS_trans (a b c : string) : ltS a b -> ltS b c -> ltS a c.
Proof.
  unfold ltS. rewrite !ltb_compare. apply string_compare_lt_trans.
Qed.

Lemma ascending_sorted (keys : list string) :
  ascending keys = true -> StronglySorted ltS keys.
Proof.
  induction keys as [|a [|b rest] IH]; intros H.
  - constructor.
  - repeat constructor.
  - cbn [ascending] in H. apply andb_true_iff in H. destruct H as [Hab Hr].
    specialize (IH Hr). constructor; [exact IH|].
    apply StronglySorted_inv in IH. destruct IH as [_ Hb].
    constructor; [exact Hab|].
    eapply Forall_impl; [|exact Hb]. intros c Hc. now apply (ltS_trans a b c).
Qed.

Lemma ascending_leS (keys : list string) :
  ascending keys = true -> StronglySorted leS keys.
Proof.
  intros H. apply ascending_sorted in H.
  induction H as [|a l _ IH Ha]; constructor; [exact IH|].
  eapply Forall_impl; [|exact Ha]. intros c. apply ltS_leS.
Qed.

Lemma ascending_NoDup (keys : list string) :
  ascending keys = true -> NoDup keys.
Proof.
  intros H. apply ascending_sorted in H.
  induction H as [|a l _ IH Ha]; constructor; [|exact IH].
  intros Hin. rewrite Forall_forall in Ha. now apply (ltS_neq a a (Ha a Hin)).
Qed.

Lemma setAdd_fold_fresh (l acc : list string) :
  NoDup (acc ++ l) -> fold_left setAdd l acc = (acc ++ l)%list.
Proof.
  revert acc. induction l as [|x r IH]; intros acc H; simpl.
  - now rewrite app_nil_r.
  - assert (Hx : mem x acc = false).
    { apply not_true_is_false. rewrite mem_In. intros Hin.
      apply NoDup_remove_2 in H. apply H, in_or_app. now left. }
    unfold setAdd at 2. rewrite Hx. rewrite IH; rewrite <- app_assoc; [reflexivity|exact H].
Qed.

Lemma uniq_NoDup_id (l : list string) : NoDup l -> uniq l = l.
Proof. intros H. unfold uniq. now rewrite setAdd_fold_fresh. Qed.

Lemma sort_sorted_id (l : list string) : StronglySorted leS l -> Js.sort l = l.
Proof.
  intros H. apply sorted_Permutation_eq; [apply sort_sorted|exact H|].
  apply sort_Permutation.
Qed.

Lemma getProp_NoDup (props : list (string * Value)) (p : string * Value) :
  NoDup (map fst props) -> In p props ->
  getProp (VObject props) (fst p) = snd p.
Proof.
  unfold getProp. cbn [ownProps].
  induction props as [|q r IH]; intros Hnd Hin; [contradiction|].
  cbn [find]. inversion Hnd as [|? ? Hq Hr]; subst.
  destruct Hin as [->|Hin]; [now rewrite String.eqb_refl|].
  destruct (String.eqb (fst q) (fst p)) eqn:E; [|now apply IH].
  apply String.eqb_eq in E. exfalso. apply Hq. rewrite E.
  now apply in_map.
Qed.

Lemma hasOwn_in (props : list (string * Value)) (p : string * Value) :
  In p props -> hasOwn (VObject props) (fst p) = true.
Proof.
  intros H. apply hasOwn_objectKeys. unfold objectKeys. now apply in_map.
Qed.

(** The merged text of the one-element list holding an object whose keys
    are ascending, given that its property values contribute what
    [inferType] gives for them. *)
Lemma merge_single_object cfg (props : list (string * Value)) lvl md :
  ascending (map fst props) = true ->
  ~ In "__proto__" (map fst props) ->
  (forall p, In p props ->
     contributedType cfg (snd p) lvl md = inferType cfg (snd p) (lvl + 1) md) ->
  mergeObjectArrayTypes cfg [VObject props] lvl md
  = inferType cfg (VObject props) lvl md.
Proof.
  intros Hasc Hproto Hct.
  pose proof (ascending_NoDup _ Hasc) as Hnd.
  rewrite (inferType_object cfg props lvl md Hnd), (storedProps_id props Hproto).
  rewrite (mergeObjectArrayTypes_spec cfg [VObject props] lvl md)
    by discriminate.
  f_equal. f_equal.
  assert (Hkeys : Js.sort (collectAllKeys [VObject props]) = map fst props).
  { unfold collectAllKeys. cbn [flat_map isPlainObject isObjectLike truthy
      typeof isArray andb negb String.eqb Ascii.eqb Bool.eqb].
    rewrite app_nil_r. unfold objectKeys. cbn [ownProps].
    rewrite (uniq_NoDup_id _ Hnd). now apply sort_sorted_id, ascending_leS. }
  rewrite Hkeys, map_map. apply map_ext_in. intros p Hp.
  assert (Hpres : presentIn (fst p) [VObject props] = [VObject props]).
  { unfold presentIn. cbn [filter]. rewrite (hasOwn_in props p Hp).
    reflexivity. }
  unfold contributedTypes. rewrite Hpres. cbn [List.length map].
  rewrite (getProp_NoDup props p Hnd Hp), (Hct p Hp).
  reflexivity.
Qed.

Lemma keySorted_ordinary (props : list (string * Value)) :
  forallb (fun p => negb (String.eqb (fst p) "__proto__")
                    && keySorted (snd p)) props = true ->
  ~ In "__proto__" (map fst props).
Proof.
  rewrite forallb_forall. intros H Hin. apply in_map_iff in Hin.
  destruct Hin as [p [E Hp]]. specialize (H p Hp).
  apply andb_true_iff in H. destruct H as [H _].
  rewrite E in H. discriminate.
Qed.

Lemma keySorted_contributes cfg (n : nat) :
  forall value lvl md,
    height value < n -> keySorted value = true ->
    contributedType cfg value lvl md = inferType cfg value (lvl + 1) md.
Proof.
  induction n as [|n IH]; intros value lvl md Hh Hks; [lia|].
  destruct (isScalar value) eqn:Hs.
  { unfold contributedType, contributedType_body.
    rewrite (scalar_not_objectLike value Hs).
    destruct value; try discriminate; reflexivity. }
  destruct value; try discriminate.
  cbn [keySorted] in Hks. apply andb_true_iff in Hks. destruct Hks as [Hasc Hall].
  change (contributedType cfg (VObject props) lvl md)
    with (mergeObjectArrayTypes cfg [VObject props] (lvl + 1) md).
  apply merge_single_object;
    [exact Hasc|now apply (keySorted_ordinary props)|].
  intros p Hp. apply IH.
  - pose proof (height_prop_in props p Hp). lia.
  - rewrite forallb_forall in Hall. specialize (Hall p Hp).
    now apply andb_true_iff in Hall.
Qed.

(** X6: for an object without arrays whose keys are in ascending order at
    every level and never [__proto__], merging the object alone gives
    exactly what [inferType] gives for it; with the single key [__proto__]
    the two differ. *)
Theorem merge_single_sorted_object cfg (props : list (string * Value)) lvl md :
  keySorted (VObject props) = true ->
  mergeObjectArrayTypes cfg [VObject props] lvl md
  = inferType cfg (VObject props) lvl md
  /\ mergeObjectArrayTypes cfg [VObject [("__proto__", VNull)]] lvl md
     <> inferType cfg (VObject [("__proto__", VNull)]) lvl md.
Proof.
  intros H. split.
  - cbn [keySorted] in H. apply andb_true_iff in H.
    destruct H as [Hasc Hall].
    apply merge_single_object;
      [exact Hasc|now apply (keySorted_ordinary props)|].
    intros p Hp.
    apply (keySorted_contributes cfg (S (height (snd p)))); [lia|].
    rewrite forallb_forall in Hall. specialize (Hall p Hp).
    now apply andb_true_iff in Hall.
  - rewrite mergeObjectArrayTypes_unfold.
    unfold mergeObjectArrayTypes_body. cbn -[repeatStr append Nat.add].
    discriminate.
Qed.

Lemma merge_single_sorted_object_witness :
  keySorted (VObject [("a", VObject [("x", num 1); ("y", VNull)]);
                      ("b", VString "s")]) = true
  /\ mergeObjectArrayTypes typeDetectiveConfig
       [VObject [("a", VObject [("x", num 1); ("y", VNull)]);
                 ("b", VString "s")]] 0 Merge
     = inferType typeDetectiveConfig
         (VObject [("a", VObject [("x", num 1); ("y", VNull)]);
                   ("b", VString "s")]) 0 Merge.
Proof.
  split; [reflexivity|].
  exact (proj1 (merge_single_sorted_object typeDetectiveConfig
                  [("a", VObject [("x", num 1); ("y", VNull)]);
                   ("b", VString "s")]
                  0 Merge eq_refl)).
Defined.

(* ================================================================== *)
(** * Values without arrays *)
(* ================================================================== *)

Lemma inferObject_config (c1 c2 : TypeDetectiveConfig)
  (r : Value -> nat -> TypeDetectiveMode -> option string) value lvl md :
  _computedIndent c1 = _computedIndent c2 ->
  inferObject c1 r value lvl md = inferObject c2 r value lvl md.
Proof. intros H. unfold inferObject. now rewrite H. Qed.

Lemma arrayFree_independent (n : nat) :
  forall (c1 c2 : TypeDetectiveConfig) value lvl m1 m2,
    height value < n -> arrayFree value = true ->
    _computedIndent c1 = _computedIndent c2 ->
    inferType c1 value lvl m1 = inferType c2 value lvl m2.
Proof.
  induction n as [|n IH]; intros c1 c2 value lvl m1 m2 Hh Hfree Hc; [lia|].
  rewrite !inferType_unfold.
  destruct value; try discriminate; try reflexivity.
  change (inferObject c1 (inferType c1) (VObject props) lvl m1
          = inferObject c2 (inferType c2) (VObject props) lvl m2).
  rewrite (inferObject_config c1 c2 _ _ lvl m1 Hc).
  assert (Hsub : forall (c : TypeDetectiveConfig) p l d,
             _computedIndent c = _computedIndent c2 ->
             In p (ownProps (VObject props)) ->
             inferType c (snd p) l d = inferType c2 (snd p) l m2).
  { intros c p l d Hcc Hp. apply IH; [|exact (proj1 (forallb_forall _ _) Hfree p Hp)|exact Hcc].
    pose proof (height_prop_in props p Hp). lia. }
  rewrite (inferObject_ext c2 (inferType c1)
             (fun x l _ => inferType c2 x l m2) (VObject props) lvl m1)
    by (intros p l d Hp; now apply Hsub).
  rewrite (inferObject_ext c2 (inferType c2)
             (fun x l _ => inferType c2 x l m2) (VObject props) lvl m2)
    by (intros p l d Hp; now apply Hsub).
  reflexivity.
Qed.

(** X7: the mode and the array style matter for arrays only: on a value
    that contains no array, [inferType] gives the same text in both modes
    and under any two configurations with the same indentation unit. *)
Theorem inferType_without_arrays (c1 c2 : TypeDetectiveConfig)
  (value : Value) lvl m1 m2 :
  arrayFree value = true ->
  _computedIndent c1 = _computedIndent c2 ->
  inferType c1 value lvl m1 = inferType c2 value lvl m2.
Proof.
  intros Hfree Hc.
  apply (arrayFree_independent (S (height value))); [lia|exact Hfree|exact Hc].
Qed.

Lemma inferType_without_arrays_witness :
  arrayFree sampleUser = true
  /\ _computedIndent typeDetectiveConfig = _computedIndent genericConfig
  /\ inferType typeDetectiveConfig sampleUser 1 Merge
     = inferType genericConfig sampleUser 1 Union.
Proof.
  split; [reflexivity|]. split; [reflexivity|].
  exact (inferType_without_arrays typeDetectiveConfig genericConfig sampleUser
           1 Merge Union eq_refl eq_refl).
Defined.

(* ================================================================== *)
(** * Further properties of setupTypeDetective *)
(* ================================================================== *)

(** X8: whether or not the call throws, [setupTypeDetective] leaves each of
    the four fields equal to the option when the option passes its check,
    and to the previous value otherwise; no other key of the options has an
    effect on them. *)
Theorem setup_fields (options : list (string * Value)) cfg :
  let o := VObject options in
  let cfg' := snd (setupTypeDetective options cfg) in
  indent cfg' = orDefault (validIndent (getProp o "indent")) (indent cfg)
  /\ indentType cfg'
     = orDefault (validIndentType (getProp o "indentType")) (indentType cfg)
  /\ arrayStyle cfg'
     = orDefault (validArrayStyle (getProp o "arrayStyle")) (arrayStyle cfg)
  /\ mode cfg' = orDefault (validMode (getProp o "mode")) (mode cfg).
Proof.
  cbv zeta. unfold setupTypeDetective. cbv zeta.
  destruct (applyOptions_fields options cfg) as [H1 [H2 [H3 [H4 _]]]].
  destruct (Js.repeat _ _); cbn [snd setComputedIndent indent indentType
                                  arrayStyle mode]; auto.
Qed.

Lemma applyOptions_twice (options : list (string * Value)) cfg (s : string) :
  applyOptions options (setComputedIndent (applyOptions options cfg) s)
  = setComputedIndent (applyOptions options cfg) s.
Proof.
  unfold applyOptions. cbv zeta.
  destruct (validIndent _), (validIndentType _), (validArrayStyle _),
    (validMode _); reflexivity.
Qed.

(** X9: [setupTypeDetective] is idempotent: after a call that returned,
    the same call again returns and leaves the configuration as it is. *)
Theorem setup_idempotent (options : list (string * Value)) cfg cfg' :
  setupTypeDetective options cfg = (Normal, cfg') ->
  setupTypeDetective options cfg' = (Normal, cfg').
Proof.
  unfold setupTypeDetective. cbv zeta.
  destruct (Js.repeat (indentUnit (indentType (applyOptions options cfg)))
              (indent (applyOptions options cfg))) as [s|] eqn:E;
    [|discriminate].
  intros H. injection H as <-. rewrite applyOptions_twice.
  cbn [indent indentType setComputedIndent]. now rewrite E.
Qed.

Lemma setup_idempotent_witness :
  setupTypeDetective [("indent", num 3); ("mode", VString "union")]
    typeDetectiveConfig
  = (Normal, {| mode := Union; indent := Fin (inject_Z 3); indentType := Space;
                _computedIndent := "   "; arrayStyle := Postfix |})
  /\ setupTypeDetective [("indent", num 3); ("mode", VString "union")]
       {| mode := Union; indent := Fin (inject_Z 3); indentType := Space;
          _computedIndent := "   "; arrayStyle := Postfix |}
     = (Normal, {| mode := Union; indent := Fin (inject_Z 3);
                   indentType := Space; _computedIndent := "   ";
                   arrayStyle := Postfix |}).
Proof.
  assert (H : setupTypeDetective [("indent", num 3); ("mode", VString "union")]
                typeDetectiveConfig
              = (Normal, {| mode := Union; indent := Fin (inject_Z 3);
                            indentType := Space; _computedIndent := "   ";
                            arrayStyle := Postfix |})) by reflexivity.
  split; [exact H|]. exact (setup_idempotent _ _ _ H).
Defined.

(** X10: options none of which passes its check leave a configuration
    untouched, provided its [_computedIndent] is the one its [indent] and
    [indentType] give. *)
Theorem setup_without_valid_option (options : list (string * Value)) cfg :
  validIndent (getProp (VObject options) "indent") = None ->
  validIndentType (getProp (VObject options) "indentType") = None ->
  validArrayStyle (getProp (VObject options) "arrayStyle") = None ->
  validMode (getProp (VObject options) "mode") = None ->
  Js.repeat (indentUnit (indentType cfg)) (indent cfg)
  = Some (_computedIndent cfg) ->
  setupTypeDetective options cfg = (Normal, cfg).
Proof.
  intros H1 H2 H3 H4 Hc. unfold setupTypeDetective, applyOptions. cbv zeta.
  rewrite H1, H2, H3, H4, Hc. now destruct cfg.
Qed.

Lemma setup_without_valid_option_witness :
  setupTypeDetective
    [("indent", VString "4"); ("indentType", VString "spaces");
     ("arrayStyle", VNull); ("mode", VString "MERGE");
     ("verbose", VBoolean true)]
    typeDetectiveConfig
  = (Normal, typeDetectiveConfig).
Proof.
  exact (setup_without_valid_option
           [("indent", VString "4"); ("indentType", VString "spaces");
            ("arrayStyle", VNull); ("mode", VString "MERGE");
            ("verbose", VBoolean true)]
           typeDetectiveConfig eq_refl eq_refl eq_refl eq_refl eq_refl).
Defined.

Lemma repeat_throws_by_length (s1 s2 : string) (count : JsNumber) :
  String.length s1 = String.length s2 ->
  Js.repeat s1 count = None -> Js.repeat s2 count = None.
Proof.
  intros Hlen. unfold Js.repeat. destruct count as [| | |q]; try congruence.
  cbv zeta. rewrite Hlen. destruct (truncate q <? 0)%Z; [reflexivity|].
  destruct (maxStringLength <? _)%Z; congruence.
Qed.

Lemma indentUnit_same_length (t1 t2 : TypeDetectiveIndentType) :
  String.length (indentUnit t1) = String.length (indentUnit t2).
Proof. now rewrite !indentUnit_length. Qed.

(** X11: a call that throws has stored the indent that [repeat] rejects, so
    every later call whose options carry no valid indent throws again; a
    later call with a valid indent returns exactly when [repeat] accepts
    that indent, as it would from any other configuration. *)
Theorem setup_failure_persists (options : list (string * Value)) cfg cfg'
  (e : JsError) :
  setupTypeDetective options cfg = (Throw e, cfg') ->
  cfg' = applyOptions options cfg
  /\ (forall later,
        validIndent (getProp (VObject later) "indent") = None ->
        fst (setupTypeDetective later cfg') = Throw RangeError)
  /\ (forall later n,
        validIndent (getProp (VObject later) "indent") = Some n ->
        (fst (setupTypeDetective later cfg') = Normal
         <-> Js.repeat " " n <> None)).
Proof.
  unfold setupTypeDetective at 1. cbv zeta.
  destruct (Js.repeat (indentUnit (indentType (applyOptions options cfg)))
              (indent (applyOptions options cfg))) as [s|] eqn:E;
    [discriminate|].
  intros H. injection H as _ <-. split; [reflexivity|]. split.
  - intros later Hlater. unfold setupTypeDetective. cbv zeta.
    destruct (applyOptions_fields later (applyOptions options cfg))
      as [Hi _]. cbv zeta in Hi. rewrite Hlater in Hi. cbn [orDefault] in Hi.
    rewrite Hi.
    now rewrite (repeat_throws_by_length _
                   (indentUnit (indentType
                      (applyOptions later (applyOptions options cfg)))) _
                   (indentUnit_same_length _ _) E).
  - intros later n Hlater. unfold setupTypeDetective. cbv zeta.
    destruct (applyOptions_fields later (applyOptions options cfg))
      as [Hi _]. cbv zeta in Hi. rewrite Hlater in Hi. cbn [orDefault] in Hi.
    rewrite Hi.
    set (t' := indentType (applyOptions later (applyOptions options cfg))).
    destruct (Js.repeat (indentUnit t') n) as [t|] eqn:R; cbn [fst].
    + split; [|reflexivity]. intros _ Hnone.
      pose proof (repeat_throws_by_length " " (indentUnit t') n
                    (eq_sym (indentUnit_length t')) Hnone) as R'.
      rewrite R in R'. discriminate.
    + split; [discriminate|]. intros Hsome. exfalso. apply Hsome.
      exact (repeat_throws_by_length (indentUnit t') " " n
               (indentUnit_length t') R).
Qed.

Lemma setup_failure_persists_witness :
  setupTypeDetective [("indent", VNumber PosInf)] typeDetectiveConfig
  = (Throw RangeError, setIndent typeDetectiveConfig PosInf)
  /\ fst (setupTypeDetective [("mode", VString "union")]
            (setIndent typeDetectiveConfig PosInf))
     = Throw RangeError
  /\ fst (setupTypeDetective [("indent", num 2)]
            (setIndent typeDetectiveConfig PosInf))
     = Normal
  /\ fst (setupTypeDetective [("indent", num 1073741824)]
            (setIndent typeDetectiveConfig PosInf))
     <> Normal.
Proof.
  assert (H : setupTypeDetective [("indent", VNumber PosInf)]
                typeDetectiveConfig
              = (Throw RangeError, setIndent typeDetectiveConfig PosInf))
    by reflexivity.
  split; [exact H|].
  destruct (setup_failure_persists _ _ _ _ H) as [_ [Hthrow Hok]].
  split; [|split].
  - exact (Hthrow [("mode", VString "union")] eq_refl).
  - apply (Hok [("indent", num 2)] (Fin (inject_Z 2)) eq_refl). discriminate.
  - intros Hn.
    apply (Hok [("indent", num 1073741824)] (Fin (inject_Z 1073741824))
             eq_refl) in Hn.
    apply Hn. reflexivity.
Defined.

(* ================================================================== *)
(** * Further properties of the array branches *)
(* ================================================================== *)

Lemma inferType_objects_merge cfg (elems : list Value) lvl :
  elems <> [] ->
  forallb isPlainObject elems = true ->
  inferType cfg (VArray elems) lvl Merge
  = Some (let merged := textOf (mergeObjectArrayTypes cfg elems lvl Merge) in
          if isPostfix cfg
          then (if startsWith merged "{" then merged ++ "[]"
                else "(" ++ merged ++ ")[]")
          else "Array<" ++ merged ++ ">").
Proof.
  intros Hne Hobj. rewrite inferType_unfold.
  unfold inferType_body. cbn [typeof String.eqb Ascii.eqb Bool.eqb orb].
  replace (List.length elems =? 0) with false
    by (destruct elems; [congruence|reflexivity]).
  rewrite (plainObjects_not_arrays elems Hne Hobj), Hobj.
  unfold inferArrayOfObjects.
  destruct (mergeObjectArrayTypes_returns cfg elems lvl Merge) as [merged ->].
  cbn [bind textOf]. now destruct (isPostfix cfg).
Qed.

Lemma mergedText_brace cfg lvl (fields : list (string * bool * string)) :
  startsWith (mergedText cfg lvl fields) "{"
  = match fields with
    | [] => false
    | _ => true
    end.
Proof. destruct fields; reflexivity. Qed.

(** X12: in merge mode an array of objects is the merged object type in one
    array wrapper; in the postfix style the merged type is parenthesized
    exactly when no object has a key, the merged type being then the
    empty-object token. *)
Theorem merge_mode_object_array cfg (elems : list Value) lvl :
  elems <> [] ->
  forallb isPlainObject elems = true ->
  let merged := textOf (mergeObjectArrayTypes cfg elems lvl Merge) in
  inferType cfg (VArray elems) lvl Merge
  = Some (if isPostfix cfg
          then match collectAllKeys elems with
               | [] => "(" ++ merged ++ ")[]"
               | _ => merged ++ "[]"
               end
          else "Array<" ++ merged ++ ">")
  /\ (collectAllKeys elems = [] ->
      merged = "Record<string | number | symbol, never>").
Proof.
  intros Hne Hobj merged. subst merged.
  rewrite (inferType_objects_merge cfg elems lvl Hne Hobj). cbv zeta.
  rewrite (mergeObjectArrayTypes_spec cfg elems lvl Merge Hne). cbn [textOf].
  rewrite mergedText_brace. split.
  - destruct (collectAllKeys elems) as [|k ks] eqn:E; [reflexivity|].
    destruct (Js.sort (k :: ks)) eqn:Es; [|reflexivity].
    pose proof (sort_length (k :: ks)) as Hl. rewrite Es in Hl. discriminate.
  - now intros ->.
Qed.

Lemma merge_mode_object_array_witness :
  [VObject []; VObject []] <> []
  /\ forallb isPlainObject [VObject []; VObject []] = true
  /\ inferType typeDetectiveConfig (VArray [VObject []; VObject []]) 0 Merge
     = Some "(Record<string | number | symbol, never>)[]".
Proof.
  assert (H : [VObject []; VObject []] <> []) by discriminate.
  split; [exact H|]. split; [reflexivity|].
  exact (proj1 (merge_mode_object_array typeDetectiveConfig
                  [VObject []; VObject []] 0 H eq_refl)).
Defined.

Lemma recordSet_nonempty {A : Type} (ps : list (string * A)) key (x : A) :
  recordSet ps key x <> [].
Proof.
  destruct ps as [|[k y] r]; simpl; [discriminate|].
  destruct (String.eqb k key); discriminate.
Qed.

Lemma assignText_nonempty (ps : list (string * string)) (key x : string) :
  ps <> [] \/ key <> "__proto__" -> assignText ps key x <> [].
Proof.
  unfold assignText. intros H.
  destruct (String.eqb key "__proto__") eqn:E.
  - apply String.eqb_eq in E. destruct H; congruence.
  - apply recordSet_nonempty.
Qed.

Lemma inferObject_properties_nonempty
  (rec : Value -> option string) (props : list (string * Value))
  (acc ps : list (string * string)) :
  foldM (fun properties p =>
           t <- rec (snd p) ;; Some (assignText properties (fst p) t))
    props acc = Some ps ->
  acc <> [] \/ storedProps props <> [] -> ps <> [].
Proof.
  revert acc. induction props as [|p r IH]; intros acc H Hne; simpl in H.
  - injection H as <-. destruct Hne as [Hne|Hne]; [exact Hne|].
    now elim Hne.
  - destruct (rec (snd p)) as [t|]; [|discriminate]. cbn [bind] in H.
    apply (IH _ H).
    destruct Hne as [Hne|Hne]; [left; apply assignText_nonempty; now left|].
    unfold storedProps in Hne. cbn [filter] in Hne.
    destruct (String.eqb (fst p) "__proto__") eqn:E; cbn [negb] in Hne.
    + now right.
    + left. apply assignText_nonempty. right.
      intros Heq. rewrite Heq in E. discriminate.
Qed.

Lemma object_text_multiline cfg (props : list (string * Value)) lvl md :
  storedProps props <> [] ->
  includesNewline (textOf (inferType cfg (VObject props) lvl md)) = true.
Proof.
  intros Hne.
  destruct (inferType_returns cfg (VObject props) lvl md) as [t Ht].
  rewrite Ht. cbn [textOf]. rewrite inferType_unfold in Ht.
  change (inferObject cfg (inferType cfg) (VObject props) lvl md = Some t) in Ht.
  unfold inferObject in Ht. cbn [ownProps] in Ht.
  destruct (foldM _ props []) as [ps|] eqn:E; [|discriminate].
  cbn [bind] in Ht.
  pose proof (inferObject_properties_nonempty
                (fun v => inferType cfg v (lvl + 1) md) props [] ps E
                (or_intror Hne)) as Hps.
  rewrite length_map in Ht.
  destruct ps as [|q qs]; [congruence|].
  change (List.length (q :: qs) =? 0) with false in Ht. cbv iota in Ht.
  rewrite fold_left_lines in Ht. injection Ht as <-.
  reflexivity.
Qed.

Lemma storedProps_hasOwn (props : list (string * Value)) (key : string) :
  hasOwn (VObject props) key = true -> key <> "__proto__" ->
  storedProps props <> [].
Proof.
  intros Hown Hkey. apply hasOwn_objectKeys in Hown.
  unfold objectKeys in Hown. cbn [ownProps] in Hown.
  apply in_map_iff in Hown. destruct Hown as [p [E Hp]].
  assert (Hin : In p (storedProps props)).
  { unfold storedProps. apply filter_In. split; [exact Hp|].
    rewrite E. apply negb_true_iff, String.eqb_neq. exact Hkey. }
  intros Hnil. now rewrite Hnil in Hin.
Qed.

(** X13: in union mode an array of objects, one of which has a property
    other than [__proto__], lists the distinct object types once each, in
    the order of their first occurrence, one per line; a single distinct
    type stands alone in one postfix wrapper. *)
Theorem union_mode_object_array cfg (elems : list Value) lvl :
  elems <> [] ->
  forallb isPlainObject elems = true ->
  (exists obj key,
      In obj elems /\ hasOwn obj key = true /\ key <> "__proto__") ->
  let variants :=
    uniq (map (fun obj => textOf (inferType cfg obj (lvl + 1) Union)) elems) in
  let nextIndent := repeatStr (_computedIndent cfg) (lvl + 1) in
  let separator := " |" ++ nl ++ nextIndent in
  inferType cfg (VArray elems) lvl Union
  = Some (if isPostfix cfg
          then match variants with
               | [u] => u ++ "[]"
               | _ => "(" ++ join separator variants ++ ")[]"
               end
          else "Array<" ++ nl ++ nextIndent ++ join separator variants
                 ++ nl ++ repeatStr (_computedIndent cfg) lvl ++ ">")
  /\ NoDup variants
  /\ (forall obj, In obj elems ->
        In (textOf (inferType cfg obj (lvl + 1) Union)) variants).
Proof.
  intros Hne Hobj [obj [key [Hin [Hown Hkey]]]]. cbv zeta. split; [|split].
  - rewrite inferType_unfold.
    unfold inferType_body. cbn [typeof String.eqb Ascii.eqb Bool.eqb orb].
    replace (List.length elems =? 0) with false
      by (destruct elems; [congruence|reflexivity]).
    rewrite (plainObjects_not_arrays elems Hne Hobj), Hobj.
    unfold inferArrayOfObjects.
    rewrite (mapM_map _ (fun o => textOf (inferType cfg o (lvl + 1) Union)))
      by (intros o _; apply textOf_Some, inferType_returns).
    cbn [bind].
    assert (Hml : existsb includesNewline
                    (uniq (map (fun o => textOf (inferType cfg o (lvl + 1) Union))
                             elems)) = true).
    { apply existsb_exists.
      exists (textOf (inferType cfg obj (lvl + 1) Union)). split.
      - apply uniq_In, in_map_iff. now exists obj.
      - destruct obj; try discriminate.
        apply object_text_multiline.
        exact (storedProps_hasOwn props key Hown Hkey). }
    rewrite Hml. now destruct (isPostfix cfg).
  - apply uniq_NoDup.
  - intros o Ho. apply uniq_In, in_map_iff. now exists o.
Qed.

Lemma union_mode_object_array_witness :
  [VObject [("a", num 1)]; VObject [("b", VString "x")]; VObject [("a", num 2)]]
  <> []
  /\ inferType typeDetectiveConfig
       (VArray [VObject [("a", num 1)]; VObject [("b", VString "x")];
                VObject [("a", num 2)]]) 0 Union
     = Some (lines ["({"; "    a: number;"; "  } |"; "  {"; "    b: string;";
                    "  })[]"]).
Proof.
  assert (H : [VObject [("a", num 1)]; VObject [("b", VString "x")];
               VObject [("a", num 2)]] <> []) by discriminate.
  split; [exact H|].
  refine (proj1 (union_mode_object_array typeDetectiveConfig
                   [VObject [("a", num 1)]; VObject [("b", VString "x")];
                    VObject [("a", num 2)]] 0 H eq_refl _)).
  exists (VObject [("a", num 1)]), "a".
  split; [now left|]. split; [reflexivity|discriminate].
Defined.

Lemma setAdd_fold_members (l acc : list string) :
  (forall x, In x l -> In x acc) -> fold_left setAdd l acc = acc.
Proof.
  induction l as [|x r IH]; intros H; simpl; [reflexivity|].
  unfold setAdd at 2.
  replace (mem x acc) with true
    by (symmetry; apply mem_In, H; now left).
  apply IH. intros y Hy. apply H. now right.
Qed.

(** X14: the type of a non-empty array of scalars does not change when
    scalars are appended whose types already occur in it. *)
Theorem scalar_array_stable cfg (elems extra : list Value) lvl md :
  elems <> [] ->
  forallb isScalar elems = true ->
  forallb isScalar extra = true ->
  (forall x, In x extra -> In (scalarType x) (map scalarType elems)) ->
  inferType cfg (VArray (elems ++ extra)) lvl md
  = inferType cfg (VArray elems) lvl md.
Proof.
  intros Hne He Hx Hsub.
  rewrite !inferType_scalar_array; [|exact He|].
  2:{ rewrite forallb_app. now rewrite He, Hx. }
  assert (E : scalarElementTypes (elems ++ extra) = scalarElementTypes elems).
  { destruct elems as [|e r]; [congruence|].
    change (scalarElementTypes ((e :: r) ++ extra))
      with (uniq (map scalarType ((e :: r) ++ extra))).
    change (scalarElementTypes (e :: r)) with (uniq (map scalarType (e :: r))).
    unfold uniq. rewrite map_app, fold_left_app.
    apply setAdd_fold_members. intros t Ht. apply in_map_iff in Ht.
    destruct Ht as [x [<- Hin]]. apply (uniq_In (map scalarType (e :: r))).
    now apply Hsub. }
  now rewrite E.
Qed.

Lemma scalar_array_stable_witness :
  inferType typeDetectiveConfig
    (VArray ([num 1; VString "a"] ++ [VString "b"; num 7; num 8])) 0 Merge
  = inferType typeDetectiveConfig (VArray [num 1; VString "a"]) 0 Merge.
Proof.
  refine (scalar_array_stable typeDetectiveConfig [num 1; VString "a"]
            [VString "b"; num 7; num 8] 0 Merge _ eq_refl eq_refl _).
  - discriminate.
  - intros x [<-|[<-|[<-|[]]]]; simpl; tauto.
Defined.

Lemma nestedElementTypes_Permutation (elems elems' : list Value) :
  Permutation elems elems' ->
  Permutation (nestedElementTypes elems) (nestedElementTypes elems').
Proof.
  intros H. unfold nestedElementTypes. rewrite <- !flat_map_concat_map.
  now apply Permutation_flat_map.
Qed.

(** X15: in merge mode the type of an array of arrays of scalars does not
    depend on the order of the sub-arrays. *)
Theorem nested_scalar_arrays_commutative cfg (elems elems' : list Value) lvl :
  elems <> [] ->
  forallb isScalarArray elems = true ->
  Permutation elems elems' ->
  inferType cfg (VArray elems') lvl Merge
  = inferType cfg (VArray elems) lvl Merge.
Proof.
  intros Hne H Hperm.
  assert (Hne' : elems' <> []).
  { intros ->. apply Permutation_sym, Permutation_nil in Hperm. congruence. }
  assert (H' : forallb isScalarArray elems' = true).
  { apply forallb_forall. intros x Hx. rewrite forallb_forall in H.
    apply H. now apply (Permutation_in _ (Permutation_sym Hperm)). }
  rewrite (inferType_nested_scalar_arrays cfg elems lvl Hne H).
  rewrite (inferType_nested_scalar_arrays cfg elems' lvl Hne' H').
  cbv zeta.
  now rewrite (sort_Permutation_eq _ _
                 (uniq_Permutation _ _
                    (nestedElementTypes_Permutation _ _ Hperm))).
Qed.

Lemma nested_scalar_arrays_commutative_witness :
  inferType genericConfig
    (VArray [VArray [VBoolean true; num 2]; VArray [num 1; VString "a"]])
    0 Merge
  = inferType genericConfig nestedMixed 0 Merge.
Proof.
  refine (nested_scalar_arrays_commutative genericConfig
            [VArray [num 1; VString "a"]; VArray [VBoolean true; num 2]]
            [VArray [VBoolean true; num 2]; VArray [num 1; VString "a"]]
            0 _ eq_refl _).
  - discriminate.
  - apply perm_swap.
Defined.

(* ================================================================== *)
(** * Unwrapping the text of a sub-array *)
(* ================================================================== *)

Lemma matchPostfix_multiline (s : string) :
  existsb isLineTerminator (list_ascii_of_string s) = true ->
  matchPostfix (s ++ "[]") = None.
Proof.
  intros H. unfold matchPostfix. rewrite endsWith_app, str_length_app.
  replace (String.length s + String.length "[]" - 2) with (String.length s)
    by (simpl; lia).
  rewrite substring_app_head. now rewrite H.
Qed.

(** X16: the postfix pattern gives back the text before the final bracket
    pair when that text has no line terminator, and does not match when it
    has one; the generic pattern gives back any non-empty text between
    [Array<] and the final [>], line terminators included. *)
Theorem array_patterns (s : string) :
  (existsb isLineTerminator (list_ascii_of_string s) = false ->
   matchPostfix (s ++ "[]") = Some s)
  /\ (existsb isLineTerminator (list_ascii_of_string s) = true ->
      matchPostfix (s ++ "[]") = None
      /\ stripPostfix (s ++ "[]") = s ++ "[]")
  /\ (s <> "" -> matchGeneric ("Array<" ++ s ++ ">") = Some s).
Proof.
  split; [apply matchPostfix_app|]. split; [|apply matchGeneric_app].
  intros H. unfold stripPostfix. now rewrite (matchPostfix_multiline s H).
Qed.

Lemma array_patterns_witness :
  matchPostfix ("(number | string)" ++ "[]") = Some "(number | string)"
  /\ stripPostfix (("{" ++ nl ++ "}") ++ "[]") = ("{" ++ nl ++ "}") ++ "[]"
  /\ matchGeneric ("Array<" ++ ("{" ++ nl ++ "}") ++ ">")
     = Some ("{" ++ nl ++ "}").
Proof.
  split; [exact (proj1 (array_patterns "(number | string)") eq_refl)|].
  split.
  - exact (proj2 (proj1 (proj2 (array_patterns ("{" ++ nl ++ "}"))) eq_refl)).
  - refine (proj2 (proj2 (array_patterns ("{" ++ nl ++ "}"))) _). discriminate.
Defined.

(** X17: for a list of scalar type names, what the array branch writes is
    what the array-of-arrays branch reads back: stripping and flattening the
    postfix text, or matching and splitting the generic text, returns the
    element types in their order. *)
Theorem scalar_array_text_round_trip (elementTypes : list string) :
  namesList elementTypes ->
  flattenUnionMembers [stripPostfix (wrapPostfix elementTypes)] = elementTypes
  /\ exists inner,
       matchGeneric (wrapGeneric elementTypes) = Some inner
       /\ map trim (splitBar inner) = elementTypes.
Proof.
  intros H. split.
  - unfold stripPostfix. rewrite wrapPostfix_unionBody.
    rewrite (matchPostfix_app _ (unionBody_oneLine _ H)).
    now apply flatten_unionBody.
  - destruct H as [Hn Hne]. exists (join " | " elementTypes). split.
    + apply matchGeneric_app. now apply join_names_nonempty.
    + now apply split_join_names.
Qed.

Lemma scalar_array_text_round_trip_witness :
  namesList ["number"; "() => unknown"; "null"]
  /\ flattenUnionMembers
       [stripPostfix (wrapPostfix ["number"; "() => unknown"; "null"])]
     = ["number"; "() => unknown"; "null"].
Proof.
  assert (H : namesList ["number"; "() => unknown"; "null"]).
  { split; [|discriminate]. repeat constructor; simpl; tauto. }
  split; [exact H|]. exact (proj1 (scalar_array_text_round_trip _ H)).
Defined.

(* ================================================================== *)
(** * Arrays inside merged objects *)
(* ================================================================== *)

(** X18: inside a merged object, a property holding a non-empty array of
    objects is typed [Array<M>], with [M] the merge of those objects one
    level deeper, whatever the array style; a property holding an array of
    scalars follows the array style. *)
Theorem contributed_array_types cfg (elems : list Value) lvl md :
  (elems <> [] -> forallb isPlainObject elems = true ->
   contributedType cfg (VArray elems) lvl md
   = Some ("Array<"
             ++ textOf (mergeObjectArrayTypes cfg elems (lvl + 1) md) ++ ">"))
  /\ (forallb isScalar elems = true ->
      contributedType cfg (VArray elems) lvl md
      = Some (if isPostfix cfg then wrapPostfix (scalarElementTypes elems)
              else wrapGeneric (scalarElementTypes elems))).
Proof.
  unfold contributedType, contributedType_body. split.
  - intros Hne Hobj. rewrite Hobj.
    replace (0 <? List.length elems) with true
      by (destruct elems; [congruence|reflexivity]).
    cbn [andb].
    destruct (mergeObjectArrayTypes_returns cfg elems (lvl + 1) md) as [t ->].
    reflexivity.
  - intros Hs.
    replace ((0 <? List.length elems) && forallb isPlainObject elems)
      with false.
    + now apply inferType_scalar_array.
    + destruct elems as [|x r]; [reflexivity|]. cbn [forallb] in *.
      apply andb_true_iff in Hs. destruct Hs as [Hx _].
      unfold isPlainObject at 1. rewrite (scalar_not_objectLike x Hx).
      reflexivity.
Qed.

Lemma contributed_array_types_witness :
  [VObject [("b", num 1)]] <> []
  /\ contributedType typeDetectiveConfig (VArray [VObject [("b", num 1)]])
       0 Merge
     = Some (lines ["Array<{"; "    b: number;"; "  }>"])
  /\ contributedType typeDetectiveConfig (VArray [num 1; num 2]) 0 Merge
     = Some "number[]".
Proof.
  assert (H : [VObject [("b", num 1)]] <> []) by discriminate.
  split; [exact H|]. split.
  - exact (proj1 (contributed_array_types typeDetectiveConfig
                    [VObject [("b", num 1)]] 0 Merge) H eq_refl).
  - exact (proj2 (contributed_array_types typeDetectiveConfig
                    [num 1; num 2] 0 Merge) eq_refl).
Defined.

(* ================================================================== *)
(** * The indent level only indents *)
(* ================================================================== *)

Lemma shiftLines_app (u a b : string) :
  shiftLines u (a ++ b) = shiftLines u a ++ shiftLines u b.
Proof.
  induction a as [|c a IH]; [reflexivity|].
  change (String c a ++ b) with (String c (a ++ b)). cbn [shiftLines].
  rewrite IH. destruct (Ascii.eqb "010" c); cbn [append]; [|reflexivity].
  now rewrite str_app_assoc.
Qed.

Lemma shiftLines_single_line (u t : string) :
  includesNewline t = false -> shiftLines u t = t.
Proof.
  unfold includesNewline. induction t as [|c t IH]; [reflexivity|].
  cbn [list_ascii_of_string existsb shiftLines].
  intros H. apply orb_false_iff in H. destruct H as [Hc Ht].
  rewrite Hc. now rewrite (IH Ht).
Qed.

Lemma shiftLines_nl (u : string) : shiftLines u nl = nl ++ u.
Proof.
  unfold nl. cbn [shiftLines]. rewrite Ascii.eqb_refl.
  now rewrite str_app_empty_r.
Qed.

Lemma includesNewline_app (a b : string) :
  includesNewline (a ++ b) = includesNewline a || includesNewline b.
Proof. unfold includesNewline. now rewrite chars_app, existsb_app. Qed.

Lemma repeatStr_single_line (u : string) (n : nat) :
  includesNewline u = false -> includesNewline (repeatStr u n) = false.
Proof.
  intros H. induction n as [|n IH]; simpl; [reflexivity|].
  now rewrite includesNewline_app, H, IH.
Qed.

Lemma recordSet_map (f : string -> string) (ps : list (string * string))
  (key x : string) :
  recordSet (map (fun q => (fst q, f (snd q))) ps) key (f x)
  = map (fun q => (fst q, f (snd q))) (recordSet ps key x).
Proof.
  induction ps as [|[k y] r IH]; simpl; [reflexivity|].
  destruct (String.eqb k key); simpl; [reflexivity|now rewrite IH].
Qed.

Lemma recordSet_keys (ps : list (string * string)) (key x k : string) :
  In k (map fst (recordSet ps key x)) -> k = key \/ In k (map fst ps).
Proof.
  induction ps as [|[k0 y] r IH]; simpl.
  - intros [<-|[]]. now left.
  - destruct (String.eqb k0 key); simpl; [tauto|].
    intros [<-|H]; [tauto|]. destruct (IH H); tauto.
Qed.

Lemma assignText_map (f : string -> string) (ps : list (string * string))
  (key x : string) :
  assignText (map (fun q => (fst q, f (snd q))) ps) key (f x)
  = map (fun q => (fst q, f (snd q))) (assignText ps key x).
Proof.
  unfold assignText. destruct (String.eqb key "__proto__"); [reflexivity|].
  apply recordSet_map.
Qed.

Lemma assignText_keys (ps : list (string * string)) (key x k : string) :
  In k (map fst (assignText ps key x)) -> k = key \/ In k (map fst ps).
Proof.
  unfold assignText. destruct (String.eqb key "__proto__"); [tauto|].
  apply recordSet_keys.
Qed.

(** The properties collected by the object branch, when every recursive
    call returns. *)
Lemma inferObject_fold (rec : Value -> option string)
  (props : list (string * Value)) (acc : list (string * string)) :
  (forall p, In p props -> exists s, rec (snd p) = Some s) ->
  foldM (fun properties p =>
           t <- rec (snd p) ;; Some (assignText properties (fst p) t))
    props acc
  = Some (fold_left
            (fun properties p =>
               assignText properties (fst p) (textOf (rec (snd p))))
            props acc).
Proof.
  revert acc. induction props as [|p r IH]; intros acc H; simpl; [reflexivity|].
  destruct (H p (or_introl eq_refl)) as [s ->]. cbn [bind textOf].
  apply IH. intros q Hq. apply H. now right.
Qed.

Lemma collected_shift (f : string -> string) (g0 g1 : Value -> string)
  (props : list (string * Value)) (acc : list (string * string)) :
  (forall p, In p props -> g1 (snd p) = f (g0 (snd p))) ->
  fold_left (fun properties p => assignText properties (fst p) (g1 (snd p)))
    props (map (fun q => (fst q, f (snd q))) acc)
  = map (fun q => (fst q, f (snd q)))
      (fold_left (fun properties p => assignText properties (fst p) (g0 (snd p)))
         props acc).
Proof.
  revert acc. induction props as [|p r IH]; intros acc H; simpl; [reflexivity|].
  rewrite (H p (or_introl eq_refl)), assignText_map.
  apply IH. intros q Hq. apply H. now right.
Qed.

Lemma collected_keys (g : Value -> string) (props : list (string * Value))
  (acc : list (string * string)) (k : string) :
  In k (map fst (fold_left
                   (fun properties p => assignText properties (fst p) (g (snd p)))
                   props acc)) ->
  In k (map fst acc) \/ In k (map fst props).
Proof.
  revert acc. induction props as [|p r IH]; intros acc H; simpl in *; [tauto|].
  destruct (IH _ H) as [H1|H1]; [|tauto].
  destruct (assignText_keys _ _ _ _ H1); [subst|]; tauto.
Qed.

Lemma shifted_lines (u : string) (I : string) (qs : list (string * string))
  (rest : string) :
  includesNewline u = false -> includesNewline I = false ->
  (forall q, In q qs -> includesNewline (fst q) = false) ->
  u ++ shiftLines u
         (String.concat "" (map (fun q => fieldLine I (fst q) false (snd q)) qs))
    ++ rest
  = String.concat ""
      (map (fun q => fieldLine (u ++ I) (fst q) false (shiftLines u (snd q))) qs)
      ++ u ++ rest.
Proof.
  intros Hu HI. induction qs as [|q qs IH]; intros Hk; [reflexivity|].
  assert (Hq : includesNewline (fst q) = false) by (apply Hk; now left).
  assert (E : String.concat ""
                (map (fun q => fieldLine I (fst q) false (snd q)) (q :: qs))
              = fieldLine I (fst q) false (snd q)
                  ++ String.concat ""
                       (map (fun q => fieldLine I (fst q) false (snd q)) qs)).
  { cbn [map]. destruct qs; simpl; [now rewrite str_app_empty_r|reflexivity]. }
  assert (E' : String.concat ""
                 (map (fun q => fieldLine (u ++ I) (fst q) false
                                  (shiftLines u (snd q))) (q :: qs))
               = fieldLine (u ++ I) (fst q) false (shiftLines u (snd q))
                   ++ String.concat ""
                        (map (fun q => fieldLine (u ++ I) (fst q) false
                                         (shiftLines u (snd q))) qs)).
  { cbn [map]. destruct qs; simpl; [now rewrite str_app_empty_r|reflexivity]. }
  rewrite E, E'. clear E E'.
  rewrite shiftLines_app. unfold fieldLine at 1 3.
  rewrite !shiftLines_app, shiftLines_nl.
  rewrite (shiftLines_single_line u I HI), (shiftLines_single_line u _ Hq).
  change (shiftLines u "") with "". change (shiftLines u ": ") with ": ".
  change (shiftLines u ";") with ";".
  rewrite !str_app_assoc. do 8 (apply (f_equal (append _))).
  exact (IH (fun q' Hq' => Hk q' (or_intror Hq'))).
Qed.

Lemma repeatStr_succ (u : string) (n : nat) :
  repeatStr u (n + 1) = u ++ repeatStr u n.
Proof. now rewrite Nat.add_1_r. Qed.

Lemma scalarType_single_line (value : Value) :
  isScalar value = true -> includesNewline (scalarType value) = false.
Proof. destruct value; try discriminate; reflexivity. Qed.

Lemma singleLineKeys_props (props : list (string * Value)) (p : string * Value) :
  singleLineKeys (VObject props) = true -> In p props ->
  includesNewline (fst p) = false /\ singleLineKeys (snd p) = true.
Proof.
  cbn [singleLineKeys]. intros H Hp.
  rewrite forallb_forall in H. specialize (H p Hp).
  apply andb_true_iff in H. destruct H as [H1 H2].
  apply negb_true_iff in H1. now split.
Qed.

Lemma shifted_text cfg md (n : nat) :
  includesNewline (_computedIndent cfg) = false ->
  forall value lvl,
    height value < n -> singleLineKeys value = true ->
    textOf (inferType cfg value (lvl + 1) md)
    = shiftLines (_computedIndent cfg) (textOf (inferType cfg value lvl md)).
Proof.
  intros Hu. induction n as [|n IH]; intros value lvl Hh Hs; [lia|].
  destruct (isScalar value) eqn:Esc.
  { rewrite !inferType_scalar by exact Esc. cbn [textOf].
    symmetry. apply shiftLines_single_line.
    now apply scalarType_single_line. }
  destruct value as [| | | | | | | |elems|props|tag]; try discriminate.
  set (u := _computedIndent cfg) in *.
  assert (Hobj : forall l,
            inferType cfg (VObject props) l md
            = inferObject cfg (inferType cfg) (VObject props) l md).
  { intros l. now rewrite inferType_unfold. }
  rewrite !Hobj. unfold inferObject. cbn [ownProps].
  rewrite !(inferObject_fold (fun v => inferType cfg v _ md))
    by (intros p _; apply inferType_returns).
  cbn [bind].
  assert (Hsh :
    fold_left
      (fun properties p =>
         assignText properties (fst p)
           (textOf (inferType cfg (snd p) (lvl + 1 + 1) md)))
      props []
    = map (fun q => (fst q, shiftLines u (snd q)))
        (fold_left
           (fun properties p =>
              assignText properties (fst p)
                (textOf (inferType cfg (snd p) (lvl + 1) md)))
           props [])).
  { apply (collected_shift (shiftLines u)
             (fun v => textOf (inferType cfg v (lvl + 1) md))
             (fun v => textOf (inferType cfg v (lvl + 1 + 1) md)) props []).
    intros p Hp. apply IH.
    - pose proof (height_prop_in props p Hp). lia.
    - now apply (singleLineKeys_props props p Hs Hp). }
  rewrite Hsh. clear Hsh.
  set (qs := fold_left _ props []).
  assert (Hk : forall q, In q qs -> includesNewline (fst q) = false).
  { intros q Hq.
    destruct (collected_keys
                (fun v => textOf (inferType cfg v (lvl + 1) md)) props []
                (fst q) (in_map fst _ _ Hq)) as [[]|Hin].
    apply in_map_iff in Hin. destruct Hin as [p [Ep Hp]]. rewrite <- Ep.
    now apply (singleLineKeys_props props p Hs Hp). }
  rewrite !length_map.
  destruct (List.length qs =? 0); [reflexivity|].
  cbn [textOf]. rewrite !fold_left_lines, map_map. cbn [fst snd]. fold u.
  rewrite !shiftLines_app, shiftLines_nl.
  rewrite (shiftLines_single_line u (repeatStr u lvl))
    by now apply repeatStr_single_line.
  change (shiftLines u "{") with "{". change (shiftLines u "}") with "}".
  rewrite !str_app_assoc. do 2 (apply (f_equal (append _))).
  rewrite (shifted_lines u (repeatStr u (lvl + 1)) qs (repeatStr u lvl ++ "}")
             Hu (repeatStr_single_line u _ Hu) Hk).
  rewrite (repeatStr_succ u (lvl + 1)), (repeatStr_succ u lvl).
  now rewrite !str_app_assoc.
Qed.

(** X19 (inferType): for a value without arrays whose keys contain no line
    feed, and an indentation unit without line feed, the text at the next
    indent level is the text at this level with one indentation unit
    inserted after every line feed. *)
Theorem indent_level_shifts cfg value lvl md :
  singleLineKeys value = true ->
  includesNewline (_computedIndent cfg) = false ->
  inferType cfg value (lvl + 1) md
  = option_map (shiftLines (_computedIndent cfg))
      (inferType cfg value lvl md).
Proof.
  intros Hs Hu.
  pose proof (shifted_text cfg md (S (height value)) Hu value lvl
                (Nat.lt_succ_diag_r _) Hs) as H.
  destruct (inferType_returns cfg value (lvl + 1) md) as [a Ea].
  destruct (inferType_returns cfg value lvl md) as [b Eb].
  rewrite Ea, Eb in *. cbn [textOf option_map] in *. now rewrite H.
Qed.

Lemma indent_level_shifts_witness :
  singleLineKeys sampleUser = true
  /\ includesNewline (_computedIndent typeDetectiveConfig) = false
  /\ inferType typeDetectiveConfig sampleUser (0 + 1) Merge
     = option_map (shiftLines (_computedIndent typeDetectiveConfig))
         (inferType typeDetectiveConfig sampleUser 0 Merge).
Proof.
  split; [reflexivity|]. split; [reflexivity|].
  apply (indent_level_shifts typeDetectiveConfig sampleUser 0 Merge);
    reflexivity.
Defined.
